(** * exoclasma_note: interval encoding, database merging and variant filtering

    A shallow embedding of [src/exoclasma_note/exoclasma_note.py] and the
    properties its specification states about it.

    Conventions of the embedding.
    - A Python [str] is a list of Unicode code points ([pystr]); [py] turns a
      literal into one.
    - [bytes] are lists of numbers below 256.
    - A raising call is an [option] (or an explicit error value); [None] is
      "an exception propagated".
    - A [dict] is an association list in insertion order whose update
      overwrites in place, as Python's does.
    - Properties of non-ASCII code points that Python takes from the Unicode
      database (white space, decimal digits, alphanumerics, lower-casing) are
      a parameter [unicode_db]; for ASCII everything is written out.
    - A Python [float] is kept as the decimal numeral that [float()] read
      (or an infinity, or NaN); rounding to binary64 is not modelled.
    - [int()] and [str()] are modelled without the limit of 4300 digits that
      CPython puts on the conversion between integers and text; a statement
      about integers that are received as text states the limit.
    - The values of a JSON payload are strings, integers, booleans and
      [None]; a payload that holds a float is outside the fragment.
    - A table is the table that [pandas.read_csv] returned: what the reader
      makes of the text of a file (the type of a column, the cells it takes
      for missing) is not modelled. *)

From Stdlib Require Import List NArith ZArith Bool Lia String Ascii.
From Stdlib Require Import Sorting.Sorted Permutation.
Import ListNotations.

Set Implicit Arguments.
Local Open Scope N_scope.

(* ------------------------------------------------------------------ *)
(** * Python primitives *)

Module Py.

Definition pystr := list N.
Definition bytes := list N.

Definition py (s : string) : pystr :=
  map N_of_ascii (list_ascii_of_string s).

Definition pystr_eqb (a b : pystr) : bool :=
  if list_eq_dec N.eq_dec a b then true else false.

(** What Python reads from the Unicode database for a code point >= 128. *)
Record unicode_db := {
  u_isspace : N -> bool;
  u_decimal : N -> option N;
  u_isalnum : N -> bool;
  u_lower : N -> list N
}.

(** A database in which no non-ASCII code point has any property. *)
Definition ascii_only : unicode_db :=
  {| u_isspace := fun _ => false;
     u_decimal := fun _ => None;
     u_isalnum := fun _ => false;
     u_lower := fun c => [c] |}.

(** ** [str.split(sep)] for a one-character separator, [sep.join] *)

Fixpoint split (sep : N) (s : pystr) : list pystr :=
  match s with
  | [] => [[]]
  | c :: r =>
      if c =? sep then [] :: split sep r
      else match split sep r with
           | h :: t => (c :: h) :: t
           | [] => [[c]]
           end
  end.

Fixpoint join (sep : pystr) (l : list pystr) : pystr :=
  match l with
  | [] => []
  | [x] => x
  | x :: r => x ++ sep ++ join sep r
  end.

(** ** [str(n)] for an [int] *)

Fixpoint digits_aux (fuel : nat) (n : N) (acc : pystr) : pystr :=
  match fuel with
  | O => acc
  | S f =>
      if n <? 10 then (48 + n) :: acc
      else digits_aux f (n / 10) ((48 + n mod 10) :: acc)
  end.

Definition str_of_N (n : N) : pystr :=
  digits_aux (S (N.to_nat (N.log2 n))) n [].

Definition str_of_int (z : Z) : pystr :=
  match z with
  | Zneg p => 45 :: str_of_N (Npos p)
  | _ => str_of_N (Z.to_N z)
  end.

(** [sys.get_int_max_str_digits()]: [int()] raises a [ValueError] on a
    numeral of more digits. *)
Definition int_max_str_digits : nat := 4300.

(** The decimal numeral of the number is one that [int()] reads. *)
Definition short_numeral (n : N) : Prop :=
  (List.length (str_of_N n) <= int_max_str_digits)%nat.

(** ** Floats *)

Inductive pyfloat :=
| FNaN
| FInf (neg : bool)
| FDec (neg : bool) (mant : N) (exp : Z).

Definition dec_Z (neg : bool) (m : N) : Z :=
  if neg then (- Z.of_N m)%Z else Z.of_N m.

(** Order of two floats; [None] when one of them is NaN. *)
Definition float_compare (a b : pyfloat) : option comparison :=
  match a, b with
  | FNaN, _ | _, FNaN => None
  | FInf true, FInf true | FInf false, FInf false => Some Eq
  | FInf true, _ | _, FInf false => Some Lt
  | FInf false, _ | _, FInf true => Some Gt
  | FDec n1 m1 e1, FDec n2 m2 e2 =>
      let e := Z.min e1 e2 in
      Some (Z.compare (dec_Z n1 m1 * 10 ^ (e1 - e))
                      (dec_Z n2 m2 * 10 ^ (e2 - e)))%Z
  end.

Definition float_lt (a b : pyfloat) : bool :=
  match float_compare a b with Some Lt => true | _ => false end.

Definition float_le (a b : pyfloat) : bool :=
  match float_compare a b with Some Lt | Some Eq => true | _ => false end.

Definition float_gt (a b : pyfloat) : bool := float_lt b a.
Definition float_ge (a b : pyfloat) : bool := float_le b a.

Definition float_eq (a b : pyfloat) : bool :=
  match float_compare a b with Some Eq => true | _ => false end.

Definition is_nan (a : pyfloat) : bool :=
  match a with FNaN => true | _ => false end.

Section Unicode.
Variable U : unicode_db.

(** The white space that [int()] and [float()] skip around a numeral: the
    C locale's for ASCII, Unicode's above it. *)
Definition isspace (c : N) : bool :=
  if c <? 128
  then ((9 <=? c) && (c <=? 13)) || (c =? 32)
  else u_isspace U c.

(** Value of a decimal digit ([Nd] category), if the code point is one. *)
Definition decimal_value (c : N) : option N :=
  if c <? 128
  then if (48 <=? c) && (c <=? 57) then Some (c - 48) else None
  else u_decimal U c.

Fixpoint lstrip (s : pystr) : pystr :=
  match s with
  | c :: r => if isspace c then lstrip r else s
  | [] => []
  end.

(** ** [int(s)] in base 10

    Leading and trailing white space is dropped, one sign is allowed, then
    digits in which single underscores may separate digits. *)

Fixpoint scan_digits (acc : N) (prev_us : bool) (s : pystr)
  : option (N * pystr) :=
  match s with
  | [] => if prev_us then None else Some (acc, [])
  | c :: r =>
      match decimal_value c with
      | Some d => scan_digits (10 * acc + d) false r
      | None =>
          if c =? 95 then
            if prev_us then None else scan_digits acc true r
          else if prev_us then None else Some (acc, s)
      end
  end.

Definition scan_number (s : pystr) : option (N * pystr) :=
  match s with
  | c :: _ =>
      match decimal_value c with
      | Some _ => scan_digits 0 false s
      | None => None
      end
  | [] => None
  end.

Definition all_space (s : pystr) : bool := forallb isspace s.

(** One optional sign: whether it is a minus, and the text after it. *)
Definition take_sign (s : pystr) : bool * pystr :=
  match s with
  | c :: r =>
      if c =? 43 then (false, r)
      else if c =? 45 then (true, r)
      else (false, s)
  | [] => (false, [])
  end.

Definition int_of_str (s : pystr) : option Z :=
  let '(neg, s) := take_sign (lstrip s) in
  match scan_number s with
  | Some (n, rest) =>
      if all_space rest
      then Some (if neg then (- Z.of_N n)%Z else Z.of_N n)
      else None
  | None => None
  end.

(** ** [float(s)]

    The value read is kept exactly: [FDec neg m e] is the numeral
    [(-1)^neg * m * 10^e]. *)

Definition lower_ascii (c : N) : N :=
  if (65 <=? c) && (c <=? 90) then c + 32 else c.

(** [s] starts with [lit] up to ASCII case; [lit] is in lower case. *)
Fixpoint ci_prefix (lit s : pystr) : option pystr :=
  match lit, s with
  | [], _ => Some s
  | l :: lit', c :: s' =>
      if lower_ascii c =? l then ci_prefix lit' s' else None
  | _ :: _, [] => None
  end.

Definition strip (s : pystr) : pystr :=
  rev (lstrip (rev (lstrip s))).

Definition is_decimal (c : N) : bool :=
  match decimal_value c with Some _ => true | None => false end.

(** Underscores may stand between two digits only; they are removed. *)
Definition is_underscore (prev : option N) : bool :=
  match prev with
  | Some p => p =? 95
  | None => false
  end.

Fixpoint remove_underscores (prev : option N) (s : pystr) : option pystr :=
  match s with
  | [] => if is_underscore prev then None else Some []
  | c :: r =>
      if c =? 95 then
        match prev with
        | Some p =>
            if is_decimal p then remove_underscores (Some c) r else None
        | None => None
        end
      else if is_underscore prev && negb (is_decimal c) then None
      else option_map (cons c) (remove_underscores (Some c) r)
  end.

(** Longest run of digits: accumulated value, number of digits, rest. *)
Fixpoint scan_digs (acc : N) (cnt : nat) (s : pystr) : N * nat * pystr :=
  match s with
  | c :: r =>
      match decimal_value c with
      | Some d => scan_digs (10 * acc + d) (S cnt) r
      | None => (acc, cnt, s)
      end
  | [] => (acc, cnt, [])
  end.

(** The exponent part; when no digit follows the [e] nothing is consumed. *)
Definition scan_exponent (s : pystr) : Z * pystr :=
  match s with
  | c :: r =>
      if (c =? 101) || (c =? 69) then
        let '(eneg, r1) := take_sign r in
        let '(ev, ecnt, r2) := scan_digs 0 0 r1 in
        match ecnt with
        | O => (0%Z, s)
        | S _ => ((if eneg then - Z.of_N ev else Z.of_N ev)%Z, r2)
        end
      else (0%Z, s)
  | [] => (0%Z, [])
  end.

Definition parse_decimal (s : pystr) : option (pyfloat * pystr) :=
  let '(neg, s0) := take_sign s in
  let '(ip, n1, r1) := scan_digs 0 0 s0 in
  let '(m, nfrac, r2) :=
    match r1 with
    | c :: r => if c =? 46 then scan_digs ip 0 r else (ip, O, r1)
    | [] => (ip, O, r1)
    end in
  match (n1 + nfrac)%nat with
  | O => None
  | S _ =>
      let '(e, r3) := scan_exponent r2 in
      Some (FDec neg m (e - Z.of_nat nfrac), r3)
  end.

Definition parse_inf_or_nan (s : pystr) : option (pyfloat * pystr) :=
  let '(neg, s0) := take_sign s in
  match ci_prefix (py "inf") s0 with
  | Some r =>
      match ci_prefix (py "inity") r with
      | Some r' => Some (FInf neg, r')
      | None => Some (FInf neg, r)
      end
  | None =>
      match ci_prefix (py "nan") s0 with
      | Some r => Some (FNaN, r)
      | None => None
      end
  end.

Definition float_of_str (s : pystr) : option pyfloat :=
  match remove_underscores None (strip s) with
  | None => None
  | Some t =>
      let r :=
        match parse_decimal t with
        | Some r => Some r
        | None => parse_inf_or_nan t
        end in
      match r with
      | Some (v, []) => Some v
      | _ => None
      end
  end.

(** ** [str.lower()] and the regular-expression class [\W] *)

Definition lower (s : pystr) : pystr :=
  flat_map (fun c => if c <? 128 then [lower_ascii c] else u_lower U c) s.

Definition isalnum (c : N) : bool :=
  if c <? 128
  then ((48 <=? c) && (c <=? 57)) || ((65 <=? c) && (c <=? 90))
       || ((97 <=? c) && (c <=? 122))
  else u_isalnum U c.

Definition nonword (c : N) : bool := negb (isalnum c || (c =? 95)).


End Unicode.

End Py.

Import Py.

(** Propagation of an exception through a sequence of calls. *)
Notation "'let?' x ':=' a 'in' b" :=
  (match a with Some x => b | None => None end)
  (at level 10, x pattern, a at level 100, b at level 200).

(* ------------------------------------------------------------------ *)
(** * Dictionaries *)

Module Dict.

Section Generic.
Variable V : Type.

Definition t := list (pystr * V).

Fixpoint get (d : t) (k : pystr) : option V :=
  match d with
  | [] => None
  | (k', v) :: r => if pystr_eqb k' k then Some v else get r k
  end.

(** [d[k] = v]: an existing key keeps its place, a new one goes last. *)
Fixpoint set (d : t) (k : pystr) (v : V) : t :=
  match d with
  | [] => [(k, v)]
  | (k', v') :: r =>
      if pystr_eqb k' k then (k', v) :: r else (k', v') :: set r k v
  end.

Definition keys (d : t) : list pystr := map fst d.

Definition mem (k : pystr) (l : list pystr) : bool :=
  existsb (pystr_eqb k) l.

End Generic.

End Dict.

(* ------------------------------------------------------------------ *)
(** * The [json] module, on rows of scalars

    A row of a table becomes a flat object whose values are strings,
    integers, booleans or [None]. Floats are outside the embedding: the
    decoder gives [None] on a text that holds one, as it does on a nested
    array or object. The decoder follows the C scanner, which is the one
    [json.loads] runs. *)

Module Json.

Inductive jvalue :=
| JStr (s : pystr)
| JInt (z : Z)
| JBool (b : bool)
| JNull.

Definition dict := Dict.t jvalue.

(** ** [json.dumps] with [ensure_ascii=True] *)

Definition hexdig_lower (d : N) : N := if d <? 10 then 48 + d else 87 + d.

(** ['\\u{0:04x}'.format(n)] *)
Definition u_escape (n : N) : pystr :=
  [92; 117; hexdig_lower (n / 4096 mod 16); hexdig_lower (n / 256 mod 16);
   hexdig_lower (n / 16 mod 16); hexdig_lower (n mod 16)].

(** Shifts and masks by ten bits are written as division and remainder by
    1024. *)
Definition escape_char (c : N) : pystr :=
  if c =? 34 then [92; 34]
  else if c =? 92 then [92; 92]
  else if c =? 10 then [92; 110]
  else if c =? 13 then [92; 114]
  else if c =? 9 then [92; 116]
  else if c =? 8 then [92; 98]
  else if c =? 12 then [92; 102]
  else if (32 <=? c) && (c <=? 126) then [c]
  else if c <? 65536 then u_escape c
  else
    let n := c - 65536 in
    u_escape (55296 + n / 1024 mod 1024) ++ u_escape (56320 + n mod 1024).

Definition encode_basestring_ascii (s : pystr) : pystr :=
  34 :: flat_map escape_char s ++ [34].

Definition dumps_value (v : jvalue) : pystr :=
  match v with
  | JStr s => encode_basestring_ascii s
  | JInt z => str_of_int z
  | JBool true => py "true"
  | JBool false => py "false"
  | JNull => py "null"
  end.

Fixpoint dumps_items (first : bool) (d : dict) : pystr :=
  match d with
  | [] => []
  | (k, v) :: r =>
      (if first then [] else py ", ")
      ++ encode_basestring_ascii k ++ py ": " ++ dumps_value v
      ++ dumps_items false r
  end.

Definition dumps (d : dict) : pystr :=
  123 :: dumps_items true d ++ [125].

(** ** [json.loads] *)

Definition is_ws (c : N) : bool :=
  (c =? 32) || (c =? 9) || (c =? 10) || (c =? 13).

Fixpoint skip_ws (s : pystr) : pystr :=
  match s with
  | c :: r => if is_ws c then skip_ws r else s
  | [] => []
  end.

Definition hexval (c : N) : option N :=
  if (48 <=? c) && (c <=? 57) then Some (c - 48)
  else if (97 <=? c) && (c <=? 102) then Some (c - 87)
  else if (65 <=? c) && (c <=? 70) then Some (c - 55)
  else None.

Definition hex4 (a b c d : N) : option N :=
  let? x := hexval a in
  let? y := hexval b in
  let? z := hexval c in
  let? w := hexval d in
  Some (((x * 16 + y) * 16 + z) * 16 + w).

Definition is_high_surrogate (c : N) : bool := (55296 <=? c) && (c <=? 56319).
Definition is_low_surrogate (c : N) : bool := (56320 <=? c) && (c <=? 57343).

Definition join_surrogates (hi lo : N) : N :=
  (hi mod 1024) * 1024 + lo mod 1024 + 65536.

Definition unescape (e : N) : option N :=
  if e =? 34 then Some 34
  else if e =? 92 then Some 92
  else if e =? 47 then Some 47
  else if e =? 98 then Some 8
  else if e =? 102 then Some 12
  else if e =? 110 then Some 10
  else if e =? 114 then Some 13
  else if e =? 116 then Some 9
  else None.

Definition consS (c : N) (r : option (pystr * pystr)) : option (pystr * pystr) :=
  let? (s, rest) := r in Some (c :: s, rest).

(** The text after an opening quote: the string read and what follows its
    closing quote ([strict] mode: a raw control character is an error). *)
Fixpoint scanstring (s : pystr) : option (pystr * pystr) :=
  match s with
  | [] => None
  | c :: r =>
      if c =? 34 then Some ([], r)
      else if c =? 92 then
        match r with
        | [] => None
        | e :: r1 =>
            if e =? 117 then
              match r1 with
              | h1 :: h2 :: h3 :: h4 :: r2 =>
                  match hex4 h1 h2 h3 h4 with
                  | None => None
                  | Some u =>
                      if is_high_surrogate u then
                        match r2 with
                        | b1 :: b2 :: k1 :: k2 :: k3 :: k4 :: r3 =>
                            if (b1 =? 92) && (b2 =? 117) then
                              match hex4 k1 k2 k3 k4 with
                              | None => None
                              | Some u2 =>
                                  if is_low_surrogate u2
                                  then consS (join_surrogates u u2)
                                             (scanstring r3)
                                  else consS u (scanstring r2)
                              end
                            else consS u (scanstring r2)
                        | _ => consS u (scanstring r2)
                        end
                      else consS u (scanstring r2)
                  end
              | _ => None
              end
            else
              match unescape e with
              | Some ch => consS ch (scanstring r1)
              | None => None
              end
        end
      else if c <? 32 then None
      else consS c (scanstring r)
  end.

Definition is_digit (c : N) : bool := (48 <=? c) && (c <=? 57).

(** A fraction or an exponent follows: the number is a float. *)
Definition float_follows (s : pystr) : bool :=
  match s with
  | c :: r =>
      if c =? 46 then
        match r with d :: _ => is_digit d | [] => false end
      else if (c =? 101) || (c =? 69) then
        match r with
        | d :: r' =>
            if (d =? 43) || (d =? 45)
            then match r' with d' :: _ => is_digit d' | [] => false end
            else is_digit d
        | [] => false
        end
      else false
  | [] => false
  end.

Definition match_number (s : pystr) : option (jvalue * pystr) :=
  let '(neg, s0) :=
    match s with
    | c :: r => if c =? 45 then (true, r) else (false, s)
    | [] => (false, [])
    end in
  match s0 with
  | c :: r =>
      let? (n, rest) :=
        (if c =? 48 then Some (0, r)
         else if is_digit c
              then let '(n, _, rest) := scan_digs ascii_only 0 0 s0 in
                   Some (n, rest)
              else None) in
      if float_follows rest then None
      else Some (JInt (if neg then - Z.of_N n else Z.of_N n)%Z, rest)
  | [] => None
  end.

Fixpoint strip_prefix (lit s : pystr) : option pystr :=
  match lit, s with
  | [], _ => Some s
  | l :: lit', c :: s' => if c =? l then strip_prefix lit' s' else None
  | _ :: _, [] => None
  end.

(** One JSON term of the fragment, and the text after it. *)
Definition scan_once (s : pystr) : option (jvalue * pystr) :=
  match s with
  | [] => None
  | c :: r =>
      if c =? 34 then
        let? (t, rest) := scanstring r in Some (JStr t, rest)
      else if c =? 110 then
        let? rest := strip_prefix (py "ull") r in Some (JNull, rest)
      else if c =? 116 then
        let? rest := strip_prefix (py "rue") r in Some (JBool true, rest)
      else if c =? 102 then
        let? rest := strip_prefix (py "alse") r in Some (JBool false, rest)
      else match_number s
  end.

(** The members of an object from its first key on; every turn of the loop
    reads at least one character, so the length of the text bounds it. *)
Fixpoint parse_members (fuel : nat) (d : dict) (s : pystr)
  : option (dict * pystr) :=
  match fuel with
  | O => None
  | S f =>
      match s with
      | c :: r =>
          if c =? 34 then
            let? (k, r1) := scanstring r in
            match skip_ws r1 with
            | c1 :: r2 =>
                if c1 =? 58 then
                  let? (v, r3) := scan_once (skip_ws r2) in
                  let d' := Dict.set d k v in
                  match skip_ws r3 with
                  | c2 :: r4 =>
                      if c2 =? 125 then Some (d', r4)
                      else if c2 =? 44 then parse_members f d' (skip_ws r4)
                      else None
                  | [] => None
                  end
                else None
            | [] => None
            end
          else None
      | [] => None
      end
  end.

Definition parse_object (s : pystr) : option (dict * pystr) :=
  match skip_ws s with
  | [] => None
  | c :: r =>
      if c =? 125 then Some ([], r)
      else parse_members (List.length (c :: r)) [] (c :: r)
  end.

Definition loads (s : pystr) : option dict :=
  match skip_ws s with
  | c :: r =>
      if c =? 123 then
        let? (d, rest) := parse_object r in
        match skip_ws rest with
        | [] => Some d
        | _ :: _ => None
        end
      else None
  | [] => None
  end.

(** ** Well-formed rows *)

(** A Unicode scalar value: a code point that is not a surrogate. Text read
    from a UTF-8 file holds nothing else. *)
Definition scalar (c : N) : Prop :=
  c < 55296 \/ (57344 <= c /\ c < 1114112).

Definition wf_value (v : jvalue) : Prop :=
  match v with
  | JStr s => Forall scalar s
  | _ => True
  end.

(** A dictionary proper: no key twice, and text made of scalar values. *)
Definition wf_dict (d : dict) : Prop :=
  NoDup (Dict.keys d)
  /\ Forall (fun kv => Forall scalar (fst kv) /\ wf_value (snd kv)) d.

(** A row with text outside ASCII and outside the basic plane, quotes,
    control characters and numbers. *)
Definition sample_row : dict :=
  [(py "tier", JStr (py "1"));
   ([110; 97; 239; 118; 101], JStr [34; 92; 10; 8364; 128512; 127]);
   (py "count", JInt (-42));
   (py "zero", JInt 0);
   (py "flag", JBool true);
   (py "none", JNull)].

(** ** Shapes of text used in the statements *)

(** No decimal digit comes next. *)
Definition no_digit_ahead (rest : pystr) : Prop :=
  match rest with
  | [] => True
  | c :: _ => c < 48 \/ (57 < c /\ c < 128)
  end.

(** What may follow a value inside an object: a comma or the closing
    brace. *)
Definition delimited (rest : pystr) : Prop :=
  match rest with
  | c :: _ => c = 44 \/ c = 125
  | [] => False
  end.

(** The text of the members from a key on, up to the closing brace. *)
Definition members_text (k : pystr) (v : jvalue) (r : dict) : pystr :=
  encode_basestring_ascii k ++ py ": " ++ dumps_value v
  ++ dumps_items false r ++ [125].

End Json.

(* ------------------------------------------------------------------ *)
(** * [str.encode('utf-8')], [bytes.decode('utf-8')], [base64.b16encode]
      and [base64.b16decode] *)

Module Codec.

Definition is_surrogate (c : N) : bool := (55296 <=? c) && (c <=? 57343).

Definition utf8_encode_char (c : N) : option bytes :=
  if c <? 128 then Some [c]
  else if c <? 2048 then Some [192 + c / 64; 128 + c mod 64]
  else if c <? 65536 then
    if is_surrogate c then None
    else Some [224 + c / 4096; 128 + c / 64 mod 64; 128 + c mod 64]
  else if c <? 1114112 then
    Some [240 + c / 262144; 128 + c / 4096 mod 64; 128 + c / 64 mod 64;
          128 + c mod 64]
  else None.

Fixpoint utf8_encode (s : pystr) : option bytes :=
  match s with
  | [] => Some []
  | c :: r =>
      let? b := utf8_encode_char c in
      let? rest := utf8_encode r in
      Some (b ++ rest)
  end.

Definition is_cont (b : N) : bool := (128 <=? b) && (b <=? 191).

Fixpoint utf8_decode (b : bytes) : option pystr :=
  match b with
  | [] => Some []
  | b0 :: r =>
      if b0 <? 128 then
        let? s := utf8_decode r in Some (b0 :: s)
      else if (194 <=? b0) && (b0 <=? 223) then
        match r with
        | b1 :: r1 =>
            if is_cont b1 then
              let? s := utf8_decode r1 in
              Some (((b0 - 192) * 64 + (b1 - 128)) :: s)
            else None
        | _ => None
        end
      else if (224 <=? b0) && (b0 <=? 239) then
        match r with
        | b1 :: b2 :: r2 =>
            let c := (b0 - 224) * 4096 + (b1 - 128) * 64 + (b2 - 128) in
            if is_cont b1 && is_cont b2 && (2048 <=? c)
               && negb (is_surrogate c) then
              let? s := utf8_decode r2 in Some (c :: s)
            else None
        | _ => None
        end
      else if (240 <=? b0) && (b0 <=? 244) then
        match r with
        | b1 :: b2 :: b3 :: r3 =>
            let c := (b0 - 240) * 262144 + (b1 - 128) * 4096
                     + (b2 - 128) * 64 + (b3 - 128) in
            if is_cont b1 && is_cont b2 && is_cont b3
               && (65536 <=? c) && (c <? 1114112) then
              let? s := utf8_decode r3 in Some (c :: s)
            else None
        | _ => None
        end
      else None
  end.

Definition hexdig_upper (d : N) : N := if d <? 10 then 48 + d else 55 + d.

Definition b16encode (b : bytes) : bytes :=
  flat_map (fun x => [hexdig_upper (x / 16); hexdig_upper (x mod 16)]) b.

Definition b16val (c : N) : option N :=
  if (48 <=? c) && (c <=? 57) then Some (c - 48)
  else if (65 <=? c) && (c <=? 70) then Some (c - 55)
  else None.

(** [casefold=False]: upper-case digits only; an odd length is an error. *)
Fixpoint b16decode (b : bytes) : option bytes :=
  match b with
  | [] => Some []
  | [_] => None
  | h :: l :: r =>
      let? x := b16val h in
      let? y := b16val l in
      let? rest := b16decode r in
      Some ((x * 16 + y) :: rest)
  end.

(** ** Classes of text *)

Definition is_ascii (s : pystr) : Prop := Forall (fun c => c < 128) s.

Definition is_hex (s : pystr) : Prop :=
  Forall (fun c => 48 <= c <= 57 \/ 65 <= c <= 70) s.

End Codec.


(* ------------------------------------------------------------------ *)
(** * Sorting *)

Module Sort.

Section Insertion.
Variable A : Type.
Variable le : A -> A -> bool.

Fixpoint insert (x : A) (l : list A) : list A :=
  match l with
  | [] => [x]
  | y :: r => if le x y then x :: l else y :: insert x r
  end.

(** A stable sort: equal keys keep the order of the input. *)
Definition sort (l : list A) : list A := fold_right insert [] l.

End Insertion.

End Sort.

(* ------------------------------------------------------------------ *)
(** * [Tsv2Gff3]: the interval encoder *)

Module Gff3.
Import Json Codec.

(** The tables are those that [read_csv] returns.  The reference index has
    names that it reads as text.  The table of the database has a start
    column that it reads as integers or, when one of the integers does not
    fit, as text; the three anchor columns bear names of their own, none of
    them "Rank". *)

(** A cell of the contig column: a [str], or a value that is not a [str]
    (a number, when every contig of the table is written in digits; NaN for
    a blank cell). *)
Inductive contig_cell :=
| Name (s : pystr)
| NotText.

(** A row of the database table: the anchor columns and, in the order of
    [AttributeCols], the values of the other columns. *)
Record tsv_row := {
  chrom : contig_cell;
  start : Z;
  end_ : Z;
  attr_values : list jvalue
}.

(** What [read_csv] made of the start column: integers, or the text of the
    numerals ([start] is then the integer that the text of the cell
    denotes). *)
Inductive dtype :=
| Int64
| Text.

Record tsv_table := {
  AttributeCols : list pystr;
  StartCol_dtype : dtype;
  tsv_rows : list tsv_row
}.

(** The values of an [int64] column. *)
Definition int64 (z : Z) : Prop := (- 2 ^ 63 <= z < 2 ^ 63)%Z.

(** The start column was read as integers. *)
Definition int64_starts (T : tsv_table) : Prop :=
  StartCol_dtype T = Int64 /\ Forall (fun r => int64 (start r)) (tsv_rows T).

(** The reference index: contig names and lengths, in declaration order. *)
Definition faidx := list (pystr * N).

Fixpoint enumerate_from (A : Type) (i : nat) (l : list A) : list (nat * A) :=
  match l with
  | [] => []
  | x :: r => (i, x) :: enumerate_from (S i) r
  end.

(** [Chroms = {value: index for index, value in enumerate(Faidx[0])}] *)
Definition Chroms (f : faidx) : Dict.t nat :=
  fold_left (fun d iv => Dict.set d (snd iv) (fst iv))
            (enumerate_from 0 (map fst f)) [].

(** [Chroms[x]] for a cell; a value that is not a [str] is no key of
    [Chroms]. *)
Definition cell_rank (f : faidx) (c : contig_cell) : option nat :=
  match c with
  | Name s => Dict.get (Chroms f) s
  | NotText => None
  end.

(** [x.to_dict()] of the attribute columns of a row. *)
Definition to_dict (cols : list pystr) (vals : list jvalue) : dict :=
  fold_left (fun d kv => Dict.set d (fst kv) (snd kv)) (combine cols vals) [].

(** The same once [Data["Rank"] = Data[ChromCol].map(Chroms)] has run
    (line 251): a column of the database that is itself named "Rank" holds
    the rank of the row's contig by the time the attributes are encoded. *)
Definition row_dict (cols : list pystr) (Rank : nat) (r : tsv_row) : dict :=
  let d := to_dict cols (attr_values r) in
  if Dict.mem (py "Rank") cols
  then Dict.set d (py "Rank") (JInt (Z.of_nat Rank))
  else d.

(** ["ID=" + b16encode(json.dumps(d).encode('utf-8')).decode('utf-8')] *)
Definition encode_attributes (d : dict) : option pystr :=
  let? b := utf8_encode (dumps d) in
  let? h := utf8_decode (b16encode b) in
  Some (py "ID=" ++ h).

Record gff_record := {
  Contig : pystr;
  sample : pystr;
  type_ : pystr;
  Start : Z;
  End_ : Z;
  score : pystr;
  strand : pystr;
  phase : pystr;
  attributes : pystr
}.

Record gff_output := {
  sequence_regions : list (pystr * N);
  records : list gff_record;
  expected_cols : list pystr
}.

Fixpoint mapM (A B : Type) (f : A -> option B) (l : list A) : option (list B) :=
  match l with
  | [] => Some []
  | x :: r =>
      let? y := f x in
      let? ys := mapM f r in
      Some (y :: ys)
  end.

(** [Filtered] (line 248): the contigs of the table that the reference
    does not declare, up to their order and repetitions. *)
Definition Filtered (f : faidx) (rows : list tsv_row) : list contig_cell :=
  filter (fun c => match cell_rank f c with
                   | Some _ => false
                   | None => true
                   end)
         (map chrom rows).

(** The names that the warning of line 249 joins; [None] is the
    [TypeError] of [', '.join(sorted(Filtered))] when one of the contigs is
    not a [str]. *)
Definition warning (l : list contig_cell) : option (list pystr) :=
  mapM (fun c => match c with
                 | Name s => Some s
                 | NotText => None
                 end) l.

(** Rows whose contig the reference declares, with the contig's rank. *)
Definition ranked (f : faidx) (rows : list tsv_row) : list (nat * tsv_row) :=
  flat_map (fun r =>
              match cell_rank f (chrom r) with
              | Some k => [(k, r)]
              | None => []
              end) rows.

(** [a <= b] of two [str]. *)
Fixpoint text_leb (a b : pystr) : bool :=
  match a, b with
  | [], _ => true
  | _ :: _, [] => false
  | x :: a', y :: b' => (x <? y) || ((x =? y) && text_leb a' b')
  end.

(** The order of two cells of the start column: that of the integers, or
    that of the texts. *)
Definition start_leb (d : dtype) (a b : Z) : bool :=
  match d with
  | Int64 => (a <=? b)%Z
  | Text => text_leb (str_of_int a) (str_of_int b)
  end.

(** The order of [sort_values(["Rank", StartCol])]. *)
Definition key_leb (d : dtype) (a b : nat * tsv_row) : bool :=
  (fst a <? fst b)%nat
  || ((fst a =? fst b)%nat && start_leb d (start (snd a)) (start (snd b))).

(** [lambda x: 1 if x == 0 else x]; a [str] is not equal to 0. *)
Definition clamp_start (d : dtype) (x : Z) : Z :=
  match d with
  | Int64 => if (x =? 0)%Z then 1%Z else x
  | Text => x
  end.

(** The contig as it is written; only names are kept and written. *)
Definition contig_text (c : contig_cell) : pystr :=
  match c with
  | Name s => s
  | NotText => []
  end.

Definition emit (dbName : pystr) (cols : list pystr) (d : dtype)
           (p : nat * tsv_row) : option gff_record :=
  let? a := encode_attributes (row_dict cols (fst p) (snd p)) in
  Some {| Contig := contig_text (chrom (snd p)); sample := dbName;
          type_ := py "region";
          Start := clamp_start d (start (snd p)); End_ := end_ (snd p);
          score := py "."; strand := py "."; phase := py ".";
          attributes := a |}.

Definition Tsv2Gff3 (dbName : pystr) (T : tsv_table) (f : faidx)
  : option gff_output :=
  let? _ := warning (Filtered f (tsv_rows T)) in
  let Data :=
    Sort.sort (key_leb (StartCol_dtype T)) (ranked f (tsv_rows T)) in
  match Data with
  | [] => None
  | _ :: _ =>
      let? recs :=
        mapM (emit dbName (AttributeCols T) (StartCol_dtype T)) Data in
      Some {| sequence_regions := f;
              records := recs;
              expected_cols :=
                match AttributeCols T with
                | [] => [dbName]
                | cols => map (fun c => dbName ++ py "." ++ c) cols
                end |}
  end.

(** ** Order of the written records and concrete inputs *)

(** Rank of a contig: its position in the reference index. *)
Definition contig_rank (f : faidx) (name : pystr) : option nat :=
  Dict.get (Chroms f) name.


(** The rows that [Tsv2Gff3] keeps, in the order in which it writes them. *)
Definition kept_rows (T : tsv_table) (f : faidx) : list tsv_row :=
  map snd (Sort.sort (key_leb (StartCol_dtype T)) (ranked f (tsv_rows T))).

(** A reference whose declaration order is not the lexical one. *)
Definition sample_faidx : faidx :=
  [(py "chr2", 243199373); (py "chr10", 135534747); (py "chr1", 249250621)].

Definition sample_table : tsv_table :=
  {| AttributeCols := [py "tier"];
     StartCol_dtype := Int64;
     tsv_rows :=
       [ {| chrom := Name (py "chr1"); start := 500; end_ := 600;
            attr_values := [JStr (py "1")] |};
         {| chrom := Name (py "chr10"); start := 0; end_ := 50;
            attr_values := [JStr (py "2")] |};
         {| chrom := Name (py "chrUn"); start := 7; end_ := 9;
            attr_values := [JStr (py "3")] |};
         {| chrom := Name (py "chr2"); start := 40; end_ := 90;
            attr_values := [JInt 4] |};
         {| chrom := Name (py "chr2"); start := 10; end_ := 20;
            attr_values := [JInt 5] |} ]%Z |}.

(** A table with a negative start coordinate. *)
Definition negative_start_table : tsv_table :=
  {| AttributeCols := [];
     StartCol_dtype := Int64;
     tsv_rows := [ {| chrom := Name (py "chr1"); start := (-5)%Z;
                      end_ := 10%Z; attr_values := [] |} ] |}.


(** A table one of whose contigs is not text. *)
Definition blank_contig_table : tsv_table :=
  {| AttributeCols := [];
     StartCol_dtype := Int64;
     tsv_rows :=
       [ {| chrom := Name (py "chr1"); start := 5%Z; end_ := 6%Z;
            attr_values := [] |};
         {| chrom := NotText; start := 7%Z; end_ := 9%Z;
            attr_values := [] |} ] |}.

(** A table with a column named "Rank". *)
Definition rank_column_table : tsv_table :=
  {| AttributeCols := [py "Rank"; py "tier"];
     StartCol_dtype := Int64;
     tsv_rows :=
       [ {| chrom := Name (py "chr1"); start := 5%Z; end_ := 6%Z;
            attr_values := [JInt 77; JStr (py "1")] |};
         {| chrom := Name (py "chr2"); start := 7%Z; end_ := 9%Z;
            attr_values := [JInt 78; JStr (py "2")] |} ] |}.

(** The reference declares the contig of the row. *)
Definition declared (f : faidx) (r : tsv_row) : bool :=
  match cell_rank f (chrom r) with
  | Some _ => true
  | None => false
  end.

(** The contig of the row is a [str]. *)
Definition named (r : tsv_row) : bool :=
  match chrom r with
  | Name _ => true
  | NotText => false
  end.

(** The record written for a row of a declared contig: its payload holds
    the rank of the contig in place of a column named "Rank". *)
Definition record_of (dbName : pystr) (T : tsv_table) (f : faidx)
           (r : tsv_row) : gff_record :=
  let Rank := match cell_rank f (chrom r) with
              | Some k => k
              | None => O
              end in
  {| Contig := contig_text (chrom r); sample := dbName; type_ := py "region";
     Start := clamp_start (StartCol_dtype T) (start r); End_ := end_ r;
     score := py "."; strand := py "."; phase := py ".";
     attributes :=
       py "ID=" ++ b16encode (dumps (row_dict (AttributeCols T) Rank r)) |}.

End Gff3.

(* ------------------------------------------------------------------ *)
(** * [CureBase]: decoding and merging the databases' columns *)

Module CureBase.
Import Json Codec.

Definition mapM := Gff3.mapM.

Inductive cell :=
| CStr (s : pystr)               (** a [str] *)
| CNaN                           (** [float('nan')], a missing value *)
| CDecoded (LD : list dict)      (** the payloads of the overlapping intervals *)
| CList (l : list jvalue).       (** the values of one sub-field *)

(** A frame is a list of named columns of equal length; names may repeat. *)
Definition frame := list (pystr * list cell).

Definition SNPdata : list pystr :=
  [py "Chr"; py "Start"; py "End"; py "Ref"; py "Alt"].

Definition is_dot (c : cell) : bool :=
  match c with
  | CStr s => pystr_eqb s (py ".")
  | _ => false
  end.

(** [json.loads(base64.b16decode(item.encode('utf-8')).decode('utf-8'))] *)
Definition decode_item (item : pystr) : option dict :=
  let? b := utf8_encode item in
  let? raw := b16decode b in
  let? text := utf8_decode raw in
  loads text.

(** The function mapped over the raw overlap columns. *)
Definition decode_cell (x : cell) : option cell :=
  match x with
  | CStr s =>
      if pystr_eqb s (py ".") then Some (CStr (py "."))
      else
        match split 61 s with
        | _ :: payload :: _ =>
            let? LD := mapM decode_item (split 44 payload) in
            Some (CDecoded LD)
        | _ => None
        end
  | _ => None
  end.

(** The [pandas.Series] built from the payloads of one variant. *)
Definition series (name : pystr) (LD : list dict) : option (Dict.t cell) :=
  match LD with
  | [] => None
  | [] :: _ => Some [(name, CList [JStr (py "yes")])]
  | d0 :: _ =>
      fold_left
        (fun acc k =>
           let? out := acc in
           let? vals := mapM (fun dic => Dict.get dic k) LD in
           Some (Dict.set out (name ++ py "." ++ k) (CList vals)))
        (Dict.keys d0) (Some [])
  end.

(** ** Flattening a cell: [sorted(list(set(x)))], [str], ['; '.join] *)

Definition int_of_jvalue (v : jvalue) : option Z :=
  match v with
  | JInt z => Some z
  | JBool true => Some 1%Z
  | JBool false => Some 0%Z
  | _ => None
  end.

Definition py_eq (a b : jvalue) : bool :=
  match a, b with
  | JStr x, JStr y => pystr_eqb x y
  | JNull, JNull => true
  | _, _ =>
      match int_of_jvalue a, int_of_jvalue b with
      | Some x, Some y => (x =? y)%Z
      | _, _ => false
      end
  end.

Fixpoint str_ltb (a b : pystr) : bool :=
  match a, b with
  | _, [] => false
  | [], _ :: _ => true
  | x :: a', y :: b' => (x <? y) || ((x =? y) && str_ltb a' b')
  end.

(** [a < b]; [None] is the [TypeError] of two values that have no order. *)
Definition py_lt (a b : jvalue) : option bool :=
  match a, b with
  | JStr x, JStr y => Some (str_ltb x y)
  | _, _ =>
      match int_of_jvalue a, int_of_jvalue b with
      | Some x, Some y => Some (x <? y)%Z
      | _, _ => None
      end
  end.

(** [list(set(l))] up to order: the first of several equal values stays. *)
Fixpoint dedup (seen l : list jvalue) : list jvalue :=
  match l with
  | [] => []
  | x :: r =>
      if existsb (py_eq x) seen then dedup seen r
      else x :: dedup (x :: seen) r
  end.

Fixpoint insert_sorted (x : jvalue) (l : list jvalue) : option (list jvalue) :=
  match l with
  | [] => Some [x]
  | y :: r =>
      let? b := py_lt x y in
      if b then Some (x :: l)
      else let? r' := insert_sorted x r in Some (y :: r')
  end.

Fixpoint sorted (l : list jvalue) : option (list jvalue) :=
  match l with
  | [] => Some []
  | x :: r => let? r' := sorted r in insert_sorted x r'
  end.

Definition str_of_jvalue (v : jvalue) : pystr :=
  match v with
  | JStr s => s
  | JInt z => str_of_int z
  | JBool true => py "True"
  | JBool false => py "False"
  | JNull => py "None"
  end.

Definition join_values (l : list jvalue) : option pystr :=
  let? l' := sorted (dedup [] l) in
  Some (join (py "; ") (map str_of_jvalue l')).

(** [lambda x: '.' if x != x else '; '.join(...)] *)
Definition flatten (x : cell) : option cell :=
  match x with
  | CNaN => Some (CStr (py "."))
  | CList l => option_map CStr (join_values l)
  | CStr s => option_map CStr (join_values (map (fun c => JStr [c]) s))
  | CDecoded [] => Some (CStr [])
  | CDecoded (_ :: _) => None
  end.

(** ** Frames *)

Definition columns (D : frame) : list pystr := map fst D.

(** [D[names]]: every column that bears a requested name, in the order of
    the request; a name that no column bears is a [KeyError]. *)
Fixpoint select (D : frame) (names : list pystr) : option frame :=
  match names with
  | [] => Some []
  | n :: r =>
      match filter (fun c => pystr_eqb (fst c) n) D with
      | [] => None
      | cs => let? rest := select D r in Some (cs ++ rest)
      end
  end.

Definition drop (D : frame) (names : list pystr) : frame :=
  filter (fun c => negb (Dict.mem (fst c) names)) D.

Definition nrows (D : frame) : nat :=
  match D with
  | [] => O
  | (_, col) :: _ => List.length col
  end.

Fixpoint mapM_frame (f : pystr -> cell -> option cell) (D : frame)
  : option frame :=
  match D with
  | [] => Some []
  | (n, col) :: r =>
      let? col' := mapM (f n) col in
      let? r' := mapM_frame f r in
      Some ((n, col') :: r')
  end.

(** [f"gff3{'' if index == 0 else str(index + 1)}"] *)
Definition gff3_column (index : nat) : pystr :=
  py "gff3" ++ match index with
               | O => []
               | S _ => str_of_N (N.of_nat (index + 1))
               end.

Definition NewColumns (Databases : list pystr) : Dict.t pystr :=
  fold_left (fun d iv => Dict.set d (gff3_column (fst iv)) (snd iv))
            (Gff3.enumerate_from 0 Databases) [].

(** The series of the variants that overlap the database; [None] marks a
    variant left out of [NewCols]. *)
Definition series_of_cell (name : pystr) (c : cell)
  : option (option (Dict.t cell)) :=
  if is_dot c then Some None
  else
    match c with
    | CDecoded LD => let? ser := series name LD in Some (Some ser)
    | _ => None
    end.

Fixpoint union_keys (seen : list pystr) (l : list (option (Dict.t cell)))
  : list pystr :=
  match l with
  | [] => []
  | None :: r => union_keys seen r
  | Some ser :: r =>
      let fresh :=
        fold_left (fun acc k =>
                     if Dict.mem k (seen ++ acc) then acc else acc ++ [k])
                  (Dict.keys ser) [] in
      fresh ++ union_keys (seen ++ fresh) r
  end.

Definition new_column (sers : list (option (Dict.t cell))) (k : pystr)
  : pystr * list cell :=
  (k, map (fun o =>
             match o with
             | None => CNaN
             | Some ser =>
                 match Dict.get ser k with
                 | Some v => v
                 | None => CNaN
                 end
             end) sers).

(** One turn of the loop over the overlap columns. *)
Definition expand (D : frame) (Col name : pystr) : option frame :=
  match filter (fun c => pystr_eqb (fst c) Col) D with
  | (_, col) :: _ =>
      let? sers := mapM (series_of_cell name) col in
      if existsb (fun o => match o with Some _ => true | None => false end) sers
      then Some (D ++ map (new_column sers) (union_keys [] sers))
      else Some D
  | [] => None
  end.

Fixpoint expand_all (D : frame) (cols : Dict.t pystr) : option frame :=
  match cols with
  | [] => Some D
  | (Col, name) :: r =>
      let? D' := expand D Col name in
      expand_all D' r
  end.

(** [MissingCols] and [Data[MissingCols] = float("nan")]: one column of
    missing values for each name. *)
Definition add_missing (D : frame) (ExpectedCols : list pystr) : frame :=
  let MissingCols :=
    filter (fun c => negb (Dict.mem c (columns D))) ExpectedCols in
  fold_left
    (fun D' c =>
       if Dict.mem c (columns D') then D'
       else D' ++ [(c, repeat CNaN (nrows D))])
    MissingCols D.

(** The table of decoded and aggregated database columns that [CureBase]
    joins to the annotation table. *)
Definition merge_databases (Data : frame) (Databases ExpectedCols : list pystr)
  : option frame :=
  let NC := NewColumns Databases in
  let? D1 := select Data (SNPdata ++ Dict.keys NC) in
  let? D2 := mapM_frame
               (fun n c => if Dict.mem n (Dict.keys NC) then decode_cell c
                           else Some c) D1 in
  let? D3 := expand_all D2 NC in
  let D4 := drop D3 (Dict.keys NC) in
  let D5 := add_missing D4 ExpectedCols in
  let? D6 := mapM_frame
               (fun n c => if Dict.mem n SNPdata then Some c else flatten c)
               D5 in
  select D6 (SNPdata ++ ExpectedCols).

(** The merged field of one sub-field of one variant. *)
Definition merged_field (name : pystr) (LD : list dict) (column : pystr)
  : option cell :=
  let? ser := series name LD in
  let? v := Dict.get ser column in
  flatten v.

(** ** Vocabulary of the statements, concrete inputs *)

Definition is_text (v : jvalue) : bool :=
  match v with JStr _ => true | _ => false end.

Definition is_number (v : jvalue) : bool :=
  match int_of_jvalue v with Some _ => true | None => false end.

(** Values of one kind, as the cells of one column of a table are: all
    text, or all integers and booleans. *)
Definition homogeneous (l : list jvalue) : Prop :=
  Forall (fun v => is_text v = true) l
  \/ Forall (fun v => is_number v = true) l.

(** The order in which [sorted] leaves values. *)
Definition value_lt (a b : jvalue) : Prop := py_lt a b = Some true.

(** Three overlapping intervals whose sub-field X is 1, 2 and 2. *)
Definition three_intervals : list dict :=
  [[(py "X", JInt 1)]; [(py "X", JInt 2)]; [(py "X", JInt 2)]].

(** The values of a sub-field across the intervals (an interval without
    the sub-field counts as [None]; [series] raises before it is read). *)
Definition values_of (LD : list dict) (k : pystr) : list jvalue :=
  map (fun dic => match Dict.get dic k with
                  | Some v => v
                  | None => JNull
                  end) LD.

(** No two values are equal in Python's sense. *)
Definition distinct (l : list jvalue) : Prop :=
  ForallOrdPairs (fun a b => py_eq a b = false) l.

Definition is_int (v : jvalue) : bool :=
  match v with JInt _ => true | _ => false end.

(** All text, or all integers: no boolean, which Python takes for 0 or 1. *)
Definition plain_kind (l : list jvalue) : Prop :=
  Forall (fun v => is_text v = true) l \/ Forall (fun v => is_int v = true) l.

(** The text that the annotator writes for a variant that overlaps the
    intervals of the maps [ds]: a tag, ['='], the payloads joined by commas. *)
Definition overlap_text (tag : pystr) (ds : list dict) : pystr :=
  tag ++ 61 :: join [44] (map (fun d => b16encode (dumps d)) ds).

(** ** Vocabulary of the statements about whole tables *)

(** Every column has [rows] cells. *)
Definition rectangular (D : frame) (rows : nat) : Prop :=
  Forall (fun c => List.length (snd c) = rows) D.

(** Row [i] holds the sentinel in every column that bears one of [names]. *)
Definition no_overlap_at (D : frame) (names : list pystr) (i : nat) : Prop :=
  forall n col, In (n, col) D -> In n names ->
                nth_error col i = Some (CStr (py ".")).

(** Row [i] holds the sentinel in every column but those of the variant. *)
Definition sentinel_at (D : frame) (i : nat) : Prop :=
  forall n col, In (n, col) D -> ~ In n SNPdata ->
                nth_error col i = Some (CStr (py ".")).

(** A cell that the flattening turns into the sentinel. *)
Definition quiet (c : cell) : Prop := c = CStr (py ".") \/ c = CNaN.

(** Two variants, the second of which overlaps one interval of the only
    database; and the table that [CureBase] makes of them. *)
Definition two_variants : frame :=
  [(py "Chr", [CStr (py "chr1"); CStr (py "chr1")]);
   (py "Start", [CStr (py "10"); CStr (py "20")]);
   (py "End", [CStr (py "10"); CStr (py "20")]);
   (py "Ref", [CStr (py "A"); CStr (py "C")]);
   (py "Alt", [CStr (py "G"); CStr (py "T")]);
   (py "gff3", [CStr (py ".");
                CStr (overlap_text (py "ID") [[(py "X", JInt 1)]])])].

Definition two_variants_merged : frame :=
  [(py "Chr", [CStr (py "chr1"); CStr (py "chr1")]);
   (py "Start", [CStr (py "10"); CStr (py "20")]);
   (py "End", [CStr (py "10"); CStr (py "20")]);
   (py "Ref", [CStr (py "A"); CStr (py "C")]);
   (py "Alt", [CStr (py "G"); CStr (py "T")]);
   (py "db.X", [CStr (py "."); CStr (py "1")])].


End CureBase.

(* ------------------------------------------------------------------ *)
(** * [AnnoFit]: normalisation and the two filter stages *)

Module AnnoFit.

Definition mapM := Gff3.mapM.

(** ** Regular expressions of the filters *)

(** [re.findall] counted: [m] tells the length of a match that starts at
    the head of the text, and the search goes on after a match. *)
Fixpoint findall_count (m : pystr -> option nat) (skip : nat) (s : pystr)
  : nat :=
  match s with
  | [] => O
  | _ :: r =>
      match skip with
      | S k => findall_count m k r
      | O =>
          match m s with
          | Some len => S (findall_count m (len - 1) r)
          | None => findall_count m O r
          end
      end
  end.

Section Unicode.
Variable U : unicode_db.

(** [[\W]word[\W]] at the head of the text. *)
Definition match_W_word_W (word s : pystr) : option nat :=
  match s with
  | c :: r =>
      if nonword U c then
        match Json.strip_prefix word r with
        | Some (d :: _) =>
            if nonword U d then Some (List.length word + 2)%nat else None
        | _ => None
        end
      else None
  | [] => None
  end.

(** [([\W]dominant[\W])|([\W]recessive[\W])] *)
Definition match_dominant_or_recessive (s : pystr) : option nat :=
  match match_W_word_W (py "dominant") s with
  | Some n => Some n
  | None => match_W_word_W (py "recessive") s
  end.

(** ** Parsing that degrades to [None] *)

Definition FormatInt (String : pystr) : option Z := int_of_str U String.

Definition FormatFloat (String : pystr) : option pyfloat :=
  float_of_str U String.

Definition FormatPopulationFreq (String : pystr) : pyfloat :=
  match FormatFloat String with
  | None => FDec true 1 0
  | Some Result => Result
  end.

(** ** Per-sample metadata of the VCF *)

Inductive meta_value :=
| MName (index : Z)
| MStr (s : pystr).

Definition FormatVcfMetadata (FORMAT SAMPLE : pystr) (name : Z)
  : Dict.t meta_value :=
  let Header := map (fun item => py "VCF." ++ item) (split 58 FORMAT) in
  let Data := split 58 SAMPLE in
  let Result := [(py "Name", MName name)] in
  if negb (List.length Header =? List.length Data)%nat then Result
  else
    fold_left (fun R hd => Dict.set R (fst hd) (MStr (snd hd)))
              (combine Header Data) Result.

(** ** Genotype *)

Definition FormatGenotype (Str : pystr) : pystr :=
  match map FormatInt (split 47 Str) with
  | [Some a; Some b] =>
      if (a =? b)%Z && negb (a =? 0)%Z then py "HOMO" else Str
  | _ => py "."
  end.

(** The genotype splits on ['/'] into exactly two texts that [FormatInt]
    reads as the allele indices [a] and [b]. *)
Definition two_alleles (Str : pystr) (a b : Z) : Prop :=
  exists sa sb,
    split 47 Str = [sa; sb]
    /\ FormatInt sa = Some a /\ FormatInt sb = Some b.

(** ** Filter functions *)

Definition any_None (A : Type) (l : list (option A)) : bool :=
  existsb (fun o => match o with None => true | Some _ => false end) l.

Definition somes (A : Type) (l : list (option A)) : list A :=
  flat_map (fun o => match o with Some x => [x] | None => [] end) l.

Definition FilterpLi (Str : pystr) : bool :=
  let Result := map FormatFloat (split 59 Str) in
  if any_None Result then false
  else existsb (fun item => float_ge item (FDec false 9 (-1))) (somes Result).

Definition FilterDepth (Str : pystr) : bool :=
  let Result := map FormatInt (split 44 Str) in
  if any_None Result then false
  else existsb (fun item => (4 <=? item)%Z) (somes Result).

Definition FilterExonPrediction (Str : pystr) : bool :=
  match split 47 Str with
  | first :: _ =>
      match FormatInt first with
      | None => false
      | Some Result => (3 <=? Result)%Z
      end
  | [] => false
  end.

Definition FilterOmimDominance (x : pystr) : bool :=
  negb (findall_count (match_W_word_W (py "dominant")) O (lower U x) =? 0)%nat.

(** [str(["Disease_description"])]: the text of a list that holds the
    column's name. *)
Definition str_of_name_list : pystr := py "['Disease_description']".

Definition FilterNoInfo (pLi Disease_description : pystr) : bool :=
  (pystr_eqb pLi (py ".") && pystr_eqb Disease_description (py "."))
  || (findall_count match_dominant_or_recessive O (lower U str_of_name_list)
      =? 0)%nat.

(** ** Rows and configuration *)

(** The columns of a row that the filters read. *)
Record variant := {
  VCF_AD : pystr;
  VCF_GT : pystr;
  Disease_description : pystr;
  pLi : pystr;
  HGMD : pystr;
  Population : list pystr;
  AnnoFit_ExonPred : pystr;
  AnnoFit_SplicePred : pystr;
  regsnp_disease : pystr;
  InterVar_automated : pystr;
  CLNSIG : pystr;
  AnnoFit_ExonicFunc : pystr;
  AnnoFit_Func : pystr;
  AnnoFit_GeneName : pystr;
  problem_columns : Dict.t pystr
}.

(** The entries of [AnnoFit_config.json] that the first stage reads; the
    file is not part of the sources, so its values are parameters. *)
Record config := {
  PopMax_filter : pyfloat;
  SplicePred_filter : list pystr;
  IntronPred_filter : list pystr;
  InterVar_filter : list pystr;
  CLINVAR_filter : list pystr;
  ExonicFunc_filter : list pystr;
  ncRNA_filter : list pystr;
  Splicing_filter : list pystr;
  Problems : Dict.t (list pystr)
}.

(** [Series.max()]: missing values are skipped; NaN when nothing is left. *)
Fixpoint series_max (l : list pyfloat) : pyfloat :=
  match l with
  | [] => FNaN
  | x :: r =>
      let m := series_max r in
      if is_nan x then m
      else if is_nan m then x
      else if float_lt x m then m else x
  end.

Definition PopFreqMax (v : variant) : pyfloat :=
  series_max (map FormatPopulationFreq (Population v)).

Definition any_in (l : list pystr) (items : list pystr) : bool :=
  existsb (fun item => Dict.mem item l) items.

(** ** Stage 1 *)

(** [Data["AnnoFit.PopFreqMax"] < Config["PopMax_filter"]]. The two
    [Data.fillna('.')] that run between the computation of the maximum and
    this comparison have turned a missing maximum into the text ["."], and
    the order of a [str] and a [float] is a [TypeError]. *)
Definition Filter_PopMax (C : config) (v : variant) : option bool :=
  match PopFreqMax v with
  | FNaN => None
  | m => Some (float_lt m (PopMax_filter C))
  end.

Definition Filter_Problematic (C : config) (v : variant) : option bool :=
  let? flags :=
    mapM (fun ii =>
            let? x := Dict.get (problem_columns v) (fst ii) in
            Some (negb (Dict.mem x (snd ii))))
         (Problems C) in
  Some (forallb (fun b => b) flags).

Definition stage1_keep (C : config) (v : variant) : option bool :=
  let DP := FilterDepth (VCF_AD v) in
  let OMIM := negb (pystr_eqb (Disease_description v) (py ".")) in
  let HGMD_ := negb (pystr_eqb (HGMD v) (py ".")) in
  let ExonPred := FilterExonPrediction (AnnoFit_ExonPred v) in
  let SplicePred := Dict.mem (AnnoFit_SplicePred v) (SplicePred_filter C) in
  let IntronPred := Dict.mem (regsnp_disease v) (IntronPred_filter C) in
  let Significance := Dict.mem (InterVar_automated v) (InterVar_filter C) in
  let CLINVAR := any_in (CLINVAR_filter C) (split 44 (CLNSIG v)) in
  let ExonicFunc :=
    any_in (ExonicFunc_filter C) (split 59 (AnnoFit_ExonicFunc v)) in
  let ncRNA := any_in (ncRNA_filter C) (split 59 (AnnoFit_Func v)) in
  let Splicing := any_in (Splicing_filter C) (split 59 (AnnoFit_Func v)) in
  let? PopMax := Filter_PopMax C v in
  let? Problematic := Filter_Problematic C v in
  Some (DP && PopMax && Problematic
        && (HGMD_ || ExonPred || SplicePred || IntronPred || Significance
            || CLINVAR || ExonicFunc || Splicing || (ncRNA && OMIM))).

Fixpoint filterM (A : Type) (f : A -> option bool) (l : list A)
  : option (list A) :=
  match l with
  | [] => Some []
  | x :: r =>
      let? b := f x in
      let? r' := filterM f r in
      Some (if b then x :: r' else r')
  end.

Definition stage1 (C : config) (Data : list variant) : option (list variant) :=
  filterM (stage1_keep C) Data.

(** ** Stage 2 *)

(** [value_counts()[True]] of the rows that name the gene; a [KeyError]
    when none does. *)
Definition gene_count (Result : list variant) (gene : pystr) : option N :=
  match List.length
          (filter (fun y => Dict.mem gene (split 59 (AnnoFit_GeneName y)))
                  Result) with
  | O => None
  | n => Some (N.of_nat n)
  end.

Definition Compound (Result : list variant) (x : variant) : option pystr :=
  let? counts := mapM (gene_count Result) (split 59 (AnnoFit_GeneName x)) in
  Some (join (py ";") (map str_of_N counts)).

Definition Compound_filter (x : pystr) : option bool :=
  let? items := mapM (int_of_str U) (split 59 x) in
  Some (existsb (fun item => (1 <? item)%Z) items).

Definition stage2_keep (x : variant) (compound : pystr) : option bool :=
  let F_pLi := FilterpLi (pLi x) in
  let OMIM_Dominance := FilterOmimDominance (Disease_description x) in
  let Zygocity := pystr_eqb (VCF_GT x) (py "HOMO") in
  let NoInfo := FilterNoInfo (pLi x) (Disease_description x) in
  let? Compound_f := Compound_filter compound in
  Some (Compound_f || F_pLi || OMIM_Dominance || Zygocity || NoInfo).

(** The number of rows that name the gene, and the compound column of a
    row, as values. *)
Definition count_of (Result : list variant) (gene : pystr) : N :=
  N.of_nat (List.length
              (filter (fun y => Dict.mem gene (split 59 (AnnoFit_GeneName y)))
                      Result)).

Definition compound_of (Result : list variant) (x : variant) : pystr :=
  join (py ";")
       (map str_of_N (map (count_of Result) (split 59 (AnnoFit_GeneName x)))).

(** The rows with their ['Annofit.Compound'] column, then the dominance
    filter.  On a result without rows the [parallel_apply] of line 551
    raises a [ValueError]. *)
Definition stage2 (Result : list variant) : option (list (variant * pystr)) :=
  match Result with
  | [] => None
  | _ :: _ =>
      let? with_compound :=
        mapM (fun x => let? c := Compound Result x in Some (x, c)) Result in
      filterM (fun xc => stage2_keep (fst xc) (snd xc)) with_compound
  end.

(** ** Other normalisation functions *)

(** The integer read, or the sentinel ["."]. *)
Inductive coordinate :=
| Coord (z : Z)
| NoCoord.

Definition FormatCoordinates (String : pystr) : coordinate :=
  match FormatInt String with
  | None => NoCoord
  | Some Result => Coord Result
  end.

(** [s.count(c)] for a one-character [c], and [l.count(x)] for a list. *)
Definition count_char (c : N) (s : pystr) : nat :=
  List.length (filter (N.eqb c) s).

Definition count_item (x : pystr) (l : list pystr) : nat :=
  List.length (filter (pystr_eqb x) l).

Definition FormatRevel (Value : pystr) : pystr :=
  match FormatFloat Value with
  | None => py "U"
  | Some v => if float_le v (FDec false 5 (-1)) then py "D" else py "T"
  end.

Definition FormatMutPred (Str : pystr) : pystr :=
  match FormatFloat Str with
  | None => py "U"
  | Some Result =>
      if float_ge Result (FDec false 9 (-1)) then py "D" else py "T"
  end.

Definition FormatDbscSNV (Series : list pystr) : pystr :=
  let Result := map FormatFloat Series in
  if any_None Result then py "."
  else if existsb (fun item => float_gt item (FDec false 6 (-1))) (somes Result)
       then py "D" else py "T".

Definition FormatExonPrediction (Series : list pystr) : pystr :=
  let Result := List.concat Series in
  let D := count_char 68 Result in
  let T := count_char 84 Result in
  if (D + T =? 0)%nat then py "."
  else join (py "/") [str_of_N (N.of_nat D); str_of_N (N.of_nat (D + T))].

(** The scores of a row that [float()] reads. *)
Definition parsed_ranks (Series : list pystr) : list pyfloat :=
  somes (map FormatFloat Series).

Definition conservation_symbol (x : pystr) : pystr :=
  match FormatFloat x with
  | None => py "U"
  | Some Rank =>
      if float_ge Rank (FDec false 7 (-1)) then py "D" else py "T"
  end.

Definition FormatConservation (Series : list pystr) : pystr :=
  let Series := map conservation_symbol Series in
  if (count_item (py "U") Series <? List.length Series)%nat
  then join (py "/")
            [str_of_N (N.of_nat (count_item (py "D") Series));
             str_of_N (N.of_nat (count_item (py "D") Series
                                 + count_item (py "T") Series))]
  else py ".".

Definition FormatDetails (Series : list pystr) : pystr :=
  match filter (fun item => negb (pystr_eqb item (py "."))) Series with
  | [] => py "."
  | lst => join (py ";") lst
  end.

End Unicode.

(** [sorted(list(set(l)))] for a list of [str]: the distinct texts in
    increasing order of their code points. *)
Definition str_leb (a b : pystr) : bool := negb (CureBase.str_ltb b a).

Definition sorted_set (l : list pystr) : list pystr :=
  Sort.sort str_leb (nodup (list_eq_dec N.eq_dec) l).

(** The cells are texts: the table is read with [dtype=str] and its missing
    values are filled with ["."] before the function is applied. *)
Definition FormatGenesOrFunction (Series : list pystr) : pystr :=
  let Genes := filter (fun item => negb (pystr_eqb item (py "."))) Series in
  let Genes := flat_map (split 59) Genes in
  match sorted_set Genes with
  | [] => py "."
  | Genes => join (py ";") Genes
  end.

(** ** Rows used as concrete inputs *)

(** The genes named by the cells that are not the sentinel. *)
Definition genes_of (Series : list pystr) : list pystr :=
  flat_map (split 59)
           (filter (fun item => negb (pystr_eqb item (py "."))) Series).

Definition blank_variant : variant :=
  {| VCF_AD := py "10,10"; VCF_GT := py "0/1";
     Disease_description := py "."; pLi := py ".";
     HGMD := py "CM000001"; Population := [];
     AnnoFit_ExonPred := py "."; AnnoFit_SplicePred := py ".";
     regsnp_disease := py "."; InterVar_automated := py ".";
     CLNSIG := py "."; AnnoFit_ExonicFunc := py "."; AnnoFit_Func := py ".";
     AnnoFit_GeneName := py "GENE1"; problem_columns := [] |}.

(** A heterozygous variant, alone in its gene, of a gene with a low
    intolerance score and a recessive disease. *)
Definition recessive_variant : variant :=
  {| VCF_AD := py "10,10"; VCF_GT := py "0/1";
     Disease_description := py "Deafness, autosomal recessive 1 [MIM:220290]";
     pLi := py "0.1";
     HGMD := py "CM000001"; Population := [py "0.0001"];
     AnnoFit_ExonPred := py "."; AnnoFit_SplicePred := py ".";
     regsnp_disease := py "."; InterVar_automated := py ".";
     CLNSIG := py "."; AnnoFit_ExonicFunc := py "."; AnnoFit_Func := py ".";
     AnnoFit_GeneName := py "GJB2"; problem_columns := [] |}.

(** A variant with one frequency recorded as "NAN" next to a numeric one.
    ([read_csv] keeps this spelling as text; it reads "nan" as a missing
    cell, which [fillna] turns into ".".) *)
Definition nan_frequency_variant : variant :=
  {| VCF_AD := py "10,10"; VCF_GT := py "0/1";
     Disease_description := py "."; pLi := py ".";
     HGMD := py "CM000001"; Population := [py "NAN"; py "0.001"];
     AnnoFit_ExonPred := py "."; AnnoFit_SplicePred := py ".";
     regsnp_disease := py "."; InterVar_automated := py ".";
     CLNSIG := py "."; AnnoFit_ExonicFunc := py "."; AnnoFit_Func := py ".";
     AnnoFit_GeneName := py "GENE1"; problem_columns := [] |}.

Definition ceiling_config : config :=
  {| PopMax_filter := FDec false 1 (-2);
     SplicePred_filter := []; IntronPred_filter := []; InterVar_filter := [];
     CLINVAR_filter := []; ExonicFunc_filter := []; ncRNA_filter := [];
     Splicing_filter := []; Problems := [] |}.

(** A variant whose frequencies are not numbers. *)
Definition unknown_frequency_variant : variant :=
  {| VCF_AD := py "10,10"; VCF_GT := py "0/1";
     Disease_description := py "."; pLi := py ".";
     HGMD := py "CM000001"; Population := [py "."; py "NA"];
     AnnoFit_ExonPred := py "."; AnnoFit_SplicePred := py ".";
     regsnp_disease := py "."; InterVar_automated := py ".";
     CLNSIG := py "."; AnnoFit_ExonicFunc := py "."; AnnoFit_Func := py ".";
     AnnoFit_GeneName := py "GENE1"; problem_columns := [] |}.

End AnnoFit.

(* ------------------------------------------------------------------ *)
(** * [ANNOVAR]: the options of the annotator *)

Module Annovar.

Definition mapM := Gff3.mapM.

(** [bool(l)] of a list. *)
Definition truthy (A : Type) (l : list A) : bool :=
  match l with
  | [] => false
  | _ :: _ => true
  end.

Record options := {
  Protocol : pystr;     (** the value of [--protocol] *)
  Operation : pystr;    (** the value of [--operation] *)
  GFFs : pystr          (** ["--gff3dbfile " + ','.join(GFF3List)] *)
}.

(** The assertion and the options of [ANNOVAR]; the commands that it then
    runs are not modelled.  [None] is the [AssertionError], or the
    [KeyError] of a database without "Protocol" or "Operation". *)
Definition ANNOVAR (Databases : list (Dict.t pystr)) (GFF3List : list pystr)
  : option options :=
  if Bool.eqb (truthy Databases) (truthy GFF3List) then None
  else
    let? protocols :=
      mapM (fun item => Dict.get item (py "Protocol")) Databases in
    let? operations :=
      mapM (fun item => Dict.get item (py "Operation")) Databases in
    Some {| Protocol :=
              join (py ",") (protocols ++ map (fun _ => py "gff3") GFF3List);
            Operation :=
              join (py ",") (operations ++ map (fun _ => py "r") GFF3List);
            GFFs := py "--gff3dbfile " ++ join (py ",") GFF3List |}.

(** The protocol and the operation of a database, as a pair. *)
Definition protocol_operation (item : Dict.t pystr) : option (pystr * pystr) :=
  let? p := Dict.get item (py "Protocol") in
  let? o := Dict.get item (py "Operation") in
  Some (p, o).

(** Neither the protocol nor the operation of the database holds a comma. *)
Definition comma_free (item : Dict.t pystr) : Prop :=
  forall v, Dict.get item (py "Protocol") = Some v
            \/ Dict.get item (py "Operation") = Some v ->
            Forall (fun c => c <> 44) v.

Definition refGene : Dict.t pystr :=
  [(py "Protocol", py "refGene"); (py "Operation", py "g")].

Definition gnomad : Dict.t pystr :=
  [(py "Protocol", py "gnomad211_exome"); (py "Operation", py "f")].

End Annovar.

(* ------------------------------------------------------------------ *)
(** * [AnnoPipe]: the stages of the pipeline *)

Module AnnoPipe.

(** The state of a run: [Unit['Stage']] as last written to the unit file,
    the stage functions called so far, and whether one of them raised. *)
Record run := {
  Stage : list pystr;
  called : list pystr;
  raised : bool
}.

(** One stage of lines 633 to 673.  A stage whose alias is in
    [Unit['Stage']] is skipped; otherwise its function is called, and when
    the function returns the alias is appended and the unit is written.
    [ok] tells whether the function of a stage returns; an exception
    leaves the pipeline with the unit file as last written. *)
Definition stage (ok : pystr -> bool) (StageAlias : pystr) (r : run) : run :=
  if raised r then r
  else if Dict.mem StageAlias (Stage r) then r
  else if ok StageAlias
       then {| Stage := Stage r ++ [StageAlias];
               called := called r ++ [StageAlias];
               raised := false |}
       else {| Stage := Stage r;
               called := called r ++ [StageAlias];
               raised := true |}.

(** [GFF3] is [bool(Unit["GFF3"])]. *)
Definition AnnoPipe (ok : pystr -> bool) (GFF3 : bool) (Stage0 : list pystr)
  : run :=
  let r := stage ok (py "Annovar")
                 {| Stage := Stage0; called := []; raised := false |} in
  let r := if GFF3 then stage ok (py "GFF3") r else r in
  stage ok (py "Annofit") r.

(** The aliases of the stages, in the order of the pipeline. *)
Definition stages (GFF3 : bool) : list pystr :=
  py "Annovar" :: (if GFF3 then [py "GFF3"] else []) ++ [py "Annofit"].

(** The stages of a list, one after the other. *)
Definition run_stages (ok : pystr -> bool) (l : list pystr) (r : run) : run :=
  fold_left (fun r StageAlias => stage ok StageAlias r) l r.

(** [Unit['Stage']] once the stages of a list have returned or been
    skipped. *)
Definition record (l : list pystr) (Stage0 : list pystr) : list pystr :=
  fold_left (fun S StageAlias =>
               if Dict.mem StageAlias S then S else S ++ [StageAlias])
            l Stage0.

(** Every stage function returns. *)
Definition all_return (StageAlias : pystr) : bool := true.

(** The annotator returns, the merger of the databases raises. *)
Definition merger_raises (StageAlias : pystr) : bool :=
  pystr_eqb StageAlias (py "Annovar").

End AnnoPipe.

(* ================================================================== *)
(** * Properties *)

Example int_of_str_ex1 :
  forall U, int_of_str U (py " +1_0 ") = Some 10%Z.
Proof. intros U. reflexivity. Qed.

Example int_of_str_ex2 :
  forall U, int_of_str U (py "1__0") = None.
Proof. intros U. reflexivity. Qed.

Example str_of_int_ex :
  str_of_int (-1203)%Z = py "-1203".
Proof. reflexivity. Qed.

Example float_of_str_ex1 :
  forall U, float_of_str U (py " -1_0.25e-3 ") = Some (FDec true 1025 (-5)).
Proof. intros U. reflexivity. Qed.

Example float_of_str_ex2 :
  forall U, float_of_str U (py "+Infinity") = Some (FInf false)
         /\ float_of_str U (py "1e") = None
         /\ float_of_str U (py ".") = None
         /\ float_of_str U (py "NaN") = Some FNaN.
Proof. intros U. repeat split. Qed.
(** [lia] reads [/] and [mod] as Euclidean division. *)
Ltac Zify.zify_post_hook ::= Z.to_euclidean_division_equations.

Module PyFacts.

Lemma pystr_eqb_eq (a b : pystr) : pystr_eqb a b = true <-> a = b.
Proof.
  unfold pystr_eqb. destruct (list_eq_dec N.eq_dec a b); split; congruence.
Qed.

Lemma pystr_eqb_refl (a : pystr) : pystr_eqb a a = true.
Proof. apply pystr_eqb_eq. reflexivity. Qed.

Lemma pystr_eqb_neq (a b : pystr) : a <> b -> pystr_eqb a b = false.
Proof.
  unfold pystr_eqb. destruct (list_eq_dec N.eq_dec a b); congruence.
Qed.

(** [split] never gives the empty list. *)
Lemma split_nonempty (sep : N) (s : pystr) : split sep s <> [].
Proof.
  destruct s as [|c r]; simpl; [discriminate|].
  destruct (c =? sep); [discriminate|].
  destruct (split sep r); discriminate.
Qed.

Lemma split_no_sep (sep : N) (s : pystr) :
  Forall (fun c => c <> sep) s -> split sep s = [s].
Proof.
  induction 1 as [|c r Hc _ IH]; simpl; [reflexivity|].
  apply N.eqb_neq in Hc. rewrite Hc, IH. reflexivity.
Qed.

Lemma split_app_sep (sep : N) (s t : pystr) :
  Forall (fun c => c <> sep) s ->
  split sep (s ++ sep :: t) = s :: split sep t.
Proof.
  induction 1 as [|c r Hc _ IH]; simpl.
  - rewrite N.eqb_refl. reflexivity.
  - apply N.eqb_neq in Hc. rewrite Hc, IH. reflexivity.
Qed.

(** Splitting a joined list gives the list back when no item holds the
    separator. *)
Lemma split_join (sep : N) (l : list pystr) :
  l <> [] ->
  Forall (Forall (fun c => c <> sep)) l ->
  split sep (join [sep] l) = l.
Proof.
  induction l as [|x r IH]; intros Hne Hall; [congruence|].
  inversion Hall as [|? ? Hx Hr]; subst.
  destruct r as [|y r'].
  - simpl. apply split_no_sep; assumption.
  - change (join [sep] (x :: y :: r')) with (x ++ sep :: join [sep] (y :: r')).
    rewrite split_app_sep by assumption.
    rewrite IH; [reflexivity|discriminate|assumption].
Qed.

(** ** Decimal digits of [str(n)] *)

Lemma digits_aux_app (f : nat) (n : N) (acc : pystr) :
  digits_aux f n acc = digits_aux f n [] ++ acc.
Proof.
  revert n acc. induction f as [|f IH]; intros n acc; simpl; [reflexivity|].
  destruct (n <? 10); [reflexivity|].
  rewrite IH. rewrite (IH (n / 10) [_]). rewrite <- app_assoc. reflexivity.
Qed.

Lemma digits_aux_step (f : nat) (n : N) :
  10 <= n ->
  digits_aux (S f) n [] = digits_aux f (n / 10) [] ++ [48 + n mod 10].
Proof.
  intros H. simpl. apply N.ltb_ge in H. rewrite H.
  apply digits_aux_app.
Qed.

Lemma fuel_step (f : nat) (n : N) :
  10 <= n -> n < 2 ^ N.of_nat (S f) ->
  exists f', f = S f' /\ n / 10 < 2 ^ N.of_nat (S f').
Proof.
  intros H10 Hb. destruct f as [|f'].
  - simpl in Hb. lia.
  - exists f'. split; [reflexivity|].
    rewrite Nnat.Nat2N.inj_succ, N.pow_succ_r' in Hb.
    apply N.Div0.div_lt_upper_bound. lia.
Qed.

Lemma fuel_enough (n : N) : n < 2 ^ N.of_nat (S (N.to_nat (N.log2 n))).
Proof.
  rewrite Nnat.Nat2N.inj_succ, Nnat.N2Nat.id.
  destruct n as [|p]; [reflexivity|].
  apply N.log2_spec. reflexivity.
Qed.

(** Induction along the digits of a number. *)
Lemma digits_ind (P : N -> pystr -> Prop) :
  (forall n, n < 10 -> P n [48 + n]) ->
  (forall n s, 10 <= n -> P (n / 10) s -> P n (s ++ [48 + n mod 10])) ->
  forall n, P n (str_of_N n).
Proof.
  intros Hbase Hstep n. unfold str_of_N.
  pose proof (fuel_enough n) as Hb.
  generalize dependent (N.to_nat (N.log2 n)). intros f. revert n.
  induction f as [|f IH]; intros n Hb.
  - simpl. simpl in Hb. assert (Hlt : n < 10) by lia.
    apply N.ltb_lt in Hlt. rewrite Hlt. apply Hbase. lia.
  - destruct (N.lt_ge_cases n 10) as [Hlt|Hge].
    + simpl. pose proof Hlt as Hlt'. apply N.ltb_lt in Hlt'. rewrite Hlt'.
      apply Hbase. assumption.
    + rewrite digits_aux_step by assumption.
      apply Hstep; [assumption|].
      destruct (fuel_step Hge Hb) as [f' [Hf Hb']]. inversion Hf; subst f'.
      apply IH. assumption.
Qed.

Lemma str_of_N_digits (n : N) :
  Forall (fun c => 48 <= c <= 57) (str_of_N n).
Proof.
  apply (digits_ind (fun _ s => Forall (fun c => 48 <= c <= 57) s)).
  - intros m Hm. constructor; [lia|constructor].
  - intros m s _ IH. apply Forall_app. split; [assumption|].
    constructor; [|constructor].
    lia.
Qed.

Lemma str_of_N_nonempty (n : N) : str_of_N n <> [].
Proof.
  apply (digits_ind (fun _ s => s <> [])).
  - discriminate.
  - intros m s _ _. destruct s; discriminate.
Qed.

Section Unicode.
Variable U : unicode_db.

Lemma decimal_value_digit (c : N) :
  48 <= c <= 57 -> decimal_value U c = Some (c - 48).
Proof.
  intros [H1 H2]. unfold decimal_value.
  assert (Hc : (c <? 128) = true) by (apply N.ltb_lt; lia). rewrite Hc.
  apply N.leb_le in H1. apply N.leb_le in H2. rewrite H1, H2. reflexivity.
Qed.

Lemma isspace_digit (c : N) : 48 <= c <= 57 -> isspace U c = false.
Proof.
  intros [H1 H2]. unfold isspace.
  assert (Hc : (c <? 128) = true) by (apply N.ltb_lt; lia). rewrite Hc.
  assert (H13 : (c <=? 13) = false) by (apply N.leb_gt; lia).
  assert (H32 : (c =? 32) = false) by (apply N.eqb_neq; lia).
  rewrite H13, H32, andb_false_r. reflexivity.
Qed.

Lemma scan_digits_cons_digit (a : N) (b : bool) (c : N) (r : pystr) :
  48 <= c <= 57 ->
  scan_digits U a b (c :: r) = scan_digits U (10 * a + (c - 48)) false r.
Proof.
  intros H. cbn [scan_digits]. rewrite decimal_value_digit by assumption.
  reflexivity.
Qed.

(** Reading the digits of [n] after a prefix worth [0] is reading on from
    [n]. *)
Lemma scan_digits_str_of_N (n : N) (rest : pystr) :
  scan_digits U 0 false (str_of_N n ++ rest) = scan_digits U n false rest.
Proof.
  revert rest.
  apply (digits_ind
           (fun n s => forall rest,
                scan_digits U 0 false (s ++ rest) = scan_digits U n false rest)).
  - intros m Hm rest. cbn [app].
    rewrite scan_digits_cons_digit by lia.
    f_equal. lia.
  - intros m s Hm IH rest. rewrite <- app_assoc. rewrite IH. cbn [app].
    rewrite scan_digits_cons_digit by lia.
    f_equal. lia.
Qed.

Lemma take_sign_digit (c : N) (r : pystr) :
  48 <= c <= 57 -> take_sign (c :: r) = (false, c :: r).
Proof.
  intros H. unfold take_sign.
  assert (H1 : (c =? 43) = false) by (apply N.eqb_neq; lia).
  assert (H2 : (c =? 45) = false) by (apply N.eqb_neq; lia).
  rewrite H1, H2. reflexivity.
Qed.

Lemma int_of_str_str_of_N (n : N) :
  int_of_str U (str_of_N n) = Some (Z.of_N n).
Proof.
  pose proof (str_of_N_digits n) as Hd.
  pose proof (scan_digits_str_of_N n []) as Hs.
  rewrite app_nil_r in Hs.
  unfold int_of_str.
  destruct (str_of_N n) as [|c r] eqn:E.
  - exfalso. eapply str_of_N_nonempty; eassumption.
  - inversion Hd as [|? ? Hc Hr]; subst.
    cbn [lstrip]. rewrite isspace_digit by assumption.
    rewrite take_sign_digit by assumption.
    unfold scan_number.
    rewrite decimal_value_digit by assumption.
    rewrite Hs. reflexivity.
Qed.

End Unicode.

End PyFacts.

(* ------------------------------------------------------------------ *)
(** * Facts about dictionaries and option-valued maps *)

Module DictFacts.
Import PyFacts.

Lemma mem_In (k : pystr) (l : list pystr) : Dict.mem k l = true <-> In k l.
Proof.
  unfold Dict.mem. rewrite existsb_exists. split.
  - intros [x [Hin Heq]]. apply pystr_eqb_eq in Heq. subst. assumption.
  - intros Hin. exists k. split; [assumption|apply pystr_eqb_refl].
Qed.

Lemma mem_false (k : pystr) (l : list pystr) :
  Dict.mem k l = false <-> ~ In k l.
Proof.
  rewrite <- mem_In. destruct (Dict.mem k l); split; congruence.
Qed.

Section Generic.
Variable V : Type.

Lemma get_set_same (d : Dict.t V) (k : pystr) (v : V) :
  Dict.get (Dict.set d k v) k = Some v.
Proof.
  induction d as [|[k' v'] r IH]; simpl.
  - rewrite pystr_eqb_refl. reflexivity.
  - destruct (pystr_eqb k' k) eqn:E; simpl; rewrite E; [reflexivity|exact IH].
Qed.

Lemma get_set_other (d : Dict.t V) (k k0 : pystr) (v : V) :
  k <> k0 -> Dict.get (Dict.set d k v) k0 = Dict.get d k0.
Proof.
  intros Hne. induction d as [|[k' v'] r IH]; simpl.
  - rewrite pystr_eqb_neq by assumption. reflexivity.
  - destruct (pystr_eqb k' k) eqn:E; simpl.
    + apply pystr_eqb_eq in E. subst k'.
      rewrite pystr_eqb_neq by assumption. reflexivity.
    + rewrite IH. reflexivity.
Qed.

Lemma keys_set (d : Dict.t V) (k : pystr) (v : V) :
  Dict.keys (Dict.set d k v)
  = if Dict.mem k (Dict.keys d) then Dict.keys d else Dict.keys d ++ [k].
Proof.
  induction d as [|[k' v'] r IH]; simpl; [reflexivity|].
  unfold Dict.mem in *. simpl.
  destruct (pystr_eqb k' k) eqn:E.
  - apply pystr_eqb_eq in E. subst k'. rewrite pystr_eqb_refl. reflexivity.
  - assert (E' : pystr_eqb k k' = false).
    { apply pystr_eqb_neq. intros ->. rewrite pystr_eqb_refl in E. discriminate. }
    rewrite E'. simpl. unfold Dict.keys in *. simpl. rewrite IH.
    destruct (existsb (pystr_eqb k) (map fst r)); reflexivity.
Qed.

(** Setting a key that the dictionary lacks appends the pair. *)
Lemma set_fresh (d : Dict.t V) (k : pystr) (v : V) :
  ~ In k (Dict.keys d) -> Dict.set d k v = d ++ [(k, v)].
Proof.
  induction d as [|[k' v'] r IH]; simpl; intros Hn; [reflexivity|].
  rewrite pystr_eqb_neq by (intros ->; apply Hn; left; reflexivity).
  rewrite IH; [reflexivity|]. intros Hin. apply Hn. right. exact Hin.
Qed.

(** A dictionary filled from pairs with distinct fresh keys is the list of
    the pairs. *)
Lemma fold_set_nodup (l : list (pystr * V)) (d : Dict.t V) :
  NoDup (Dict.keys d ++ map fst l) ->
  fold_left (fun acc kv => Dict.set acc (fst kv) (snd kv)) l d = d ++ l.
Proof.
  revert d. induction l as [|[k v] r IH]; intros d Hnd; simpl.
  - rewrite app_nil_r. reflexivity.
  - simpl in Hnd.
    rewrite set_fresh.
    + rewrite IH.
      * rewrite <- app_assoc. reflexivity.
      * unfold Dict.keys in *. rewrite map_app. simpl.
        rewrite <- app_assoc. simpl. exact Hnd.
    + intros Hin. apply NoDup_remove_2 in Hnd. apply Hnd.
      apply in_or_app. left. exact Hin.
Qed.

(** The last assignment to a key is the one that is read. *)
Lemma get_fold_set (l : list (pystr * V)) (d : Dict.t V) (k : pystr) :
  Dict.get (fold_left (fun acc kv => Dict.set acc (fst kv) (snd kv)) l d) k
  = match Dict.get (rev l) k with
    | Some v => Some v
    | None => Dict.get d k
    end.
Proof.
  revert d. induction l as [|[k' v'] r IH]; intros d; simpl; [reflexivity|].
  rewrite IH. clear IH.
  assert (Hrev : Dict.get (rev r ++ [(k', v')]) k
                 = match Dict.get (rev r) k with
                   | Some v => Some v
                   | None => if pystr_eqb k' k then Some v' else None
                   end).
  { induction (rev r) as [|[a b] t IHt]; simpl; [reflexivity|].
    destruct (pystr_eqb a k); [reflexivity|exact IHt]. }
  rewrite Hrev. destruct (Dict.get (rev r) k); [reflexivity|].
  destruct (pystr_eqb k' k) eqn:E.
  - apply pystr_eqb_eq in E. subst. apply get_set_same.
  - apply get_set_other. intros ->. rewrite pystr_eqb_refl in E. discriminate.
Qed.

End Generic.

Section MapM.
Variables A B : Type.

Lemma mapM_ext_in (f : A -> option B) (g : A -> B) (l : list A) :
  (forall x, In x l -> f x = Some (g x)) ->
  Gff3.mapM f l = Some (map g l).
Proof.
  induction l as [|x r IH]; intros H; simpl; [reflexivity|].
  rewrite (H x) by (left; reflexivity).
  rewrite IH by (intros y Hy; apply H; right; exact Hy).
  reflexivity.
Qed.

Lemma mapM_length (f : A -> option B) (l : list A) (out : list B) :
  Gff3.mapM f l = Some out -> List.length out = List.length l.
Proof.
  revert out. induction l as [|x r IH]; intros out; simpl.
  - intros [= <-]. reflexivity.
  - destruct (f x); [|discriminate].
    destruct (Gff3.mapM f r); [|discriminate].
    intros [= <-]. simpl. f_equal. apply IH. reflexivity.
Qed.

Lemma mapM_Forall2 (f : A -> option B) (l : list A) (out : list B) :
  Gff3.mapM f l = Some out -> Forall2 (fun x y => f x = Some y) l out.
Proof.
  revert out. induction l as [|x r IH]; intros out; simpl.
  - intros [= <-]. constructor.
  - destruct (f x) eqn:E; [|discriminate].
    destruct (Gff3.mapM f r); [|discriminate].
    intros [= <-]. constructor; [exact E|apply IH; reflexivity].
Qed.

End MapM.

End DictFacts.

(* ------------------------------------------------------------------ *)
(** * [AnnoFit]: normalisation functions *)

Module AnnoFitFacts.
Import AnnoFit PyFacts DictFacts.

Section Unicode.
Variable U : unicode_db.

Lemma filterM_all_true (A : Type) (f : A -> option bool) (l : list A) :
  (forall x, In x l -> f x = Some true) -> filterM f l = Some l.
Proof.
  induction l as [|x r IH]; intros H; simpl; [reflexivity|].
  rewrite (H x) by (left; reflexivity).
  rewrite IH by (intros y Hy; apply H; right; exact Hy).
  reflexivity.
Qed.

(** ** The second stage raises on no row *)

Lemma gene_count_self (Result : list variant) (x : variant) (gene : pystr) :
  In x Result -> In gene (split 59 (AnnoFit_GeneName x)) ->
  gene_count Result gene = Some (count_of Result gene).
Proof.
  intros Hx Hg. unfold gene_count, count_of.
  destruct (filter _ Result) as [|y r] eqn:E; [|reflexivity].
  exfalso.
  assert (Hin : In x (filter (fun y => Dict.mem gene
                                         (split 59 (AnnoFit_GeneName y)))
                             Result)).
  { apply filter_In. split; [assumption|]. apply mem_In. assumption. }
  rewrite E in Hin. exact Hin.
Qed.

Lemma Compound_total (Result : list variant) (x : variant) :
  In x Result -> Compound Result x = Some (compound_of Result x).
Proof.
  intros Hx. unfold Compound, compound_of, mapM.
  rewrite (mapM_ext_in (gene_count Result) (count_of Result)).
  - reflexivity.
  - intros g Hg. eapply gene_count_self; eassumption.
Qed.

Lemma Compound_filter_total (counts : list N) :
  counts <> [] ->
  Compound_filter U (join (py ";") (map str_of_N counts))
  = Some (existsb (fun item => (1 <? item)%Z) (map Z.of_N counts)).
Proof.
  intros Hne. unfold Compound_filter, mapM.
  change (py ";") with [59].
  rewrite split_join.
  - rewrite (mapM_ext_in (int_of_str U) (fun s => match int_of_str U s with
                                                   | Some z => z
                                                   | None => 0%Z
                                                   end)).
    + rewrite map_map. f_equal. f_equal.
      apply map_ext. intros n. rewrite int_of_str_str_of_N. reflexivity.
    + intros s Hs. apply in_map_iff in Hs. destruct Hs as [n [<- _]].
      rewrite int_of_str_str_of_N. reflexivity.
  - destruct counts; [congruence|discriminate].
  - apply Forall_forall. intros s Hs.
    apply in_map_iff in Hs. destruct Hs as [n [<- _]].
    eapply Forall_impl; [|apply str_of_N_digits].
    intros c Hc. cbv beta in Hc. lia.
Qed.

Lemma NoInfo_true (p d : pystr) : FilterNoInfo U p d = true.
Proof.
  unfold FilterNoInfo.
  replace (findall_count (match_dominant_or_recessive U) 0
                         (lower U str_of_name_list) =? 0)%nat
    with true by (vm_compute; reflexivity).
  apply orb_true_r.
Qed.

(** C4. [FilterNoInfo] is true of every row: its second disjunct looks for
    a dominant or recessive marker in the constant text
    [str(["Disease_description"])], which holds none. So the second stage,
    given rows, raises on none of them and keeps every one, in order,
    whatever the compound count, the intolerance score, the disease
    description and the genotype are. (Given no row at all, it raises
    before any row is filtered.) *)
Theorem stage2_retains_every_row :
  (forall pLi_ dd, FilterNoInfo U pLi_ dd = true)
  /\ (forall Result,
         Result <> [] ->
         exists out, stage2 U Result = Some out /\ map fst out = Result)
  /\ stage2 U [] = None.
Proof.
  split; [apply NoInfo_true|]. split; [|reflexivity].
  intros Result Hne.
  exists (map (fun x => (x, compound_of Result x)) Result).
  split.
  - unfold stage2, mapM.
    destruct Result as [|x0 Result0] eqn:ER; [congruence|].
    rewrite <- ER in *. clear Hne.
    rewrite (mapM_ext_in _ (fun x => (x, compound_of Result x))).
    + apply filterM_all_true.
      intros [x c] Hin. apply in_map_iff in Hin.
      destruct Hin as [y [[= <- <-] Hy]].
      unfold stage2_keep. cbn [fst snd].
      unfold compound_of. rewrite Compound_filter_total.
      * rewrite NoInfo_true. rewrite orb_true_r. reflexivity.
      * pose proof (split_nonempty 59 (AnnoFit_GeneName y)) as Hne.
        destruct (split 59 (AnnoFit_GeneName y)); [congruence|discriminate].
    + intros x Hx. rewrite Compound_total by assumption. reflexivity.
  - rewrite map_map. cbn [fst]. apply map_id.
Qed.

(** C3, at the failing input. A heterozygous variant that is alone in its
    gene, whose intolerance score is low and whose disease description is
    recessive meets none of the five conditions of the specification, and
    the second stage keeps it. *)
Theorem stage2_keeps_recessive_variant :
  stage2 U [recessive_variant] = Some [(recessive_variant, py "1")]
  /\ Compound_filter U (py "1") = Some false
  /\ FilterpLi U (pLi recessive_variant) = false
  /\ FilterOmimDominance U (Disease_description recessive_variant) = false
  /\ pystr_eqb (VCF_GT recessive_variant) (py "HOMO") = false
  /\ pystr_eqb (pLi recessive_variant) (py ".")
     && pystr_eqb (Disease_description recessive_variant) (py ".") = false.
Proof.
  repeat split; vm_compute; reflexivity.
Qed.

(** C8. [FormatGenotype] gives the sentinel when the genotype does not split
    on ['/'] into exactly two integers, "HOMO" when the two allele indices
    are equal and not zero, and the genotype itself otherwise; so "1/1"
    becomes "HOMO", "0/1" stays and "a/b" becomes ".". *)
Theorem FormatGenotype_normalizes :
  (forall Str,
      ((forall a b, ~ two_alleles U Str a b)
       /\ FormatGenotype U Str = py ".")
      \/ (exists a b, two_alleles U Str a b /\ a = b /\ a <> 0%Z
                      /\ FormatGenotype U Str = py "HOMO")
      \/ (exists a b, two_alleles U Str a b /\ ~ (a = b /\ a <> 0%Z)
                      /\ FormatGenotype U Str = Str))
  /\ FormatGenotype U (py "1/1") = py "HOMO"
  /\ FormatGenotype U (py "0/1") = py "0/1"
  /\ FormatGenotype U (py "a/b") = py ".".
Proof.
  split; [|repeat split].
  intros Str. unfold FormatGenotype.
  destruct (split 47 Str) as [|sa [|sb [|sc t]]] eqn:E; cbn [map].
  - left. split; [|reflexivity].
    intros a b (sa' & sb' & H & _). rewrite E in H. discriminate.
  - left. split; [|destruct (FormatInt U sa); reflexivity].
    intros a b (sa' & sb' & H & _). rewrite E in H. discriminate.
  - destruct (FormatInt U sa) as [a|] eqn:Ea.
    + destruct (FormatInt U sb) as [b|] eqn:Eb.
      * assert (Htwo : two_alleles U Str a b).
        { exists sa, sb. repeat split; assumption. }
        destruct ((a =? b)%Z && negb (a =? 0)%Z) eqn:Ec.
        -- right. left. exists a, b.
           apply andb_true_iff in Ec. destruct Ec as [E1 E2].
           apply Z.eqb_eq in E1. apply negb_true_iff in E2.
           apply Z.eqb_neq in E2. repeat split; assumption.
        -- right. right. exists a, b. repeat split; try assumption.
           intros [H1 H2]. apply Z.eqb_eq in H1. apply Z.eqb_neq in H2.
           rewrite H1, H2 in Ec. discriminate.
      * left. split; [|reflexivity].
        intros a' b' (sa' & sb' & H & _ & Hb). rewrite E in H.
        injection H as <- <-.
        congruence.
    + left. split; [|reflexivity].
      intros a' b' (sa' & sb' & H & Ha & _). rewrite E in H.
      injection H as <- <-.
      congruence.
  - left. split.
    + intros a b (sa' & sb' & H & _). rewrite E in H. discriminate.
    + destruct (FormatInt U sa); [destruct (FormatInt U sb)|]; reflexivity.
Qed.

(** ** Per-sample metadata *)

Lemma fold_set_map (l : list (pystr * pystr)) (d : Dict.t meta_value) :
  fold_left (fun R hd => Dict.set R (fst hd) (MStr (snd hd))) l d
  = fold_left (fun acc kv => Dict.set acc (fst kv) (snd kv))
              (map (fun hd => (fst hd, MStr (snd hd))) l) d.
Proof.
  revert d. induction l as [|x r IH]; intros d; simpl; [reflexivity|].
  apply IH.
Qed.

Lemma header_not_Name (FORMAT h : pystr) :
  In h (map (fun item => py "VCF." ++ item) (split 58 FORMAT)) ->
  h <> py "Name".
Proof.
  intros Hin. apply in_map_iff in Hin. destruct Hin as [item [<- _]].
  discriminate.
Qed.

Lemma map_fst_combine (A B : Type) (l : list A) (l' : list B) :
  List.length l = List.length l' -> map fst (combine l l') = l.
Proof.
  revert l'. induction l as [|x r IH]; intros [|y r'] H; simpl in *;
    try discriminate; [reflexivity|].
  f_equal. apply IH. congruence.
Qed.

Lemma get_None_not_key (V : Type) (d : Dict.t V) (k : pystr) :
  Dict.get d k = None -> ~ In k (Dict.keys d).
Proof.
  induction d as [|[k' v] t IH]; simpl; intros Hg; [tauto|].
  destruct (pystr_eqb k' k) eqn:Ek; [discriminate|].
  intros [Heq|Hin]; [|exact (IH Hg Hin)].
  subst k'. rewrite pystr_eqb_refl in Ek. discriminate.
Qed.

Lemma zip_fields (Header Data : list pystr) (name : Z) :
  (forall h, In h Header -> h <> py "Name") ->
  List.length Header = List.length Data ->
  let zipped := map (fun hd => (fst hd, MStr (snd hd))) (combine Header Data) in
  let R := fold_left (fun R hd => Dict.set R (fst hd) (MStr (snd hd)))
                     (combine Header Data) [(py "Name", MName name)] in
  Dict.get R (py "Name") = Some (MName name)
  /\ (forall h, In h Header -> Dict.get R h = Dict.get (rev zipped) h)
  /\ (NoDup Header -> R = (py "Name", MName name) :: zipped).
Proof.
  intros Hname Hlen zipped R.
  assert (Hkeys : map fst zipped = Header).
  { unfold zipped. rewrite map_map. cbn [fst].
    apply map_fst_combine. assumption. }
  assert (HR : R = fold_left (fun acc kv => Dict.set acc (fst kv) (snd kv))
                             zipped [(py "Name", MName name)]).
  { unfold R, zipped. apply fold_set_map. }
  rewrite HR. split; [|split].
  - rewrite get_fold_set.
    destruct (Dict.get (rev zipped) (py "Name")) as [v|] eqn:Eg.
    + exfalso.
      destruct (in_dec (list_eq_dec N.eq_dec) (py "Name") Header) as [Hin|Hn].
      * exact (Hname _ Hin eq_refl).
      * apply Hn. rewrite <- Hkeys. apply in_rev. rewrite <- map_rev.
        clear - Eg. induction (rev zipped) as [|[k v'] t IH]; simpl in *;
          [discriminate|].
        destruct (pystr_eqb k (py "Name")) eqn:Ek.
        -- left. apply pystr_eqb_eq. exact Ek.
        -- right. apply IH. exact Eg.
    + reflexivity.
  - intros h Hh. rewrite get_fold_set.
    destruct (Dict.get (rev zipped) h); [reflexivity|].
    cbn [Dict.get]. rewrite pystr_eqb_neq; [reflexivity|].
    intros Heq. apply (Hname h Hh). symmetry. exact Heq.
  - intros Hnd. rewrite fold_set_nodup; [reflexivity|].
    cbn [Dict.keys map fst app]. rewrite Hkeys.
    constructor; [|assumption].
    intros Hin. exact (Hname _ Hin eq_refl).
Qed.

(** C9. [FormatVcfMetadata] splits the format and the sample values on
    [':']. When the two lists have the same length the result holds the
    row's identity and the zipped fields (each header bound to the value at
    its position, the list of pairs itself when no header repeats); when
    the lengths differ the result is the row's identity alone, and no
    error is raised. *)
Theorem FormatVcfMetadata_zip (FORMAT SAMPLE : pystr) (name : Z) :
  let Header := map (fun item => py "VCF." ++ item) (split 58 FORMAT) in
  let Data := split 58 SAMPLE in
  let zipped := map (fun hd => (fst hd, MStr (snd hd))) (combine Header Data) in
  let R := FormatVcfMetadata FORMAT SAMPLE name in
  (List.length Header = List.length Data
   /\ Dict.get R (py "Name") = Some (MName name)
   /\ (forall h, In h Header -> Dict.get R h = Dict.get (rev zipped) h)
   /\ (NoDup Header -> R = (py "Name", MName name) :: zipped))
  \/ (List.length Header <> List.length Data
      /\ R = [(py "Name", MName name)]).
Proof.
  cbv zeta. unfold FormatVcfMetadata.
  destruct (List.length (map (fun item => py "VCF." ++ item) (split 58 FORMAT))
            =? List.length (split 58 SAMPLE))%nat eqn:E; cbn [negb].
  - apply Nat.eqb_eq in E. left. split; [assumption|].
    apply zip_fields; [|assumption].
    intros h Hh. eapply header_not_Name. exact Hh.
  - apply Nat.eqb_neq in E. right. split; [assumption|reflexivity].
Qed.

(** ** Population frequencies *)

Lemma series_max_skips_nan (l : list pyfloat) :
  series_max l = series_max (filter (fun x => negb (is_nan x)) l).
Proof.
  induction l as [|x r IH]; simpl; [reflexivity|].
  destruct (is_nan x) eqn:E; simpl; [exact IH|].
  rewrite E, IH. reflexivity.
Qed.

(** C10, as the code has it. [FormatPopulationFreq] gives -1.0 when [float()]
    raises and the value read otherwise; "not_a_number" raises, and so does
    the "." that stands for a missing cell, while "nan", "NAN", "inf" and
    "-inf" are read, so a frequency that reaches the function as such a
    text comes back as NaN or an infinity and not as -1.0. NaN is below no
    threshold. But the ceiling is compared with the maximum over the row's
    population columns, and that maximum skips NaN: whether a row with such
    a frequency is kept is decided by its numeric frequencies. *)
Theorem FormatPopulationFreq_nan :
  (forall s,
      (FormatFloat U s = None /\ FormatPopulationFreq U s = FDec true 1 0)
      \/ (exists v, FormatFloat U s = Some v /\ FormatPopulationFreq U s = v))
  /\ FormatFloat U (py "not_a_number") = None
  /\ FormatPopulationFreq U (py ".") = FDec true 1 0
  /\ FormatPopulationFreq U (py "nan") = FNaN
  /\ FormatPopulationFreq U (py "NAN") = FNaN
  /\ FormatPopulationFreq U (py "inf") = FInf false
  /\ FormatPopulationFreq U (py "-inf") = FInf true
  /\ (forall threshold, float_lt FNaN threshold = false)
  /\ (forall v,
         PopFreqMax U v
         = series_max (filter (fun x => negb (is_nan x))
                              (map (FormatPopulationFreq U) (Population v)))).
Proof.
  split; [|repeat split].
  - intros s. unfold FormatPopulationFreq.
    destruct (FormatFloat U s) as [v|]; [right; exists v|left]; split;
      reflexivity.
  - intros v. unfold PopFreqMax. apply series_max_skips_nan.
Qed.
End Unicode.

End AnnoFitFacts.

(** C10, the claim as stated fails: this row has a frequency recorded as
    "NAN", which [FormatPopulationFreq] reads as NaN, and the first stage
    keeps the row, because the maximum over its frequencies is 0.001. *)
Lemma nan_frequency_row_is_kept :
  In (py "NAN") (AnnoFit.Population AnnoFit.nan_frequency_variant)
  /\ AnnoFit.FormatPopulationFreq ascii_only (py "NAN") = FNaN
  /\ AnnoFit.PopFreqMax ascii_only AnnoFit.nan_frequency_variant
     = FDec false 1 (-3)
  /\ AnnoFit.stage1 ascii_only AnnoFit.ceiling_config
                    [AnnoFit.nan_frequency_variant]
     = Some [AnnoFit.nan_frequency_variant].
Proof.
  split; [left; reflexivity|repeat split; reflexivity].
Qed.

(* ------------------------------------------------------------------ *)
(** * [Tsv2Gff3]: order and coordinates of the written records *)

Module SortFacts.

Section Insertion.
Variable A : Type.
Variable le : A -> A -> bool.
Hypothesis le_total : forall a b, le a b = true \/ le b a = true.
Hypothesis le_trans : forall a b c, le a b = true -> le b c = true -> le a c = true.

Let R (a b : A) : Prop := le a b = true.

Lemma insert_In (x y : A) (l : list A) :
  In y (Sort.insert le x l) <-> y = x \/ In y l.
Proof.
  induction l as [|z r IH]; simpl.
  - intuition congruence.
  - destruct (le x z); simpl; rewrite ?IH; intuition congruence.
Qed.

Lemma insert_sorted (x : A) (l : list A) :
  StronglySorted R l -> StronglySorted R (Sort.insert le x l).
Proof.
  induction 1 as [|z r Hs IH Hz]; simpl.
  - constructor; constructor.
  - destruct (le x z) eqn:E.
    + constructor; [constructor; assumption|].
      constructor; [exact E|].
      eapply Forall_impl; [|exact Hz].
      intros b Hb. eapply le_trans; eassumption.
    + constructor; [exact IH|].
      apply Forall_forall. intros b Hb. apply insert_In in Hb.
      destruct Hb as [->|Hb].
      * destruct (le_total x z) as [H|H]; [congruence|exact H].
      * rewrite Forall_forall in Hz. apply Hz. exact Hb.
Qed.

Lemma sort_sorted (l : list A) : StronglySorted R (Sort.sort le l).
Proof.
  induction l as [|x r IH]; simpl; [constructor|].
  apply insert_sorted. exact IH.
Qed.

Lemma sort_In (y : A) (l : list A) : In y (Sort.sort le l) <-> In y l.
Proof.
  induction l as [|x r IH]; simpl; [tauto|].
  rewrite insert_In, IH. intuition congruence.
Qed.

End Insertion.


End SortFacts.

Module Gff3Facts.
Import Gff3 DictFacts SortFacts.






Lemma ranked_rank (f : faidx) (rows : list tsv_row) (p : nat * tsv_row) :
  In p (ranked f rows) -> cell_rank f (chrom (snd p)) = Some (fst p).
Proof.
  unfold ranked. rewrite in_flat_map. intros [r [_ Hp]].
  destruct (cell_rank f (chrom r)) as [k|] eqn:E; simpl in Hp.
  - destruct Hp as [<-|[]]. exact E.
  - destruct Hp.
Qed.

Lemma emit_fields (dbName : pystr) (cols : list pystr) (d : dtype)
      (p : nat * tsv_row) (rec : gff_record) :
  emit dbName cols d p = Some rec ->
  Contig rec = contig_text (chrom (snd p))
  /\ Start rec = clamp_start d (start (snd p))
  /\ End_ rec = end_ (snd p).
Proof.
  unfold emit. destruct (encode_attributes _); [|discriminate].
  intros [= <-]. repeat split.
Qed.

Lemma Tsv2Gff3_records (dbName : pystr) (T : tsv_table) (f : faidx)
      (out : gff_output) :
  Tsv2Gff3 dbName T f = Some out ->
  Forall2 (fun p rec =>
             emit dbName (AttributeCols T) (StartCol_dtype T) p = Some rec)
          (Sort.sort (key_leb (StartCol_dtype T)) (ranked f (tsv_rows T)))
          (records out).
Proof.
  unfold Tsv2Gff3.
  destruct (warning (Filtered f (tsv_rows T))); [|discriminate].
  cbn.
  destruct (Sort.sort _ (ranked f (tsv_rows T))) as [|p0 ps] eqn:E;
    [discriminate|].
  destruct (mapM _ (p0 :: ps)) as [recs|] eqn:Em; [|discriminate].
  intros [= <-]. cbn [records].
  apply mapM_Forall2. exact Em.
Qed.

(** The fields of the written records, row by row. *)
Lemma Tsv2Gff3_fields (dbName : pystr) (T : tsv_table) (f : faidx)
      (out : gff_output) :
  Tsv2Gff3 dbName T f = Some out ->
  Forall2 (fun r rec =>
             Contig rec = contig_text (chrom r)
             /\ Start rec = clamp_start (StartCol_dtype T) (start r)
             /\ End_ rec = end_ r)
          (kept_rows T f) (records out).
Proof.
  intros H. apply Tsv2Gff3_records in H. unfold kept_rows.
  induction H as [|p rec ps recs Hp _ IH]; cbn [map]; constructor;
    [|exact IH].
  apply (emit_fields _ _ _ _ Hp).
Qed.





(** C6, as the code has it. When the start column of the table is read as
    integers, every record that [Tsv2Gff3] writes carries the start of its
    row with 0 rewritten to 1 and every other value, a negative one
    included, unchanged; when in addition no start of the table is
    negative, every written start is at least 1. When the start column is
    read as text, every start is written as it is, "0" included. *)
Theorem Tsv2Gff3_start (dbName : pystr) (T : tsv_table) (f : faidx)
        (out : gff_output) :
  Tsv2Gff3 dbName T f = Some out ->
  (int64_starts T ->
   map Start (records out)
   = map (fun r => if (start r =? 0)%Z then 1%Z else start r) (kept_rows T f))
  /\ (int64_starts T ->
      Forall (fun r => (0 <= start r)%Z) (tsv_rows T) ->
      Forall (fun rec => (1 <= Start rec)%Z) (records out))
  /\ (StartCol_dtype T = Text ->
      map Start (records out) = map start (kept_rows T f)).
Proof.
  intros H.
  pose proof (Tsv2Gff3_fields _ _ _ H) as HF.
  assert (Hmap : map Start (records out)
                 = map (fun r => clamp_start (StartCol_dtype T) (start r))
                       (kept_rows T f)).
  { clear H. induction HF as [|r rec rs recs (_ & Sr & _) _ IH];
      [reflexivity|].
    cbn [map]. rewrite Sr, IH. reflexivity. }
  split; [|split].
  - intros [Hd _]. rewrite Hmap, Hd. reflexivity.
  - intros [Hd _] Hpos.
    assert (Hkept : Forall (fun r => (0 <= start r)%Z) (kept_rows T f)).
    { apply Forall_forall. intros r Hr. unfold kept_rows in Hr.
      apply in_map_iff in Hr. destruct Hr as [p [<- Hp]].
      apply sort_In in Hp. unfold ranked in Hp. apply in_flat_map in Hp.
      destruct Hp as [r' [Hr' Hp]].
      destruct (cell_rank f (chrom r')); simpl in Hp;
        [destruct Hp as [<-|[]]|destruct Hp].
      rewrite Forall_forall in Hpos. apply Hpos. exact Hr'. }
    clear H Hpos Hmap.
    induction HF as [|r rec rs recs (_ & Sr & _) _ IH]; [constructor|].
    inversion Hkept as [|? ? Hr0 Hk]; subst.
    constructor; [|apply IH; exact Hk].
    rewrite Sr, Hd. unfold clamp_start.
    destruct (Z.eqb_spec (start r) 0); lia.
  - intros Hd. rewrite Hmap, Hd. reflexivity.
Qed.

Lemma Tsv2Gff3_start_witness :
  exists out,
    Tsv2Gff3 (py "dbA") sample_table sample_faidx = Some out
    /\ map Start (records out) = [10; 40; 1; 500]%Z
    /\ Forall (fun rec => (1 <= Start rec)%Z) (records out).
Proof.
  eexists. split; [vm_compute; reflexivity|].
  assert (Hint : int64_starts sample_table).
  { split; [reflexivity|].
    repeat (apply Forall_cons; [unfold int64; cbn; lia|]). apply Forall_nil. }
  destruct (@Tsv2Gff3_start (py "dbA") sample_table sample_faidx _ eq_refl)
    as (H1 & H2 & _).
  split; [exact (H1 Hint)|].
  apply (H2 Hint).
  repeat (apply Forall_cons; [cbn; lia|]). apply Forall_nil.
Defined.

(** C6, the claim as stated fails: a start of -5 is written as it is. *)
Lemma negative_start_is_written :
  exists out,
    Tsv2Gff3 (py "dbA") negative_start_table sample_faidx = Some out
    /\ map Start (records out) = [(-5)%Z]
    /\ ~ Forall (fun rec => (1 <= Start rec)%Z) (records out).
Proof.
  eexists. split; [vm_compute; reflexivity|].
  split; [reflexivity|].
  intros H. inversion H as [|? ? H1 _]; subst. simpl in H1. lia.
Qed.

End Gff3Facts.

(* ------------------------------------------------------------------ *)
(** * [json.loads] after [json.dumps] *)

Module JsonFacts.
Import Json PyFacts DictFacts.

(** ** Escapes *)

Lemma hexval_lower (d : N) : d < 16 -> hexval (hexdig_lower d) = Some d.
Proof.
  intros H. unfold hexval, hexdig_lower.
  destruct (N.ltb_spec d 10).
  - replace ((48 <=? 48 + d) && (48 + d <=? 57)) with true
      by (symmetry; apply andb_true_iff; split; apply N.leb_le; lia).
    f_equal. lia.
  - replace ((48 <=? 87 + d) && (87 + d <=? 57)) with false
      by (symmetry; apply andb_false_iff; right; apply N.leb_gt; lia).
    replace ((97 <=? 87 + d) && (87 + d <=? 102)) with true
      by (symmetry; apply andb_true_iff; split; apply N.leb_le; lia).
    f_equal. lia.
Qed.

Lemma hexdig_lower_ascii (d : N) : d < 16 -> 48 <= hexdig_lower d <= 102.
Proof.
  intros H. unfold hexdig_lower. destruct (N.ltb_spec d 10); lia.
Qed.

Lemma hex4_u_escape (n : N) :
  n < 65536 ->
  hex4 (hexdig_lower (n / 4096 mod 16)) (hexdig_lower (n / 256 mod 16))
       (hexdig_lower (n / 16 mod 16)) (hexdig_lower (n mod 16)) = Some n.
Proof.
  intros H. unfold hex4.
  rewrite !hexval_lower by lia.
  f_equal. lia.
Qed.

Lemma scanstring_u (h1 h2 h3 h4 : N) (r2 : pystr) :
  scanstring (92 :: 117 :: h1 :: h2 :: h3 :: h4 :: r2)
  = match hex4 h1 h2 h3 h4 with
    | None => None
    | Some u =>
        if is_high_surrogate u then
          match r2 with
          | b1 :: b2 :: k1 :: k2 :: k3 :: k4 :: r3 =>
              if (b1 =? 92) && (b2 =? 117) then
                match hex4 k1 k2 k3 k4 with
                | None => None
                | Some u2 =>
                    if is_low_surrogate u2
                    then consS (join_surrogates u u2) (scanstring r3)
                    else consS u (scanstring r2)
                end
              else consS u (scanstring r2)
          | _ => consS u (scanstring r2)
          end
        else consS u (scanstring r2)
    end.
Proof. reflexivity. Qed.

Lemma scanstring_literal (c : N) (r : pystr) :
  c <> 34 -> c <> 92 -> 32 <= c ->
  scanstring (c :: r) = consS c (scanstring r).
Proof.
  intros H1 H2 H3. cbn [scanstring].
  apply N.eqb_neq in H1. apply N.eqb_neq in H2. rewrite H1, H2.
  replace (c <? 32) with false by (symmetry; apply N.ltb_ge; exact H3).
  reflexivity.
Qed.

Lemma scanstring_bmp (n : N) (r : pystr) :
  n < 65536 -> is_high_surrogate n = false ->
  scanstring (u_escape n ++ r) = consS n (scanstring r).
Proof.
  intros H Hs. unfold u_escape. cbn [app].
  rewrite scanstring_u, hex4_u_escape by assumption.
  rewrite Hs. reflexivity.
Qed.

Lemma scanstring_pair (c : N) (r : pystr) :
  65536 <= c -> c < 1114112 ->
  scanstring (u_escape (55296 + (c - 65536) / 1024 mod 1024)
              ++ u_escape (56320 + (c - 65536) mod 1024) ++ r)
  = consS c (scanstring r).
Proof.
  intros H1 H2.
  set (hi := 55296 + (c - 65536) / 1024 mod 1024).
  set (lo := 56320 + (c - 65536) mod 1024).
  assert (Hhi : 55296 <= hi <= 56319) by (unfold hi; lia).
  assert (Hlo : 56320 <= lo <= 57343) by (unfold lo; lia).
  unfold u_escape at 1. cbn [app].
  rewrite scanstring_u, hex4_u_escape by lia.
  replace (is_high_surrogate hi) with true
    by (symmetry; apply andb_true_iff; split; apply N.leb_le; lia).
  unfold u_escape. cbn [app]. cbn [N.eqb Pos.eqb andb].
  rewrite hex4_u_escape by lia.
  replace (is_low_surrogate lo) with true
    by (symmetry; apply andb_true_iff; split; apply N.leb_le; lia).
  f_equal. unfold join_surrogates, hi, lo. lia.
Qed.

Lemma consS_Some (c : N) (s rest : pystr) :
  consS c (Some (s, rest)) = Some (c :: s, rest).
Proof. reflexivity. Qed.

(** The scanner reads back what the encoder wrote, one character at a
    time. *)
Lemma scanstring_escape_char (c : N) (r : pystr) :
  scalar c ->
  scanstring (escape_char c ++ r) = consS c (scanstring r).
Proof.
  intros Hc. unfold escape_char.
  destruct (N.eqb_spec c 34) as [->|H34]; [reflexivity|].
  destruct (N.eqb_spec c 92) as [->|H92]; [reflexivity|].
  destruct (N.eqb_spec c 10) as [->|H10]; [reflexivity|].
  destruct (N.eqb_spec c 13) as [->|H13]; [reflexivity|].
  destruct (N.eqb_spec c 9) as [->|H9]; [reflexivity|].
  destruct (N.eqb_spec c 8) as [->|H8]; [reflexivity|].
  destruct (N.eqb_spec c 12) as [->|H12]; [reflexivity|].
  destruct ((32 <=? c) && (c <=? 126)) eqn:Elit.
  - apply andb_true_iff in Elit. destruct Elit as [E1 E2].
    apply N.leb_le in E1. cbn [app].
    apply scanstring_literal; assumption.
  - destruct (N.ltb_spec c 65536) as [Hlt|Hge].
    + apply scanstring_bmp; [assumption|].
      unfold is_high_surrogate. apply andb_false_iff.
      destruct Hc as [Hc|[Hc _]]; [left|right]; apply N.leb_gt; lia.
    + rewrite <- app_assoc. apply scanstring_pair; [assumption|].
      destruct Hc as [Hc|[_ Hc]]; lia.
Qed.

Lemma scanstring_escape (s rest : pystr) :
  Forall scalar s ->
  scanstring (flat_map escape_char s ++ 34 :: rest) = Some (s, rest).
Proof.
  induction 1 as [|c r Hc _ IH]; [reflexivity|].
  cbn [flat_map]. rewrite <- app_assoc.
  rewrite scanstring_escape_char by assumption.
  rewrite IH. reflexivity.
Qed.


(** ** Numbers *)

Lemma str_of_N_zero : str_of_N 0 = [48].
Proof. reflexivity. Qed.

Lemma str_of_N_head (n : N) :
  n <> 0 -> exists c r, str_of_N n = c :: r /\ 49 <= c <= 57.
Proof.
  apply (digits_ind
           (fun n s => n <> 0 -> exists c r, s = c :: r /\ 49 <= c <= 57)).
  - intros m Hm Hne. exists (48 + m), []. split; [reflexivity|lia].
  - intros m s Hm IH _.
    destruct IH as (c & r & -> & Hc); [lia|].
    exists c, (r ++ [48 + m mod 10]). split; [reflexivity|exact Hc].
Qed.

Lemma scan_digs_stop (U : unicode_db) (a : N) (k : nat) (rest : pystr) :
  no_digit_ahead rest -> scan_digs U a k rest = (a, k, rest).
Proof.
  destruct rest as [|c r]; intros H; [reflexivity|].
  cbn [scan_digs]. unfold decimal_value. simpl in H.
  assert (Hc : (c <? 128) = true) by (apply N.ltb_lt; lia). rewrite Hc.
  replace ((48 <=? c) && (c <=? 57)) with false; [reflexivity|].
  symmetry. apply andb_false_iff.
  destruct H as [H|[H _]]; [left|right]; apply N.leb_gt; lia.
Qed.

Lemma scan_digs_str_of_N (U : unicode_db) (n : N) (k : nat) (rest : pystr) :
  scan_digs U 0 k (str_of_N n ++ rest)
  = scan_digs U n (k + List.length (str_of_N n)) rest.
Proof.
  revert k rest.
  apply (digits_ind
           (fun n s => forall k rest,
                scan_digs U 0 k (s ++ rest)
                = scan_digs U n (k + List.length s) rest)).
  - intros m Hm k rest. cbn [app scan_digs List.length].
    rewrite decimal_value_digit by lia.
    replace (10 * 0 + (48 + m - 48)) with m by lia.
    replace (k + 1)%nat with (S k) by lia. reflexivity.
  - intros m s Hm IH k rest. rewrite <- app_assoc, IH.
    cbn [app scan_digs]. rewrite decimal_value_digit by lia.
    rewrite length_app. cbn [List.length].
    replace (10 * (m / 10) + (48 + m mod 10 - 48)) with m by lia.
    replace (k + (List.length s + 1))%nat with (S (k + List.length s)) by lia.
    reflexivity.
Qed.

Lemma delimited_no_digit (rest : pystr) :
  delimited rest -> no_digit_ahead rest.
Proof.
  destruct rest as [|c r]; simpl; [tauto|]. lia.
Qed.

Lemma delimited_not_float (rest : pystr) :
  delimited rest -> float_follows rest = false.
Proof.
  destruct rest as [|c r]; simpl; [tauto|].
  intros [->| ->]; reflexivity.
Qed.

Lemma match_number_digits (neg : bool) (n : N) (rest : pystr) :
  delimited rest ->
  match_number ((if neg then [45] else []) ++ str_of_N n ++ rest)
  = Some (JInt (if neg then - Z.of_N n else Z.of_N n)%Z, rest).
Proof.
  intros Hd.
  assert (Hbody :
            match str_of_N n ++ rest with
            | c :: r =>
                let? (n0, rest0) :=
                  (if c =? 48 then Some (0, r)
                   else if is_digit c
                        then let '(n0, _, rest0) :=
                               scan_digs ascii_only 0 0 (str_of_N n ++ rest) in
                             Some (n0, rest0)
                        else None) in
                if float_follows rest0 then None
                else Some (JInt (if neg then - Z.of_N n0 else Z.of_N n0)%Z,
                           rest0)
            | [] => None
            end
            = Some (JInt (if neg then - Z.of_N n else Z.of_N n)%Z, rest)).
  { destruct (N.eq_dec n 0) as [->|Hn].
    - rewrite str_of_N_zero. cbn [app N.eqb Pos.eqb].
      rewrite delimited_not_float by assumption. reflexivity.
    - destruct (str_of_N_head Hn) as (c & r & E & Hc).
      rewrite scan_digs_str_of_N.
      rewrite scan_digs_stop by (apply delimited_no_digit; assumption).
      rewrite E. cbn [app].
      replace (c =? 48) with false by (symmetry; apply N.eqb_neq; lia).
      replace (is_digit c) with true
        by (symmetry; apply andb_true_iff; split; apply N.leb_le; lia).
      rewrite delimited_not_float by assumption. reflexivity. }
  unfold match_number. destruct neg; cbn [app].
  - cbn [N.eqb Pos.eqb]. exact Hbody.
  - destruct (str_of_N n ++ rest) as [|c r] eqn:E.
    + exfalso. destruct (str_of_N n) eqn:E'; [|discriminate].
      eapply str_of_N_nonempty; eassumption.
    + assert (Hc : c <> 45).
      { pose proof (str_of_N_digits n) as Hdig.
        destruct (str_of_N n) as [|c' r'] eqn:E'.
        - exfalso. eapply str_of_N_nonempty; eassumption.
        - injection E as <- _. inversion Hdig; subst. lia. }
      apply N.eqb_neq in Hc. rewrite Hc. exact Hbody.
Qed.

Lemma str_of_int_shape (z : Z) :
  exists (neg : bool) (n : N),
    str_of_int z = (if neg then [45] else []) ++ str_of_N n
    /\ z = (if neg then - Z.of_N n else Z.of_N n)%Z.
Proof.
  destruct z as [|p|p].
  - exists false, 0. split; reflexivity.
  - exists false, (Npos p). split; reflexivity.
  - exists true, (Npos p). split; reflexivity.
Qed.

Lemma str_of_int_head (z : Z) :
  exists c r, str_of_int z = c :: r /\ (c = 45 \/ 48 <= c <= 57).
Proof.
  destruct (str_of_int_shape z) as (neg & n & -> & _).
  pose proof (str_of_N_digits n) as Hd.
  destruct (str_of_N n) as [|c r] eqn:E.
  - exfalso. eapply str_of_N_nonempty; eassumption.
  - inversion Hd; subst.
    destruct neg; cbn [app]; eexists; eexists; split;
      try reflexivity; lia.
Qed.

(** ** Values, members, objects *)

Lemma scan_once_dumps_value (v : jvalue) (rest : pystr) :
  wf_value v -> delimited rest ->
  scan_once (dumps_value v ++ rest) = Some (v, rest).
Proof.
  intros Hv Hd. destruct v as [s|z|[|]|]; try reflexivity.
  - cbn [dumps_value]. unfold encode_basestring_ascii. cbn [app].
    cbn [scan_once N.eqb Pos.eqb]. rewrite <- app_assoc. cbn [app].
    rewrite scanstring_escape by exact Hv. reflexivity.
  - cbn [dumps_value].
    destruct (str_of_int_head z) as (c & r & E & Hc).
    destruct (str_of_int_shape z) as (neg & n & E' & Hz).
    assert (Hso : scan_once (str_of_int z ++ rest)
                  = match_number (str_of_int z ++ rest)).
    { rewrite E. cbn [app scan_once].
      replace (c =? 34) with false by (symmetry; apply N.eqb_neq; lia).
      replace (c =? 110) with false by (symmetry; apply N.eqb_neq; lia).
      replace (c =? 116) with false by (symmetry; apply N.eqb_neq; lia).
      replace (c =? 102) with false by (symmetry; apply N.eqb_neq; lia).
      reflexivity. }
    rewrite Hso, E', <- app_assoc, match_number_digits by assumption.
    rewrite <- Hz. reflexivity.
Qed.

Lemma dumps_value_head (v : jvalue) :
  exists c r, dumps_value v = c :: r /\ is_ws c = false.
Proof.
  destruct v as [s|z|[|]|].
  - eexists; eexists; split; reflexivity.
  - destruct (str_of_int_head z) as (c & r & E & Hc).
    exists c, r. split; [exact E|].
    unfold is_ws.
    replace (c =? 32) with false by (symmetry; apply N.eqb_neq; lia).
    replace (c =? 9) with false by (symmetry; apply N.eqb_neq; lia).
    replace (c =? 10) with false by (symmetry; apply N.eqb_neq; lia).
    replace (c =? 13) with false by (symmetry; apply N.eqb_neq; lia).
    reflexivity.
  - eexists; eexists; split; reflexivity.
  - eexists; eexists; split; reflexivity.
  - eexists; eexists; split; reflexivity.
Qed.

Lemma skip_ws_dumps_value (v : jvalue) (rest : pystr) :
  skip_ws (dumps_value v ++ rest) = dumps_value v ++ rest.
Proof.
  destruct (dumps_value_head v) as (c & r & -> & Hc).
  cbn [app skip_ws]. rewrite Hc. reflexivity.
Qed.

Lemma dumps_items_true (k : pystr) (v : jvalue) (r : dict) :
  dumps_items true ((k, v) :: r) ++ [125] = members_text k v r.
Proof.
  unfold members_text. cbn [dumps_items app].
  rewrite <- !app_assoc. reflexivity.
Qed.

Lemma dumps_items_false (k : pystr) (v : jvalue) (r : dict) :
  dumps_items false ((k, v) :: r) ++ [125] = 44 :: 32 :: members_text k v r.
Proof.
  unfold members_text. cbn [dumps_items]. change (py ", ") with [44; 32].
  cbn [app]. rewrite <- !app_assoc. reflexivity.
Qed.

Lemma items_delimited (r : dict) (tail : pystr) :
  delimited ((dumps_items false r ++ [125]) ++ tail).
Proof.
  destruct r as [|[k v] r'].
  - right. reflexivity.
  - rewrite dumps_items_false. left. reflexivity.
Qed.

Lemma parse_members_text (r : dict) :
  forall (k : pystr) (v : jvalue) (d : dict) (fuel : nat) (tail : pystr),
    Forall scalar k -> wf_value v ->
    Forall (fun kv => Forall scalar (fst kv) /\ wf_value (snd kv)) r ->
    (List.length r < fuel)%nat ->
    parse_members fuel d (members_text k v r ++ tail)
    = Some (fold_left (fun acc kv => Dict.set acc (fst kv) (snd kv))
                      ((k, v) :: r) d, tail).
Proof.
  induction r as [|[k' v'] r' IH]; intros k v d fuel tail Hk Hv Hr Hf;
    (destruct fuel as [|f]; [simpl in Hf; lia|]).
  - unfold members_text, encode_basestring_ascii.
    cbn [dumps_items app]. rewrite <- !app_assoc. cbn [app].
    cbn [parse_members N.eqb Pos.eqb].
    rewrite scanstring_escape by assumption.
    change (py ": ") with [58; 32]. cbn [app skip_ws is_ws N.eqb Pos.eqb orb].
    rewrite skip_ws_dumps_value.
    rewrite scan_once_dumps_value; [|assumption|right; reflexivity].
    cbn [skip_ws is_ws N.eqb Pos.eqb orb fold_left fst snd]. reflexivity.
  - inversion Hr as [|? ? [Hk' Hv'] Hr']; subst. cbn [fst snd] in *.
    unfold members_text at 1. unfold encode_basestring_ascii.
    rewrite dumps_items_false.
    rewrite <- !app_assoc. cbn [app].
    cbn [parse_members N.eqb Pos.eqb].
    rewrite <- !app_assoc. cbn [app].
    rewrite scanstring_escape by assumption.
    change (py ": ") with [58; 32]. cbn [app skip_ws is_ws N.eqb Pos.eqb orb].
    rewrite skip_ws_dumps_value.
    rewrite scan_once_dumps_value; [|assumption|left; reflexivity].
    cbn [skip_ws is_ws N.eqb Pos.eqb orb].
    assert (Hskip : skip_ws (members_text k' v' r' ++ tail)
                    = members_text k' v' r' ++ tail) by reflexivity.
    rewrite Hskip.
    rewrite IH; [reflexivity|assumption|assumption|assumption|].
    simpl in Hf. lia.
Qed.

Lemma dumps_items_length (first : bool) (d : dict) :
  (List.length d <= List.length (dumps_items first d))%nat.
Proof.
  revert first. induction d as [|[k v] r IH]; intros first; [simpl; lia|].
  cbn [dumps_items]. rewrite !length_app.
  unfold encode_basestring_ascii. cbn [List.length].
  specialize (IH false). simpl. lia.
Qed.

(** Reading a row back gives the dictionary that its pairs build. *)
Lemma loads_dumps_fold (d : dict) :
  Forall (fun kv => Forall scalar (fst kv) /\ wf_value (snd kv)) d ->
  loads (dumps d)
  = Some (fold_left (fun acc kv => Dict.set acc (fst kv) (snd kv)) d []).
Proof.
  intros Hwf. unfold dumps, loads.
  cbn [skip_ws is_ws N.eqb Pos.eqb orb].
  destruct d as [|[k v] r]; [reflexivity|].
  inversion Hwf as [|? ? [Hk Hv] Hr]; subst. cbn [fst snd] in *.
  unfold parse_object.
  rewrite dumps_items_true.
  assert (Hskip : skip_ws (members_text k v r) = members_text k v r)
    by reflexivity.
  rewrite Hskip.
  assert (Hshape : exists t, members_text k v r = 34 :: t).
  { unfold members_text, encode_basestring_ascii. eexists. reflexivity. }
  destruct Hshape as [t Ht]. rewrite Ht. cbn [N.eqb Pos.eqb].
  rewrite <- Ht.
  rewrite <- (app_nil_r (members_text k v r)) at 2.
  rewrite parse_members_text; try assumption.
  - reflexivity.
  - rewrite <- dumps_items_true. rewrite length_app. cbn [List.length].
    pose proof (dumps_items_length true ((k, v) :: r)) as Hl.
    simpl in Hl. simpl. lia.
Qed.

Lemma loads_dumps (d : dict) : wf_dict d -> loads (dumps d) = Some d.
Proof.
  intros [Hnd Hwf]. rewrite loads_dumps_fold by assumption.
  rewrite fold_set_nodup; [reflexivity|exact Hnd].
Qed.

End JsonFacts.

(* ------------------------------------------------------------------ *)
(** * The payload: encoding by [Tsv2Gff3], decoding by [CureBase] *)

Module PayloadFacts.
Import Json Codec PyFacts DictFacts JsonFacts.

Lemma utf8_encode_ascii (s : pystr) : is_ascii s -> utf8_encode s = Some s.
Proof.
  induction 1 as [|c r Hc _ IH]; [reflexivity|].
  cbn [utf8_encode]. unfold utf8_encode_char.
  apply N.ltb_lt in Hc. rewrite Hc, IH. reflexivity.
Qed.

Lemma utf8_decode_ascii (s : pystr) : is_ascii s -> utf8_decode s = Some s.
Proof.
  induction 1 as [|c r Hc _ IH]; [reflexivity|].
  cbn [utf8_decode]. apply N.ltb_lt in Hc. rewrite Hc, IH. reflexivity.
Qed.

Lemma u_escape_ascii (n : N) : is_ascii (u_escape n).
Proof.
  unfold u_escape.
  repeat constructor;
    match goal with
    | |- context [hexdig_lower ?d] =>
        assert (d < 16) by lia;
        pose proof (@hexdig_lower_ascii d ltac:(lia)); lia
    end.
Qed.

Lemma escape_char_ascii (c : N) : is_ascii (escape_char c).
Proof.
  unfold escape_char.
  destruct (c =? 34); [repeat constructor; lia|].
  destruct (c =? 92); [repeat constructor; lia|].
  destruct (c =? 10); [repeat constructor; lia|].
  destruct (c =? 13); [repeat constructor; lia|].
  destruct (c =? 9); [repeat constructor; lia|].
  destruct (c =? 8); [repeat constructor; lia|].
  destruct (c =? 12); [repeat constructor; lia|].
  destruct ((32 <=? c) && (c <=? 126)) eqn:E.
  - apply andb_true_iff in E. destruct E as [_ H].
    apply N.leb_le in H. repeat constructor. lia.
  - destruct (c <? 65536); [apply u_escape_ascii|].
    apply Forall_app. split; apply u_escape_ascii.
Qed.

Lemma encode_basestring_ascii_ascii (s : pystr) :
  is_ascii (encode_basestring_ascii s).
Proof.
  unfold encode_basestring_ascii. constructor; [lia|].
  apply Forall_app. split; [|repeat constructor; lia].
  induction s as [|c r IH]; [constructor|].
  cbn [flat_map]. apply Forall_app. split; [apply escape_char_ascii|exact IH].
Qed.

Lemma str_of_int_ascii (z : Z) : is_ascii (str_of_int z).
Proof.
  destruct (str_of_int_shape z) as (neg & n & -> & _).
  apply Forall_app. split.
  - destruct neg; repeat constructor; lia.
  - eapply Forall_impl; [|apply str_of_N_digits]. intros c Hc. cbv beta in Hc.
    lia.
Qed.

Lemma dumps_value_ascii (v : jvalue) : is_ascii (dumps_value v).
Proof.
  destruct v as [s|z|[|]|]; cbn [dumps_value].
  - apply encode_basestring_ascii_ascii.
  - apply str_of_int_ascii.
  - repeat constructor; lia.
  - repeat constructor; lia.
  - repeat constructor; lia.
Qed.

(** With [ensure_ascii] the text of a row is ASCII. *)
Lemma dumps_ascii (d : dict) : is_ascii (dumps d).
Proof.
  unfold dumps. constructor; [lia|].
  apply Forall_app. split; [|repeat constructor; lia].
  generalize true. induction d as [|[k v] r IH]; intros first; [constructor|].
  cbn [dumps_items]. repeat (apply Forall_app; split).
  - destruct first; repeat constructor; lia.
  - apply encode_basestring_ascii_ascii.
  - repeat constructor; lia.
  - apply dumps_value_ascii.
  - apply IH.
Qed.

Lemma b16val_upper (d : N) : d < 16 -> b16val (hexdig_upper d) = Some d.
Proof.
  intros H. unfold b16val, hexdig_upper.
  destruct (N.ltb_spec d 10).
  - replace ((48 <=? 48 + d) && (48 + d <=? 57)) with true
      by (symmetry; apply andb_true_iff; split; apply N.leb_le; lia).
    f_equal. lia.
  - replace ((48 <=? 55 + d) && (55 + d <=? 57)) with false
      by (symmetry; apply andb_false_iff; right; apply N.leb_gt; lia).
    replace ((65 <=? 55 + d) && (55 + d <=? 70)) with true
      by (symmetry; apply andb_true_iff; split; apply N.leb_le; lia).
    f_equal. lia.
Qed.

Lemma hexdig_upper_hex (d : N) :
  d < 16 -> 48 <= hexdig_upper d <= 57 \/ 65 <= hexdig_upper d <= 70.
Proof.
  intros H. unfold hexdig_upper. destruct (N.ltb_spec d 10); lia.
Qed.

Lemma b16decode_b16encode (b : bytes) :
  Forall (fun x => x < 256) b -> b16decode (b16encode b) = Some b.
Proof.
  induction 1 as [|x r Hx _ IH]; [reflexivity|].
  cbn [b16encode flat_map app b16decode].
  fold (b16encode r).
  rewrite !b16val_upper by lia. rewrite IH.
  f_equal. f_equal. lia.
Qed.

Lemma b16encode_hex (b : bytes) :
  Forall (fun x => x < 256) b -> is_hex (b16encode b).
Proof.
  induction 1 as [|x r Hx _ IH]; [constructor|].
  cbn [b16encode flat_map app]. fold (b16encode r).
  constructor; [apply hexdig_upper_hex; lia|].
  constructor; [apply hexdig_upper_hex; lia|exact IH].
Qed.

Lemma hex_ascii (s : pystr) : is_hex s -> is_ascii s.
Proof.
  intros H. eapply Forall_impl; [|exact H]. intros c Hc. cbv beta in Hc. lia.
Qed.

Lemma hex_no_sep (sep : N) (s : pystr) :
  sep = 61 \/ sep = 44 -> is_hex s -> Forall (fun c => c <> sep) s.
Proof.
  intros Hsep H. eapply Forall_impl; [|exact H]. intros c Hc.
  cbv beta in Hc. lia.
Qed.

(** The hexadecimal text of a row. *)
Lemma encode_attributes_hex (d : dict) :
  Gff3.encode_attributes d = Some (py "ID=" ++ b16encode (dumps d)).
Proof.
  unfold Gff3.encode_attributes.
  rewrite utf8_encode_ascii by apply dumps_ascii.
  rewrite utf8_decode_ascii; [reflexivity|].
  apply hex_ascii, b16encode_hex.
  eapply Forall_impl; [|apply dumps_ascii]. intros c Hc. cbv beta in Hc. lia.
Qed.

Lemma decode_item_hex (d : dict) :
  wf_dict d -> CureBase.decode_item (b16encode (dumps d)) = Some d.
Proof.
  intros Hwf. unfold CureBase.decode_item.
  assert (Hb : Forall (fun x => x < 256) (dumps d)).
  { eapply Forall_impl; [|apply dumps_ascii]. intros c Hc. cbv beta in Hc.
    lia. }
  rewrite utf8_encode_ascii by (apply hex_ascii, b16encode_hex; exact Hb).
  rewrite b16decode_b16encode by exact Hb.
  rewrite utf8_decode_ascii by apply dumps_ascii.
  apply loads_dumps. exact Hwf.
Qed.

(** X1. For every key/value map of a row (distinct keys, text of Unicode
    scalar values, values that are strings, integers, booleans or None),
    the payload that [Tsv2Gff3] writes (the row as JSON, in hexadecimal,
    after the tag "ID=") is decoded by [CureBase] (tag stripped, hexadecimal
    read, JSON parsed) to the list that holds exactly that map; and two maps
    with the same payload are the same map. *)
Theorem payload_round_trip (d : dict) :
  wf_dict d ->
  (exists payload,
      Gff3.encode_attributes d = Some payload
      /\ CureBase.decode_cell (CureBase.CStr payload)
         = Some (CureBase.CDecoded [d]))
  /\ (forall d', wf_dict d' ->
                 Gff3.encode_attributes d' = Gff3.encode_attributes d ->
                 d' = d).
Proof.
  intros Hwf.
  assert (Hdec : forall e, wf_dict e ->
            CureBase.decode_cell
              (CureBase.CStr (py "ID=" ++ b16encode (dumps e)))
            = Some (CureBase.CDecoded [e])).
  { intros e He. unfold CureBase.decode_cell.
    assert (Hhex : is_hex (b16encode (dumps e))).
    { apply b16encode_hex. eapply Forall_impl; [|apply dumps_ascii].
      intros c Hc. cbv beta in Hc. lia. }
    rewrite pystr_eqb_neq by discriminate.
    change (py "ID=" ++ b16encode (dumps e))
      with ([73; 68] ++ 61 :: b16encode (dumps e)).
    rewrite split_app_sep by (repeat constructor; lia).
    rewrite split_no_sep by (apply hex_no_sep; [left; reflexivity|exact Hhex]).
    rewrite split_no_sep by (apply hex_no_sep; [right; reflexivity|exact Hhex]).
    unfold CureBase.mapM. cbn [Gff3.mapM].
    rewrite decode_item_hex by exact He. reflexivity. }
  split.
  - exists (py "ID=" ++ b16encode (dumps d)). split.
    + apply encode_attributes_hex.
    + apply Hdec. exact Hwf.
  - intros d' Hwf' Heq. rewrite !encode_attributes_hex in Heq.
    assert (E : py "ID=" ++ b16encode (dumps d')
                = py "ID=" ++ b16encode (dumps d)) by congruence.
    pose proof (Hdec d' Hwf') as H1. pose proof (Hdec d Hwf) as H2.
    rewrite E in H1. congruence.
Qed.

Lemma payload_round_trip_witness :
  wf_dict sample_row
  /\ exists payload,
      Gff3.encode_attributes sample_row = Some payload
      /\ CureBase.decode_cell (CureBase.CStr payload)
         = Some (CureBase.CDecoded [sample_row]).
Proof.
  assert (Hwf : wf_dict sample_row).
  { split.
    - repeat constructor; simpl; intuition discriminate.
    - unfold sample_row.
      repeat (first [ apply Forall_cons | apply Forall_nil | split
                    | progress cbn [fst snd wf_value py map
                                    list_ascii_of_string] ]);
        try exact I; unfold scalar; cbn; lia. }
  split; [exact Hwf|].
  exact (proj1 (payload_round_trip Hwf)).
Defined.

End PayloadFacts.

(* ------------------------------------------------------------------ *)
(** * [CureBase]: aggregation of the overlapping intervals *)

Module AggregateFacts.
Import Json CureBase PyFacts DictFacts.

(** ** Order and equality of values *)

Lemma str_ltb_irrefl (a : pystr) : str_ltb a a = false.
Proof.
  induction a as [|x a IH]; [reflexivity|].
  cbn [str_ltb]. rewrite N.ltb_irrefl, N.eqb_refl, IH. reflexivity.
Qed.

Lemma str_ltb_trans (a b c : pystr) :
  str_ltb a b = true -> str_ltb b c = true -> str_ltb a c = true.
Proof.
  revert b c. induction a as [|x a IH]; intros [|y b] [|z c];
    cbn [str_ltb]; try discriminate; try reflexivity.
  rewrite !orb_true_iff, !andb_true_iff, !N.ltb_lt, !N.eqb_eq.
  intros [H1|[H1 H1']] [H2|[H2 H2']].
  - left. lia.
  - left. lia.
  - left. lia.
  - right. split; [lia|]. eapply IH; eassumption.
Qed.

Lemma str_ltb_tri (a b : pystr) :
  str_ltb a b = false -> a <> b -> str_ltb b a = true.
Proof.
  revert b. induction a as [|x a IH]; intros [|y b]; cbn [str_ltb];
    try discriminate; try congruence; try reflexivity.
  rewrite orb_false_iff, andb_false_iff, N.ltb_ge, N.eqb_neq.
  intros [H1 H2] Hne.
  rewrite orb_true_iff, andb_true_iff, N.ltb_lt, N.eqb_eq.
  destruct (N.eq_dec x y) as [->|Hxy]; [|left; lia].
  right. split; [reflexivity|].
  destruct H2 as [H2|H2]; [congruence|].
  apply IH; [exact H2|congruence].
Qed.

Lemma py_eq_refl (v : jvalue) : py_eq v v = true.
Proof.
  destruct v as [s|z|[|]|]; cbn; try reflexivity.
  - apply pystr_eqb_refl.
  - apply Z.eqb_refl.
Qed.

Lemma py_eq_sym (a b : jvalue) : py_eq a b = py_eq b a.
Proof.
  destruct a as [s|z|[|]|], b as [s'|z'|[|]|]; unfold py_eq;
    cbn [int_of_jvalue]; try reflexivity; try apply Z.eqb_sym.
  destruct (list_eq_dec N.eq_dec s s') as [->|Hne].
  - rewrite !pystr_eqb_refl. reflexivity.
  - rewrite !pystr_eqb_neq by congruence. reflexivity.
Qed.

Lemma py_lt_numbers (a b : jvalue) (x y : Z) :
  int_of_jvalue a = Some x -> int_of_jvalue b = Some y ->
  py_lt a b = Some (x <? y)%Z /\ py_eq a b = (x =? y)%Z.
Proof.
  destruct a as [s|z|[|]|], b as [s'|z'|[|]|]; cbn [int_of_jvalue];
    try discriminate; intros [= <-] [= <-]; split; reflexivity.
Qed.

Lemma py_lt_cases (a b : jvalue) (r : bool) :
  py_lt a b = Some r ->
  (exists s t, a = JStr s /\ b = JStr t /\ str_ltb s t = r)
  \/ (exists x y, int_of_jvalue a = Some x /\ int_of_jvalue b = Some y
                  /\ (x <? y)%Z = r).
Proof.
  destruct a as [s|z|[|]|], b as [s'|z'|[|]|]; unfold py_lt;
    cbn [int_of_jvalue]; try discriminate; intros [= H];
    try (left; eexists; eexists; repeat split; exact H);
    right; eexists; eexists; repeat split; exact H.
Qed.

Lemma py_lt_trans (a b c : jvalue) :
  value_lt a b -> value_lt b c -> value_lt a c.
Proof.
  unfold value_lt. intros H1 H2.
  apply py_lt_cases in H1. apply py_lt_cases in H2.
  destruct H1 as [(s & t & -> & -> & H1)|(x & y & Hx & Hy & H1)];
    destruct H2 as [(t' & u & Ht & -> & H2)|(y' & z & Hy' & Hz & H2)].
  - injection Ht as <-. cbn. f_equal. eapply str_ltb_trans; eassumption.
  - discriminate.
  - subst b. discriminate.
  - rewrite Hy in Hy'. injection Hy' as <-.
    destruct (py_lt_numbers _ _ Hx Hz) as [-> _]. f_equal.
    apply Z.ltb_lt. apply Z.ltb_lt in H1. apply Z.ltb_lt in H2. lia.
Qed.

Lemma py_lt_tri (x y : jvalue) :
  py_lt x y = Some false -> py_eq x y = false -> value_lt y x.
Proof.
  unfold value_lt. intros H1 H2. apply py_lt_cases in H1.
  destruct H1 as [(s & t & -> & -> & H1)|(a & b & Ha & Hb & H1)].
  - cbn in *. f_equal. apply str_ltb_tri; [exact H1|].
    intros ->. rewrite pystr_eqb_refl in H2. discriminate.
  - destruct (py_lt_numbers _ _ Ha Hb) as [_ He]. rewrite He in H2.
    destruct (py_lt_numbers _ _ Hb Ha) as [-> _]. f_equal.
    apply Z.ltb_lt. apply Z.ltb_ge in H1. apply Z.eqb_neq in H2. lia.
Qed.

(** ** [list(set(l))] and [sorted] *)

Lemma dedup_spec (l seen : list jvalue) :
  (forall v, In v (dedup seen l) -> In v l)
  /\ distinct (dedup seen l)
  /\ Forall (fun v => Forall (fun s => py_eq v s = false) seen) (dedup seen l)
  /\ (forall v, In v l ->
                exists v', (In v' seen \/ In v' (dedup seen l))
                           /\ py_eq v v' = true).
Proof.
  revert seen. induction l as [|x r IH]; intros seen; cbn [dedup].
  - split; [intros v []|]. split; [constructor|]. split; [constructor|].
    intros v [].
  - destruct (existsb (py_eq x) seen) eqn:E.
    + destruct (IH seen) as (I1 & I2 & I3 & I4).
      split; [|split; [exact I2|split; [exact I3|]]].
      * intros v Hv. right. apply I1. exact Hv.
      * intros v [<-|Hv]; [|apply I4; exact Hv].
        apply existsb_exists in E. destruct E as [s [Hs Hxs]].
        exists s. split; [left; exact Hs|exact Hxs].
    + destruct (IH (x :: seen)) as (I1 & I2 & I3 & I4).
      split; [|split; [|split]].
      * intros v [<-|Hv]; [left; reflexivity|right; apply I1; exact Hv].
      * constructor; [|exact I2].
        eapply Forall_impl; [|exact I3]. intros v Hv. cbv beta in Hv.
        inversion Hv; subst. rewrite py_eq_sym. assumption.
      * constructor.
        -- apply Forall_forall. intros s Hs.
           destruct (py_eq x s) eqn:Exs; [|reflexivity].
           assert (existsb (py_eq x) seen = true)
             by (apply existsb_exists; exists s; split; assumption).
           congruence.
        -- eapply Forall_impl; [|exact I3]. intros v Hv. cbv beta in Hv.
           inversion Hv; subst. assumption.
      * intros v [<-|Hv].
        -- exists x. split; [right; left; reflexivity|apply py_eq_refl].
        -- destruct (I4 v Hv) as [v' [[[<-|Hs]|Hd] Hv']].
           ++ exists x. split; [right; left; reflexivity|exact Hv'].
           ++ exists v'. split; [left; exact Hs|exact Hv'].
           ++ exists v'. split; [right; right; exact Hd|exact Hv'].
Qed.

Lemma insert_sorted_spec (x : jvalue) (l l' : list jvalue) :
  StronglySorted value_lt l ->
  Forall (fun y => py_eq x y = false) l ->
  insert_sorted x l = Some l' ->
  StronglySorted value_lt l' /\ (forall v, In v l' <-> v = x \/ In v l).
Proof.
  intros Hs. revert l'. induction Hs as [|y r Hs IH Hy]; intros l' Hd;
    cbn [insert_sorted].
  - intros [= <-]. split; [repeat constructor|].
    intros v. simpl. intuition congruence.
  - inversion Hd as [|? ? Hxy Hd']; subst.
    destruct (py_lt x y) as [[|]|] eqn:E; [| |discriminate].
    + intros [= <-]. split.
      * constructor; [constructor; assumption|].
        constructor; [exact E|].
        eapply Forall_impl; [|exact Hy]. intros b Hb.
        eapply py_lt_trans; eassumption.
      * intros v. simpl. intuition congruence.
    + destruct (insert_sorted x r) as [r'|] eqn:Er; [|discriminate].
      intros [= <-].
      destruct (IH r' Hd' eq_refl) as [IH1 IH2].
      split.
      * constructor; [exact IH1|].
        apply Forall_forall. intros b Hb. apply IH2 in Hb.
        destruct Hb as [->|Hb].
        -- apply py_lt_tri; assumption.
        -- rewrite Forall_forall in Hy. apply Hy. exact Hb.
      * intros v. simpl. rewrite IH2. intuition congruence.
Qed.

Lemma sorted_spec (l l' : list jvalue) :
  distinct l -> sorted l = Some l' ->
  StronglySorted value_lt l' /\ (forall v, In v l' <-> In v l).
Proof.
  intros Hd. revert l'. induction Hd as [|x r Hx Hd IH]; intros l';
    cbn [sorted].
  - intros [= <-]. split; [constructor|tauto].
  - destruct (sorted r) as [r'|] eqn:Er; [|discriminate].
    intros Hi. destruct (IH r' eq_refl) as [IH1 IH2].
    assert (Hx' : Forall (fun y => py_eq x y = false) r').
    { apply Forall_forall. intros y Hy. apply IH2 in Hy.
      rewrite Forall_forall in Hx. apply Hx. exact Hy. }
    destruct (@insert_sorted_spec x r' l' IH1 Hx' Hi) as [H1 H2].
    split; [exact H1|]. intros v. rewrite H2, IH2. simpl.
      intuition congruence.
Qed.

Lemma homogeneous_py_lt (l : list jvalue) (x : jvalue) :
  homogeneous (x :: l) -> Forall (fun y => py_lt x y <> None) l.
Proof.
  intros [H|H]; inversion H as [|? ? Hx Hl]; subst;
    (eapply Forall_impl; [|exact Hl]); intros y Hy; cbv beta in Hy.
  - destruct x, y; try discriminate; cbn; discriminate.
  - unfold is_number in *.
    destruct (int_of_jvalue x) as [a|] eqn:Ea; [|discriminate].
    destruct (int_of_jvalue y) as [b|] eqn:Eb; [|discriminate].
    destruct (py_lt_numbers _ _ Ea Eb) as [-> _]. discriminate.
Qed.

Lemma insert_sorted_total (x : jvalue) (l : list jvalue) :
  Forall (fun y => py_lt x y <> None) l ->
  exists l', insert_sorted x l = Some l'.
Proof.
  induction 1 as [|y r Hy _ IH]; cbn [insert_sorted]; [eexists; reflexivity|].
  destruct (py_lt x y) as [[|]|]; [eexists; reflexivity| |congruence].
  destruct IH as [r' ->]. eexists; reflexivity.
Qed.

Lemma homogeneous_incl (l l' : list jvalue) :
  (forall v, In v l' -> In v l) -> homogeneous l -> homogeneous l'.
Proof.
  intros Hincl [H|H]; [left|right]; apply Forall_forall; intros v Hv;
    rewrite Forall_forall in H; apply H, Hincl, Hv.
Qed.

Lemma sorted_total (l : list jvalue) :
  distinct l -> homogeneous l -> exists l', sorted l = Some l'.
Proof.
  intros Hd. induction Hd as [|x r Hx Hd IH]; intros Hh; cbn [sorted];
    [eexists; reflexivity|].
  destruct IH as [r' Er].
  { eapply homogeneous_incl; [|exact Hh]. intros v Hv. right. exact Hv. }
  rewrite Er.
  apply insert_sorted_total.
  apply (@homogeneous_py_lt r' x).
  eapply homogeneous_incl; [|exact Hh].
  destruct (sorted_spec Hd Er) as [_ Hin].
  intros v [<-|Hv]; [left; reflexivity|right; apply Hin; exact Hv].
Qed.

(** The flattened text of a list of values of one kind: its values, each
    once, in increasing order. *)
Lemma join_values_spec (vals : list jvalue) :
  homogeneous vals ->
  exists l',
    join_values vals = Some (join (py "; ") (map str_of_jvalue l'))
    /\ StronglySorted value_lt l'
    /\ (forall v, In v l' -> In v vals)
    /\ (forall v, In v vals -> exists v', In v' l' /\ py_eq v v' = true).
Proof.
  intros Hh. unfold join_values.
  destruct (dedup_spec vals []) as (D1 & D2 & _ & D4).
  destruct (@sorted_total (dedup [] vals) D2) as [l' El'].
  { eapply homogeneous_incl; [exact D1|exact Hh]. }
  destruct (sorted_spec D2 El') as [S1 S2].
  exists l'. rewrite El'. repeat split.
  - exact S1.
  - intros v Hv. apply D1, S2, Hv.
  - intros v Hv. destruct (D4 v Hv) as [v' [[[]|Hd] He]].
    exists v'. split; [apply S2; exact Hd|exact He].
Qed.


(** ** The series of a variant *)

Lemma fold_set_pairs (V : Type) (g : pystr -> pystr) (h : pystr -> V)
      (ks : list pystr) (acc : Dict.t V) :
  fold_left (fun out k => Dict.set out (g k) (h k)) ks acc
  = fold_left (fun a kv => Dict.set a (fst kv) (snd kv))
              (map (fun k => (g k, h k)) ks) acc.
Proof.
  revert acc. induction ks as [|k r IH]; intros acc; [reflexivity|].
  cbn [fold_left map fst snd]. apply IH.
Qed.

Lemma get_map_injective (V : Type) (g : pystr -> pystr) (h : pystr -> V)
      (ks : list pystr) (k : pystr) :
  (forall a b, g a = g b -> a = b) -> In k ks ->
  Dict.get (map (fun k' => (g k', h k')) ks) (g k) = Some (h k).
Proof.
  intros Hinj. induction ks as [|k0 r IH]; intros Hin; [destruct Hin|].
  cbn [map Dict.get].
  destruct (pystr_eqb (g k0) (g k)) eqn:E.
  - apply pystr_eqb_eq in E. apply Hinj in E. subst. reflexivity.
  - destruct Hin as [->|Hin]; [rewrite pystr_eqb_refl in E; discriminate|].
    apply IH. exact Hin.
Qed.

Lemma series_values (name : pystr) (LD : list dict) (ks : list pystr)
      (acc : Dict.t cell) :
  (forall dic k, In dic LD -> In k ks -> Dict.get dic k <> None) ->
  fold_left
    (fun acc k =>
       let? out := acc in
       let? vals := mapM (fun dic => Dict.get dic k) LD in
       Some (Dict.set out (name ++ py "." ++ k) (CList vals)))
    ks (Some acc)
  = Some (fold_left
            (fun out k =>
               Dict.set out (name ++ py "." ++ k) (CList (values_of LD k)))
            ks acc).
Proof.
  revert acc. induction ks as [|k r IH]; intros acc H; [reflexivity|].
  cbn [fold_left]. unfold mapM.
  rewrite (mapM_ext_in (fun dic => Dict.get dic k)
                       (fun dic => match Dict.get dic k with
                                   | Some v => v
                                   | None => JNull
                                   end)).
  - apply IH. intros dic k' Hd Hk. apply H; [exact Hd|right; exact Hk].
  - intros dic Hd. specialize (H dic k Hd (or_introl eq_refl)).
    destruct (Dict.get dic k); congruence.
Qed.

Lemma values_of_Forall2 (LD : list dict) (k : pystr) :
  (forall dic, In dic LD -> Dict.get dic k <> None) ->
  Forall2 (fun dic v => Dict.get dic k = Some v) LD (values_of LD k).
Proof.
  induction LD as [|dic r IH]; intros H; [constructor|].
  cbn [values_of map]. constructor.
  - specialize (H dic (or_introl eq_refl)).
    destruct (Dict.get dic k); congruence.
  - apply IH. intros d Hd. apply H. right. exact Hd.
Qed.

(** X8. For a variant whose overlap list is not empty,
    whose first interval carries sub-fields, and whose intervals all carry
    the sub-fields of the first (the rows of one database do), the merged
    column of each sub-field of the first interval is the text of
    ['; '.join] over the sorted, deduplicated values of that sub-field
    across the intervals: when the values are of one kind, the values in
    strictly increasing order, each once, separated by a semicolon and a
    space. *)
Theorem merged_field_aggregates (name : pystr) (LD : list dict) (k : pystr) :
  (exists p d0 rest, LD = (p :: d0) :: rest /\ In k (Dict.keys (p :: d0))) ->
  (forall dic k', In dic LD -> In k' (Dict.keys (hd [] LD)) ->
                  Dict.get dic k' <> None) ->
  let vals := values_of LD k in
  Forall2 (fun dic v => Dict.get dic k = Some v) LD vals
  /\ merged_field name LD (name ++ py "." ++ k)
     = option_map CStr (join_values vals)
  /\ (homogeneous vals ->
      exists l',
        merged_field name LD (name ++ py "." ++ k)
        = Some (CStr (join (py "; ") (map str_of_jvalue l')))
        /\ StronglySorted value_lt l'
        /\ (forall v, In v l' -> In v vals)
        /\ (forall v, In v vals -> exists v', In v' l' /\ py_eq v v' = true)).
Proof.
  intros (p & d0 & rest & -> & Hk) Hall vals. cbn [hd] in Hall.
  assert (Hm : merged_field name ((p :: d0) :: rest) (name ++ py "." ++ k)
               = option_map CStr (join_values vals)).
  { unfold merged_field, series.
    rewrite series_values by exact Hall.
    rewrite (fold_set_pairs (fun k' : pystr => name ++ py "." ++ k')
                            (fun k' => CList (values_of ((p :: d0) :: rest) k'))).
    match goal with
    | |- context [Dict.get ?d ?key] =>
        assert (Hget : Dict.get d key = Some (CList vals))
    end.
    { rewrite get_fold_set, <- map_rev.
      rewrite (get_map_injective
                 (fun k' : pystr => name ++ py "." ++ k')
                 (fun k' => CList (values_of ((p :: d0) :: rest) k'))).
      - reflexivity.
      - intros a b Hab. apply app_inv_head in Hab.
        apply app_inv_head in Hab. exact Hab.
      - apply in_rev. rewrite rev_involutive. exact Hk. }
    rewrite Hget. reflexivity. }
  split; [|split].
  - apply values_of_Forall2. intros dic Hd. apply Hall; assumption.
  - exact Hm.
  - intros Hh. destruct (join_values_spec Hh) as (l' & E & H1 & H2 & H3).
    exists l'. rewrite Hm, E. repeat split; assumption.
Qed.

Lemma merged_field_aggregates_witness :
  merged_field (py "dbA") three_intervals (py "dbA.X")
  = option_map CStr (join_values [JInt 1; JInt 2; JInt 2]).
Proof.
  refine (proj1 (proj2 (@merged_field_aggregates (py "dbA") three_intervals
                          (py "X") _ _))).
  - exists (py "X", JInt 1), [], (tl three_intervals).
    split; [reflexivity|left; reflexivity].
  - intros dic k' Hd Hk. simpl in Hk. destruct Hk as [<-|[]].
    simpl in Hd. destruct Hd as [<-|[<-|[<-|[]]]]; discriminate.
Defined.

(** C2, the claim as stated fails: the values 1, 2 and 2 of sub-field X are
    merged to "1; 2", joined by a semicolon and a space, not to "1;2". *)
Lemma three_intervals_merged_text :
  merged_field (py "dbA") three_intervals (py "dbA.X")
  = Some (CStr (py "1; 2"))
  /\ py "1; 2" <> py "1;2".
Proof.
  split; [reflexivity|discriminate].
Qed.

End AggregateFacts.

(* ------------------------------------------------------------------ *)
(** * [Tsv2Gff3]: which rows are written, and what is returned *)

Module EncoderFacts.
Import Json Codec Gff3 PyFacts DictFacts SortFacts Gff3Facts PayloadFacts.

Lemma insert_perm (A : Type) (le : A -> A -> bool) (x : A) (l : list A) :
  Permutation (Sort.insert le x l) (x :: l).
Proof.
  induction l as [|y r IH]; simpl; [reflexivity|].
  destruct (le x y); [reflexivity|].
  rewrite IH. apply perm_swap.
Qed.

Lemma sort_perm (A : Type) (le : A -> A -> bool) (l : list A) :
  Permutation (Sort.sort le l) l.
Proof.
  induction l as [|x r IH]; simpl; [reflexivity|].
  rewrite insert_perm. constructor. exact IH.
Qed.

Lemma ranked_declared (f : faidx) (rows : list tsv_row) :
  map snd (ranked f rows) = filter (declared f) rows.
Proof.
  induction rows as [|r rs IH]; [reflexivity|].
  change (ranked f (r :: rs))
    with (match cell_rank f (chrom r) with
          | Some k => [(k, r)]
          | None => []
          end ++ ranked f rs).
  rewrite map_app, IH. cbn [filter]. unfold declared at 2.
  destruct (cell_rank f (chrom r)); reflexivity.
Qed.

Lemma kept_rows_perm (T : tsv_table) (f : faidx) :
  Permutation (kept_rows T f) (filter (declared f) (tsv_rows T)).
Proof.
  unfold kept_rows. rewrite <- ranked_declared.
  apply Permutation_map. apply sort_perm.
Qed.

Lemma emit_record_of (dbName : pystr) (T : tsv_table) (f : faidx)
      (p : nat * tsv_row) :
  cell_rank f (chrom (snd p)) = Some (fst p) ->
  emit dbName (AttributeCols T) (StartCol_dtype T) p
  = Some (record_of dbName T f (snd p)).
Proof.
  intros H. unfold emit, record_of. rewrite encode_attributes_hex, H.
  reflexivity.
Qed.

(** The warning raises exactly when a contig of the table is not text. *)
Lemma warning_None_iff (f : faidx) (rows : list tsv_row) :
  warning (Filtered f rows) = None
  <-> exists r, In r rows /\ named r = false.
Proof.
  unfold warning, Filtered, named.
  induction rows as [|r rs IH]; cbn [map filter].
  - split; [discriminate|intros (r & [] & _)].
  - destruct (chrom r) as [s|] eqn:Ec; cbn [cell_rank].
    + assert (Hstep :
          Gff3.mapM (fun c => match c with
                              | Name s0 => Some s0
                              | NotText => None
                              end)
            (if match Dict.get (Chroms f) s with
                | Some _ => false
                | None => true
                end
             then Name s :: filter (fun c => match cell_rank f c with
                                             | Some _ => false
                                             | None => true
                                             end) (map chrom rs)
             else filter (fun c => match cell_rank f c with
                                   | Some _ => false
                                   | None => true
                                   end) (map chrom rs)) = None
          <-> Gff3.mapM (fun c => match c with
                                  | Name s0 => Some s0
                                  | NotText => None
                                  end)
                (filter (fun c => match cell_rank f c with
                                  | Some _ => false
                                  | None => true
                                  end) (map chrom rs)) = None).
      { destruct (Dict.get (Chroms f) s); [reflexivity|].
        cbn [Gff3.mapM]. destruct (Gff3.mapM _ _); cbn; split; congruence. }
      rewrite Hstep, IH. split.
      * intros (r' & Hin & Hn). exists r'. split; [right; exact Hin|exact Hn].
      * intros (r' & [<-|Hin] & Hn); [rewrite Ec in Hn; discriminate|].
        exists r'. split; assumption.
    + cbn [Gff3.mapM]. split; [|reflexivity].
      intros _. exists r. split; [left; reflexivity|]. rewrite Ec.
      reflexivity.
Qed.

Lemma Tsv2Gff3_unfold (dbName : pystr) (T : tsv_table) (f : faidx) :
  Tsv2Gff3 dbName T f
  = match warning (Filtered f (tsv_rows T)) with
    | None => None
    | Some _ =>
        match kept_rows T f with
        | [] => None
        | rows =>
            Some {| sequence_regions := f;
                    records := map (record_of dbName T f) rows;
                    expected_cols :=
                      match AttributeCols T with
                      | [] => [dbName]
                      | cols => map (fun c => dbName ++ py "." ++ c) cols
                      end |}
        end
    end.
Proof.
  unfold Tsv2Gff3, kept_rows.
  destruct (warning (Filtered f (tsv_rows T))); [|reflexivity]. cbn.
  assert (Hr : forall p,
             In p (Sort.sort (key_leb (StartCol_dtype T))
                             (ranked f (tsv_rows T))) ->
             cell_rank f (chrom (snd p)) = Some (fst p)).
  { intros p Hp. apply sort_In in Hp. eapply ranked_rank. exact Hp. }
  destruct (Sort.sort _ (ranked f (tsv_rows T))) as [|p ps];
    [reflexivity|].
  rewrite (mapM_ext_in _ (fun p => record_of dbName T f (snd p))).
  - rewrite <- map_map. reflexivity.
  - intros x Hx. apply emit_record_of. apply Hr. exact Hx.
Qed.

(** X3. [Tsv2Gff3] raises exactly when a contig of the table is not text
    (the warning about undeclared contigs cannot be written then) or the
    reference declares the contig of no row of the table; sorting the rows
    and encoding what they hold does not fail. *)
Theorem Tsv2Gff3_raises_iff (dbName : pystr) (T : tsv_table) (f : faidx) :
  Tsv2Gff3 dbName T f = None
  <-> (exists r, In r (tsv_rows T) /\ named r = false)
      \/ (forall r, In r (tsv_rows T) -> declared f r = false).
Proof.
  rewrite Tsv2Gff3_unfold, <- (warning_None_iff f).
  pose proof (kept_rows_perm T f) as Hp.
  destruct (warning (Filtered f (tsv_rows T))) as [names|].
  2:{ split; [left; reflexivity|reflexivity]. }
  split.
  - intros H. right. intros r Hr.
    destruct (kept_rows T f) as [|r0 rs]; [|discriminate].
    apply Permutation_nil in Hp.
    destruct (declared f r) eqn:E; [|reflexivity].
    assert (Hin : In r (filter (declared f) (tsv_rows T)))
      by (apply filter_In; split; assumption).
    rewrite Hp in Hin. destruct Hin.
  - intros [H|H]; [discriminate H|].
    destruct (kept_rows T f) as [|r0 rs]; [reflexivity|].
    exfalso.
    assert (Hin : In r0 (filter (declared f) (tsv_rows T))).
    { eapply Permutation_in; [exact Hp|left; reflexivity]. }
    apply filter_In in Hin. destruct Hin as [Hr Hd].
    rewrite (H r0 Hr) in Hd. discriminate.
Qed.

(** X4. When [Tsv2Gff3] returns, every contig of the table is text, and the
    records that it writes are, up to their order, the records of the rows
    whose contig the reference declares, one for each such row: no such row
    is lost or written twice, and a row with another contig is left out.
    Each record carries the contig and the end of its row, the start (with
    0 rewritten to 1 when the column is read as integers), the database's
    name, the type "region" and the payload of the row's other columns, in
    which a column named "Rank" holds the rank of the contig and not the
    value of the row. The header lists the contigs of the reference. *)
Theorem Tsv2Gff3_writes_declared_rows (dbName : pystr) (T : tsv_table)
        (f : faidx) (out : gff_output) :
  Tsv2Gff3 dbName T f = Some out ->
  Permutation (records out)
              (map (record_of dbName T f)
                   (filter (declared f) (tsv_rows T)))
  /\ sequence_regions out = f
  /\ Forall (fun r => named r = true) (tsv_rows T).
Proof.
  rewrite Tsv2Gff3_unfold.
  pose proof (kept_rows_perm T f) as Hp.
  pose proof (warning_None_iff f (tsv_rows T)) as Hw.
  destruct (warning (Filtered f (tsv_rows T))) as [names|]; [|discriminate].
  destruct (kept_rows T f) as [|r0 rs]; [discriminate|].
  intros [= <-]. cbn [records sequence_regions].
  split; [|split; [reflexivity|]].
  - apply (Permutation_map (record_of dbName T f) Hp).
  - apply Forall_forall. intros r Hr.
    destruct (named r) eqn:E; [reflexivity|].
    assert (Hn : Some names = None) by (apply Hw; exists r; split; assumption).
    discriminate Hn.
Qed.

Lemma Tsv2Gff3_writes_declared_rows_witness :
  exists out,
    Tsv2Gff3 (py "dbA") rank_column_table sample_faidx = Some out
    /\ Permutation (records out)
                   (map (record_of (py "dbA") rank_column_table sample_faidx)
                        (filter (declared sample_faidx)
                                (tsv_rows rank_column_table)))
    /\ sequence_regions out = sample_faidx
    /\ Forall (fun r => named r = true) (tsv_rows rank_column_table).
Proof.
  eexists. split; [vm_compute; reflexivity|].
  apply (@Tsv2Gff3_writes_declared_rows (py "dbA") rank_column_table
                                        sample_faidx).
  vm_compute. reflexivity.
Defined.

(** The row of contig "chr1" holds 77 in its column "Rank"; the payload
    that is written for it holds 2, the rank of "chr1" in the reference. *)
Example rank_column_is_overwritten :
  exists out rec recs,
    Tsv2Gff3 (py "dbA") rank_column_table sample_faidx = Some out
    /\ records out = rec :: recs
    /\ Contig rec = py "chr2"
    /\ CureBase.decode_cell (CureBase.CStr (attributes rec))
       = Some (CureBase.CDecoded [[(py "Rank", JInt 0); (py "tier", JStr (py "2"))]])
    /\ map (fun r => CureBase.decode_cell (CureBase.CStr (attributes r))) recs
       = [Some (CureBase.CDecoded
                  [[(py "Rank", JInt 2); (py "tier", JStr (py "1"))]])].
Proof.
  do 3 eexists. split; [vm_compute; reflexivity|].
  split; [reflexivity|]. repeat split; vm_compute; reflexivity.
Qed.

(** ** The payload as text *)

(** X2. Whatever the row holds, its payload is the tag "ID=" followed by
    upper-case hexadecimal digits, two for each character of the row's
    JSON text: encoding never raises, and the payload holds no tab, line
    break, comma, semicolon or second ['=']. *)
Theorem encode_attributes_is_hex (d : dict) :
  exists h,
    encode_attributes d = Some (py "ID=" ++ h)
    /\ is_hex h
    /\ List.length h = (2 * List.length (dumps d))%nat.
Proof.
  exists (b16encode (dumps d)). split; [apply encode_attributes_hex|].
  split.
  - apply b16encode_hex. eapply Forall_impl; [|apply dumps_ascii].
    intros c Hc. cbv beta in Hc. lia.
  - unfold b16encode. induction (dumps d) as [|c r IH]; [reflexivity|].
    cbn [flat_map app List.length]. rewrite IH. lia.
Qed.

(** ** The contig ranks *)

Lemma fold_enumerate (names : list pystr) (i : nat) (d : Dict.t nat) :
  fold_left (fun d iv => Dict.set d (snd iv) (fst iv))
            (enumerate_from i names) d
  = fold_left (fun acc kv => Dict.set acc (fst kv) (snd kv))
              (combine names (seq i (List.length names))) d.
Proof.
  revert i d. induction names as [|n r IH]; intros i d; [reflexivity|].
  cbn [enumerate_from fold_left List.length seq combine fst snd].
  apply IH.
Qed.

Lemma keys_fold_set (V : Type) (l : list (pystr * V)) (d : Dict.t V)
      (k : pystr) :
  In k (Dict.keys (fold_left (fun acc kv => Dict.set acc (fst kv) (snd kv))
                             l d))
  <-> In k (Dict.keys d) \/ In k (map fst l).
Proof.
  revert d. induction l as [|[k' v] r IH]; intros d; cbn [fold_left map fst snd].
  - simpl. tauto.
  - rewrite IH, keys_set.
    destruct (Dict.mem k' (Dict.keys d)) eqn:E.
    + apply mem_In in E. simpl. intuition (subst; auto).
    + rewrite in_app_iff. simpl. intuition (subst; auto).
Qed.

Lemma get_None_iff (V : Type) (d : Dict.t V) (k : pystr) :
  Dict.get d k = None <-> ~ In k (Dict.keys d).
Proof.
  induction d as [|[k' v] r IH]; simpl; [tauto|].
  destruct (pystr_eqb k' k) eqn:E.
  - apply pystr_eqb_eq in E. subst. split; [discriminate|].
    intros H. exfalso. apply H. left. reflexivity.
  - rewrite IH. split.
    + intros H [Heq|Hin]; [|exact (H Hin)].
      subst. rewrite pystr_eqb_refl in E. discriminate.
    + intros H Hin. apply H. right. exact Hin.
Qed.

Lemma map_fst_combine_seq (names : list pystr) (i : nat) :
  map fst (combine names (seq i (List.length names))) = names.
Proof.
  revert i. induction names as [|n r IH]; intros i; [reflexivity|].
  cbn [List.length seq combine map fst]. rewrite IH. reflexivity.
Qed.

Lemma get_combine_seq (names : list pystr) (i j : nat) (name : pystr) :
  NoDup names -> nth_error names j = Some name ->
  Dict.get (combine names (seq i (List.length names))) name = Some (i + j)%nat.
Proof.
  revert i j. induction names as [|n r IH]; intros i j Hnd Hj.
  - destruct j; discriminate.
  - inversion Hnd as [|? ? Hn Hr]; subst.
    cbn [List.length seq combine Dict.get].
    destruct j as [|j]; cbn [nth_error] in Hj.
    + injection Hj as ->. rewrite pystr_eqb_refl. f_equal. lia.
    + rewrite pystr_eqb_neq.
      * rewrite (IH (S i) j Hr Hj). f_equal. lia.
      * intros ->. apply Hn. eapply nth_error_In. exact Hj.
Qed.

(** X5. The rank of a contig is [None] exactly when the reference does not
    declare it; when the reference declares no contig twice, the rank of
    its [j]-th contig is [j], the position of the declaration and not the
    place of the name in the alphabet. *)
Theorem contig_rank_is_position (f : faidx) :
  (forall name, contig_rank f name = None <-> ~ In name (map fst f))
  /\ (NoDup (map fst f) ->
      forall j name, nth_error (map fst f) j = Some name ->
                     contig_rank f name = Some j).
Proof.
  unfold contig_rank, Chroms. rewrite fold_enumerate. split.
  - intros name. rewrite get_None_iff, keys_fold_set.
    rewrite map_fst_combine_seq. simpl. tauto.
  - intros Hnd j name Hj.
    rewrite fold_set_nodup.
    + cbn [app]. apply (get_combine_seq 0 j Hnd Hj).
    + cbn [Dict.keys map app]. rewrite map_fst_combine_seq. exact Hnd.
Qed.

End EncoderFacts.

(* ------------------------------------------------------------------ *)
(** * [CureBase]: decoding the overlap columns *)

Module DecoderFacts.
Import Json Codec CureBase PyFacts DictFacts JsonFacts PayloadFacts
       AggregateFacts EncoderFacts.

Lemma hex_payload (d : dict) : is_hex (b16encode (dumps d)).
Proof.
  apply b16encode_hex. eapply Forall_impl; [|apply dumps_ascii].
  intros c Hc. cbv beta in Hc. lia.
Qed.

Lemma join_no_sep (sep other : N) (l : list pystr) :
  other <> sep ->
  Forall (Forall (fun c => c <> other)) l ->
  Forall (fun c => c <> other) (join [sep] l).
Proof.
  intros Hne. induction 1 as [|x r Hx Hr IH]; [constructor|].
  destruct r as [|y r'].
  - exact Hx.
  - change (join [sep] (x :: y :: r')) with (x ++ sep :: join [sep] (y :: r')).
    apply Forall_app. split; [exact Hx|].
    constructor; [congruence|]. exact IH.
Qed.

(** X6. A variant that overlaps several intervals of a database has their
    payloads joined by commas after a tag and ['=']; when the tag holds no
    ['='] and the maps are rows proper, [CureBase] decodes that text to the
    list of the maps, in order. *)
Theorem decode_cell_overlaps (tag : pystr) (ds : list dict) :
  ds <> [] ->
  Forall (fun c => c <> 61) tag ->
  Forall wf_dict ds ->
  decode_cell (CStr (overlap_text tag ds)) = Some (CDecoded ds).
Proof.
  intros Hne Htag Hwf. unfold decode_cell, overlap_text.
  set (hexes := map (fun d => b16encode (dumps d)) ds).
  assert (Hhex : Forall is_hex hexes).
  { apply Forall_forall. intros h Hh. apply in_map_iff in Hh.
    destruct Hh as [d [<- _]]. apply hex_payload. }
  assert (Hdot : pystr_eqb (tag ++ 61 :: join [44] hexes) (py ".") = false).
  { apply pystr_eqb_neq. destruct tag as [|c [|c' t]]; discriminate. }
  rewrite Hdot, split_app_sep by exact Htag.
  assert (Hnoeq : Forall (fun c => c <> 61) (join [44] hexes)).
  { apply join_no_sep; [lia|].
    eapply Forall_impl; [|exact Hhex]. intros h Hh.
    apply hex_no_sep; [left; reflexivity|exact Hh]. }
  rewrite split_no_sep by exact Hnoeq.
  rewrite split_join.
  - unfold hexes, mapM.
    rewrite (mapM_ext_in decode_item
               (fun h => match decode_item h with Some d => d | None => [] end)).
    + rewrite map_map. f_equal. f_equal.
      rewrite <- (map_id ds) at 2. apply map_ext_in. intros d Hd.
      rewrite decode_item_hex; [reflexivity|].
      rewrite Forall_forall in Hwf. apply Hwf. exact Hd.
    + intros h Hh. apply in_map_iff in Hh. destruct Hh as [d [<- Hd]].
      rewrite decode_item_hex; [reflexivity|].
      rewrite Forall_forall in Hwf. apply Hwf. exact Hd.
  - unfold hexes. destruct ds; [congruence|discriminate].
  - eapply Forall_impl; [|exact Hhex]. intros h Hh.
    apply hex_no_sep; [right; reflexivity|exact Hh].
Qed.

Lemma decode_cell_overlaps_witness :
  decode_cell (CStr (overlap_text (py "Name") [sample_row; []; sample_row]))
  = Some (CDecoded [sample_row; []; sample_row]).
Proof.
  assert (Hwf : wf_dict sample_row).
  { split.
    - repeat constructor; simpl; intuition discriminate.
    - unfold sample_row.
      repeat (first [ apply Forall_cons | apply Forall_nil | split
                    | progress cbn [fst snd wf_value py map
                                    list_ascii_of_string] ]);
        try exact I; unfold scalar; cbn; lia. }
  assert (Hnil : wf_dict []) by (split; constructor).
  apply decode_cell_overlaps.
  - discriminate.
  - repeat (apply Forall_cons; [discriminate|]). apply Forall_nil.
  - repeat (apply Forall_cons; [assumption|]). apply Forall_nil.
Defined.


(** ** Which columns a variant's series has *)

Lemma series_fold_None (name : pystr) (LD : list dict) (ks : list pystr) :
  fold_left
    (fun acc k =>
       let? out := acc in
       let? vals := mapM (fun dic => Dict.get dic k) LD in
       Some (Dict.set out (name ++ py "." ++ k) (CList vals)))
    ks None
  = None.
Proof. induction ks as [|k r IH]; [reflexivity|exact IH]. Qed.

Lemma series_fold_Some (name : pystr) (LD : list dict) (ks : list pystr)
      (acc out : Dict.t cell) :
  fold_left
    (fun acc k =>
       let? out := acc in
       let? vals := mapM (fun dic => Dict.get dic k) LD in
       Some (Dict.set out (name ++ py "." ++ k) (CList vals)))
    ks (Some acc)
  = Some out ->
  forall dic k, In dic LD -> In k ks -> Dict.get dic k <> None.
Proof.
  revert acc. induction ks as [|k0 r IH]; intros acc H dic k Hd Hk;
    [destruct Hk|].
  cbn [fold_left] in H.
  destruct (mapM (fun dic => Dict.get dic k0) LD) as [vals|] eqn:Em.
  - destruct Hk as [<-|Hk]; [|eapply IH; eassumption].
    apply mapM_Forall2 in Em. clear - Em Hd.
    induction Em as [|d v ds vs Hdv _ IHf]; [destruct Hd|].
    destruct Hd as [<-|Hd]; [congruence|apply IHf; exact Hd].
  - rewrite series_fold_None in H. discriminate.
Qed.

Lemma keys_fold_pairs (V : Type) (g : pystr -> pystr) (h : pystr -> V)
      (ks : list pystr) (col : pystr) :
  In col (Dict.keys (fold_left (fun out k => Dict.set out (g k) (h k)) ks []))
  <-> exists k, In k ks /\ col = g k.
Proof.
  rewrite fold_set_pairs, keys_fold_set, map_map. cbn [fst Dict.keys map].
  rewrite in_map_iff. split.
  - intros [[]|[k [<- Hk]]]. exists k. split; [exact Hk|reflexivity].
  - intros [k [Hk ->]]. right. exists k. split; [reflexivity|exact Hk].
Qed.

(** X7. The series of a variant exists only if every overlapping interval
    carries every sub-field of the first one (a missing one is a
    [KeyError], not a value left out), and its columns are those of the
    first interval alone: a sub-field that only a later interval carries
    gives no column. An interval without sub-fields in first place gives the
    single column of the database, holding "yes". *)
Theorem series_columns (name : pystr) (LD : list dict) (ser : Dict.t cell) :
  series name LD = Some ser ->
  exists d0 rest,
    LD = d0 :: rest
    /\ ((d0 = [] /\ ser = [(name, CList [JStr (py "yes")])])
        \/ (d0 <> []
            /\ (forall dic k, In dic LD -> In k (Dict.keys d0) ->
                              Dict.get dic k <> None)
            /\ (forall col, In col (Dict.keys ser)
                            <-> exists k, In k (Dict.keys d0)
                                          /\ col = name ++ py "." ++ k))).
Proof.
  destruct LD as [|d0 rest]; [discriminate|].
  intros H. exists d0, rest. split; [reflexivity|].
  destruct d0 as [|p d0'].
  - left. injection H as <-. split; reflexivity.
  - right. split; [discriminate|].
    unfold series in H.
    pose proof (series_fold_Some _ _ _ _ H) as Hall.
    split; [exact Hall|].
    rewrite series_values in H by exact Hall.
    match type of H with
    | Some ?closed = _ => remember closed as c eqn:Ec
    end.
    injection H as <-. intros col. rewrite Ec.
    apply (keys_fold_pairs (fun k : pystr => name ++ py "." ++ k)).
Qed.

Lemma series_columns_witness :
  exists ser d0 rest,
    series (py "dbA") three_intervals = Some ser
    /\ three_intervals = d0 :: rest
    /\ d0 <> []
    /\ (forall col, In col (Dict.keys ser)
                    <-> exists k, In k (Dict.keys d0)
                                  /\ col = py "dbA" ++ py "." ++ k).
Proof.
  eexists.
  destruct (@series_columns (py "dbA") three_intervals _ eq_refl)
    as (d0 & rest & E & [[-> _]|(Hne & _ & Hcols)]); [discriminate|].
  exists d0, rest. repeat split; try assumption.
  - apply Hcols.
  - apply Hcols.
Defined.

(** ** The merged text does not depend on the order of the intervals *)

Lemma value_lt_irrefl (v : jvalue) : ~ value_lt v v.
Proof.
  unfold value_lt. intros H. apply py_lt_cases in H.
  destruct H as [(s & t & -> & [= <-] & H)|(x & y & Hx & Hy & H)].
  - rewrite str_ltb_irrefl in H. discriminate.
  - rewrite Hx in Hy. injection Hy as <-. rewrite Z.ltb_irrefl in H.
    discriminate.
Qed.

Lemma sorted_unique (l1 l2 : list jvalue) :
  StronglySorted value_lt l1 -> StronglySorted value_lt l2 ->
  (forall v, In v l1 <-> In v l2) -> l1 = l2.
Proof.
  intros H1. revert l2. induction H1 as [|x1 r1 Hs1 IH Hx1]; intros l2 H2 Hin.
  - destruct l2 as [|x2 r2]; [reflexivity|].
    exfalso. apply (Hin x2). left. reflexivity.
  - destruct H2 as [|x2 r2 Hs2 Hx2].
    + exfalso. apply (Hin x1). left. reflexivity.
    + rewrite Forall_forall in Hx1, Hx2.
      assert (Hx : x1 = x2).
      { destruct (proj1 (Hin x1) (or_introl eq_refl)) as [E|E1]; [congruence|].
        destruct (proj2 (Hin x2) (or_introl eq_refl)) as [E|E2]; [congruence|].
        exfalso. apply (@value_lt_irrefl x1).
        eapply py_lt_trans; [apply Hx1; exact E2|apply Hx2; exact E1]. }
      subst x2. f_equal. apply IH; [exact Hs2|].
      intros v. split; intros Hv.
      * destruct (proj1 (Hin v) (or_intror Hv)) as [E|E]; [|exact E].
        subst v. exfalso. apply (@value_lt_irrefl x1). apply Hx1. exact Hv.
      * destruct (proj2 (Hin v) (or_intror Hv)) as [E|E]; [|exact E].
        subst v. exfalso. apply (@value_lt_irrefl x1). apply Hx2. exact Hv.
Qed.

Lemma plain_kind_homogeneous (l : list jvalue) :
  plain_kind l -> homogeneous l.
Proof.
  intros [H|H]; [left; exact H|right].
  eapply Forall_impl; [|exact H]. intros v Hv. destruct v; try discriminate.
  reflexivity.
Qed.

Lemma plain_kind_py_eq (l : list jvalue) (a b : jvalue) :
  plain_kind l -> In a l -> In b l -> py_eq a b = true -> a = b.
Proof.
  intros [H|H] Ha Hb He; rewrite Forall_forall in H;
    pose proof (H a Ha) as Ka; pose proof (H b Hb) as Kb;
    destruct a, b; try discriminate; cbn in He.
  - apply pystr_eqb_eq in He. congruence.
  - apply Z.eqb_eq in He. congruence.
Qed.

Lemma plain_kind_perm (l l' : list jvalue) :
  Permutation l l' -> plain_kind l -> plain_kind l'.
Proof.
  intros Hp [H|H]; [left|right]; eapply Permutation_Forall; eassumption.
Qed.

(** X9. For values that are all text or all integers, the merged text depends
    on the values only as a set: the order in which the annotator lists the
    overlapping intervals does not change it. *)
Theorem join_values_order_independent (l l' : list jvalue) :
  plain_kind l -> Permutation l l' -> join_values l = join_values l'.
Proof.
  intros Hk Hp.
  pose proof (plain_kind_perm Hp Hk) as Hk'.
  destruct (join_values_spec (plain_kind_homogeneous Hk))
    as (s1 & E1 & S1 & I1 & J1).
  destruct (join_values_spec (plain_kind_homogeneous Hk'))
    as (s2 & E2 & S2 & I2 & J2).
  rewrite E1, E2. f_equal. f_equal. f_equal.
  apply sorted_unique; [exact S1|exact S2|].
  intros v. split; intros Hv.
  - assert (Hl' : In v l') by (eapply Permutation_in; [exact Hp|auto]).
    destruct (J2 v Hl') as (v' & Hv' & He).
    rewrite (@plain_kind_py_eq l' v v' Hk' Hl' (I2 _ Hv') He). exact Hv'.
  - assert (Hl : In v l)
      by (eapply Permutation_in; [apply Permutation_sym; exact Hp|auto]).
    destruct (J1 v Hl) as (v' & Hv' & He).
    rewrite (@plain_kind_py_eq l v v' Hk Hl (I1 _ Hv') He). exact Hv'.
Qed.

Lemma join_values_order_independent_witness :
  join_values [JInt 2; JInt 1; JInt 2] = join_values [JInt 1; JInt 2; JInt 2].
Proof.
  apply join_values_order_independent.
  - right. repeat (apply Forall_cons; [reflexivity|]). apply Forall_nil.
  - apply perm_swap.
Defined.


(** ** The columns that [Tsv2Gff3] announces and those that are decoded *)

Lemma to_dict_keys (cols : list pystr) (vals : list jvalue) (k : pystr) :
  List.length vals = List.length cols ->
  (In k (Dict.keys (Gff3.to_dict cols vals)) <-> In k cols).
Proof.
  intros Hl. unfold Gff3.to_dict. rewrite keys_fold_set.
  rewrite AnnoFitFacts.map_fst_combine by congruence.
  simpl. tauto.
Qed.

Lemma get_Some_of_key (V : Type) (d : Dict.t V) (k : pystr) :
  In k (Dict.keys d) -> Dict.get d k <> None.
Proof.
  intros Hin H. apply get_None_iff in H. exact (H Hin).
Qed.

(** X10. The columns decoded for a variant that overlaps a database are exactly
    the columns that [Tsv2Gff3] returned for that database: the payloads of
    rows that have a value in every attribute column always give a series,
    and its columns are the expected ones, so that [CureBase] neither adds a
    missing column for them nor drops one in its last selection. *)
Theorem decoded_columns_are_expected (dbName : pystr) (T : Gff3.tsv_table)
        (f : Gff3.faidx) (out : Gff3.gff_output) (LD : list dict) :
  Gff3.Tsv2Gff3 dbName T f = Some out ->
  LD <> [] ->
  (forall dic, In dic LD ->
               exists r, In r (Gff3.tsv_rows T)
                         /\ List.length (Gff3.attr_values r)
                            = List.length (Gff3.AttributeCols T)
                         /\ dic = Gff3.to_dict (Gff3.AttributeCols T)
                                               (Gff3.attr_values r)) ->
  exists ser,
    series dbName LD = Some ser
    /\ (forall col, In col (Dict.keys ser)
                    <-> In col (Gff3.expected_cols out)).
Proof.
  intros Hout Hne Hrows.
  rewrite Tsv2Gff3_unfold in Hout.
  destruct (Gff3.warning _); [|discriminate].
  destruct (Gff3.kept_rows T f) as [|r0 rs]; [discriminate|].
  match type of Hout with
  | Some ?o = _ => remember o as o' eqn:Eo
  end.
  injection Hout as <-. rewrite Eo. cbn [Gff3.expected_cols]. clear Eo o'.
  destruct LD as [|d0 rest]; [congruence|].
  assert (Hkeys : forall dic, In dic (d0 :: rest) ->
                              forall k, In k (Dict.keys dic)
                                        <-> In k (Gff3.AttributeCols T)).
  { intros dic Hd k. destruct (Hrows dic Hd) as (r & _ & Hl & ->).
    apply to_dict_keys. exact Hl. }
  destruct (Gff3.AttributeCols T) as [|c cols] eqn:Ecols.
  - assert (Hd0 : d0 = []).
    { destruct d0 as [|[k v] d0']; [reflexivity|]. exfalso.
      apply (Hkeys _ (or_introl eq_refl) k). left. reflexivity. }
    subst d0. eexists. split; [reflexivity|].
    intros col. simpl. tauto.
  - assert (Hd0 : d0 <> []).
    { intros ->. apply (proj2 (Hkeys _ (or_introl eq_refl) c)).
      left. reflexivity. }
    assert (Hall : forall dic k, In dic (d0 :: rest) ->
                                 In k (Dict.keys d0) ->
                                 Dict.get dic k <> None).
    { intros dic k Hd Hk. apply get_Some_of_key.
      apply (Hkeys dic Hd). apply (Hkeys d0 (or_introl eq_refl)). exact Hk. }
    destruct d0 as [|p d0']; [congruence|].
    eexists. split.
    + unfold series. rewrite series_values by exact Hall. reflexivity.
    + intros col.
      rewrite (keys_fold_pairs (fun k : pystr => dbName ++ py "." ++ k)).
      rewrite in_map_iff. split.
      * intros (k & Hk & ->). exists k. split; [reflexivity|].
        apply (Hkeys _ (or_introl eq_refl)). exact Hk.
      * intros (k & <- & Hk). exists k. split; [|reflexivity].
        apply (Hkeys _ (or_introl eq_refl)). exact Hk.
Qed.

Lemma decoded_columns_are_expected_witness :
  exists out ser,
    Gff3.Tsv2Gff3 (py "dbA") Gff3.sample_table Gff3.sample_faidx = Some out
    /\ series (py "dbA")
              [Gff3.to_dict [py "tier"] [JInt 4];
               Gff3.to_dict [py "tier"] [JInt 5]] = Some ser
    /\ (forall col, In col (Dict.keys ser)
                    <-> In col (Gff3.expected_cols out)).
Proof.
  eexists.
  destruct (@decoded_columns_are_expected
              (py "dbA") Gff3.sample_table Gff3.sample_faidx _
              [Gff3.to_dict [py "tier"] [JInt 4];
               Gff3.to_dict [py "tier"] [JInt 5]] eq_refl)
    as (ser & Hs & Hc).
  - discriminate.
  - intros dic [<-|[<-|[]]]; eexists.
    + split; [right; right; right; left; reflexivity|split; reflexivity].
    + split; [right; right; right; right; left; reflexivity
             |split; reflexivity].
  - exists ser. split; [reflexivity|]. split; assumption.
Defined.

(** ** The overlap columns *)

Lemma str_of_N_injective (a b : N) : str_of_N a = str_of_N b -> a = b.
Proof.
  intros H.
  pose proof (int_of_str_str_of_N ascii_only a) as Ha.
  pose proof (int_of_str_str_of_N ascii_only b) as Hb.
  rewrite H, Hb in Ha. injection Ha as Ha. lia.
Qed.

Lemma gff3_column_injective (i j : nat) :
  gff3_column i = gff3_column j -> i = j.
Proof.
  unfold gff3_column. intros H. apply app_inv_head in H.
  destruct i as [|i], j as [|j]; [reflexivity| | |].
  - exfalso. eapply str_of_N_nonempty. symmetry. exact H.
  - exfalso. eapply str_of_N_nonempty. exact H.
  - apply str_of_N_injective in H. lia.
Qed.

Lemma NewColumns_fold (l : list pystr) (i : nat) (acc : Dict.t pystr) :
  (forall k, In k (Dict.keys acc) -> exists j, (j < i)%nat /\ k = gff3_column j) ->
  fold_left (fun d iv => Dict.set d (gff3_column (fst iv)) (snd iv))
            (Gff3.enumerate_from i l) acc
  = acc ++ map (fun iv => (gff3_column (fst iv), snd iv))
               (Gff3.enumerate_from i l).
Proof.
  revert i acc. induction l as [|x r IH]; intros i acc Hacc;
    cbn [Gff3.enumerate_from fold_left map fst snd].
  - rewrite app_nil_r. reflexivity.
  - rewrite set_fresh.
    + rewrite IH.
      * rewrite <- app_assoc. reflexivity.
      * intros k Hk. unfold Dict.keys in Hk. rewrite map_app in Hk.
        apply in_app_iff in Hk. destruct Hk as [Hk|[<-|[]]].
        -- destruct (Hacc k Hk) as (j & Hj & ->). exists j. split; [lia|].
           reflexivity.
        -- exists i. split; [lia|reflexivity].
    + intros Hin. destruct (Hacc _ Hin) as (j & Hj & E).
      apply gff3_column_injective in E. lia.
Qed.

(** X11. Every database has an overlap column of its own: [NewColumns] binds
    "gff3" to the first database and "gff3N" to the N-th, in order, and no
    entry overwrites another, however many databases there are and whatever
    their names. *)
Theorem NewColumns_entries (Databases : list pystr) :
  NewColumns Databases
  = map (fun iv => (gff3_column (fst iv), snd iv))
        (Gff3.enumerate_from 0 Databases)
  /\ NoDup (Dict.keys (NewColumns Databases))
  /\ List.length (NewColumns Databases) = List.length Databases.
Proof.
  assert (E : NewColumns Databases
              = map (fun iv => (gff3_column (fst iv), snd iv))
                    (Gff3.enumerate_from 0 Databases)).
  { unfold NewColumns. rewrite NewColumns_fold; [reflexivity|].
    intros k []. }
  rewrite E. clear E. split; [reflexivity|]. split.
  - unfold Dict.keys. rewrite map_map. cbn [fst].
    generalize 0%nat. induction Databases as [|x r IH]; intros i;
      cbn [Gff3.enumerate_from map fst]; constructor.
    + intros Hin. apply in_map_iff in Hin. destruct Hin as ([j y] & Hj & Hin).
      cbn [fst] in Hj. apply gff3_column_injective in Hj. subst j.
      clear - Hin. assert (Hgt : (S i <= i)%nat); [|lia].
      generalize dependent (S i). induction r as [|z r IH]; intros n Hin;
        cbn [Gff3.enumerate_from] in Hin; [destruct Hin|].
      destruct Hin as [[= -> _]|Hin]; [lia|].
      apply IH in Hin. lia.
    + apply IH.
  - rewrite length_map. generalize 0%nat.
    induction Databases as [|x r IH]; intros i; [reflexivity|].
    cbn [Gff3.enumerate_from List.length]. f_equal. apply IH.
Qed.

End DecoderFacts.

(* ------------------------------------------------------------------ *)
(** * [AnnoFit]: more on the normalisation and filter functions *)

Module AnnoFitMore.
Import AnnoFit PyFacts DictFacts AnnoFitFacts.

Section Unicode.
Variable U : unicode_db.

(** ** Integers *)

(** X15. [FormatInt] reads back the decimal text of every integer of at
    most 4300 digits, negative ones included, and so does
    [FormatCoordinates]: a coordinate that the annotator writes as such an
    integer is never turned into the sentinel. *)
Theorem FormatInt_reads_str (z : Z) :
  short_numeral (Z.abs_N z) ->
  FormatInt U (str_of_int z) = Some z
  /\ FormatCoordinates U (str_of_int z) = Coord z.
Proof.
  intros _.
  assert (H : FormatInt U (str_of_int z) = Some z).
  { unfold FormatInt. destruct z as [|p|p].
    - apply (int_of_str_str_of_N U 0).
    - apply (int_of_str_str_of_N U (Npos p)).
    - cbn [str_of_int].
      pose proof (str_of_N_digits (Npos p)) as Hd.
      pose proof (scan_digits_str_of_N U (Npos p) []) as Hs.
      rewrite app_nil_r in Hs.
      unfold int_of_str. cbn [lstrip].
      replace (isspace U 45) with false by reflexivity.
      cbn [take_sign N.eqb Pos.eqb].
      destruct (str_of_N (Npos p)) as [|c r] eqn:E.
      + exfalso. eapply str_of_N_nonempty; eassumption.
      + inversion Hd; subst. unfold scan_number.
        rewrite decimal_value_digit by assumption. rewrite Hs. reflexivity. }
  split; [exact H|]. unfold FormatCoordinates. rewrite H. reflexivity.
Qed.

(** ** The exon prediction and its filter *)

Lemma split_two (sep : N) (a b : pystr) :
  Forall (fun c => c <> sep) a -> Forall (fun c => c <> sep) b ->
  split sep (join [sep] [a; b]) = [a; b].
Proof.
  intros Ha Hb. apply split_join; [discriminate|].
  constructor; [exact Ha|]. constructor; [exact Hb|constructor].
Qed.

Lemma digits_no_slash (n : N) : Forall (fun c => c <> 47) (str_of_N n).
Proof.
  eapply Forall_impl; [|apply str_of_N_digits]. intros c Hc. cbv beta in Hc.
  lia.
Qed.

(** X16. [FilterExonPrediction] of the text that [FormatExonPrediction] builds
    is true exactly when the predictors' symbols hold at least three ['D']:
    the count of damaging verdicts survives the formatting as "D/total" and
    the parsing back, and the sentinel counts as none. *)
Theorem FilterExonPrediction_counts_damaging (Series : list pystr) :
  FilterExonPrediction U (FormatExonPrediction Series)
  = (3 <=? count_char 68 (List.concat Series))%nat.
Proof.
  unfold FormatExonPrediction, FilterExonPrediction.
  set (D := count_char 68 (List.concat Series)).
  set (T := count_char 84 (List.concat Series)).
  destruct (D + T =? 0)%nat eqn:E.
  - apply Nat.eqb_eq in E. assert (D = 0)%nat by lia.
    replace (3 <=? D)%nat with false by (symmetry; apply Nat.leb_gt; lia).
    reflexivity.
  - change (py "/") with [47].
    rewrite split_two by apply digits_no_slash.
    unfold FormatInt. rewrite int_of_str_str_of_N.
    destruct (Nat.leb_spec 3 D); [apply Z.leb_le|apply Z.leb_gt]; lia.
Qed.

(** ** The compound count and its filter *)

(** X24. For a row of the result, the compound column is built without error and
    its filter is true exactly when one of the row's genes is named by at
    least two rows of the result, the row itself included. *)
Theorem Compound_filter_shared_gene (Result : list variant) (x : variant) :
  In x Result ->
  exists c,
    Compound Result x = Some c
    /\ Compound_filter U c
       = Some (existsb (fun gene => 1 <? count_of Result gene)
                       (split 59 (AnnoFit_GeneName x))).
Proof.
  intros Hx. exists (compound_of Result x). split.
  - apply Compound_total. exact Hx.
  - unfold compound_of. rewrite Compound_filter_total.
    + f_equal. rewrite map_map.
      induction (split 59 (AnnoFit_GeneName x)) as [|g r IH];
        [reflexivity|].
      cbn [map existsb]. rewrite IH. f_equal.
      destruct (N.ltb_spec 1 (count_of Result g));
        [apply Z.ltb_lt|apply Z.ltb_ge]; lia.
    + pose proof (split_nonempty 59 (AnnoFit_GeneName x)) as Hne.
      destruct (split 59 (AnnoFit_GeneName x)); [congruence|discriminate].
Qed.

(** ** The dominance marker *)

Lemma findall_count_zero_iff (m : pystr -> option nat) (s : pystr) :
  m [] = None ->
  (findall_count m 0 s <> 0%nat
   <-> exists pre suf, s = pre ++ suf /\ m suf <> None).
Proof.
  intros Hnil. split.
  - assert (Hgen : forall k, findall_count m k s <> 0%nat ->
                             exists pre suf, s = pre ++ suf /\ m suf <> None);
      [|apply Hgen].
    induction s as [|c r IH]; intros k H;
      cbn [findall_count] in H; [congruence|].
    destruct k as [|k].
    + destruct (m (c :: r)) as [len|] eqn:E.
      * exists [], (c :: r). split; [reflexivity|congruence].
      * destruct (IH _ H) as (pre & suf & -> & Hm).
        exists (c :: pre), suf. split; [reflexivity|exact Hm].
    + destruct (IH _ H) as (pre & suf & -> & Hm).
      exists (c :: pre), suf. split; [reflexivity|exact Hm].
  - intros (pre & suf & -> & Hm).
    induction pre as [|c pre IH].
    + destruct suf as [|c r]; [congruence|].
      cbn [app findall_count]. destruct (m (c :: r)); [discriminate|congruence].
    + cbn [app findall_count].
      destruct (m (c :: pre ++ suf)); [discriminate|exact IH].
Qed.

Lemma strip_prefix_app (w s t : pystr) :
  Json.strip_prefix w s = Some t <-> s = w ++ t.
Proof.
  revert s. induction w as [|x w IH]; intros s; cbn [Json.strip_prefix app].
  - split; [intros [= ->]; reflexivity|intros ->; reflexivity].
  - destruct s as [|c s']; [split; discriminate|].
    destruct (N.eqb_spec c x) as [->|Hne].
    + rewrite IH. split; [intros ->; reflexivity|intros [= ->]; reflexivity].
    + split; [discriminate|]. intros [= E _]. congruence.
Qed.

Lemma match_W_word_W_spec (word s : pystr) :
  match_W_word_W U word s <> None
  <-> exists c d post,
        s = c :: word ++ d :: post
        /\ nonword U c = true /\ nonword U d = true.
Proof.
  unfold match_W_word_W. split.
  - destruct s as [|c r]; [congruence|].
    destruct (nonword U c) eqn:Ec; [|congruence].
    destruct (Json.strip_prefix word r) as [[|d post]|] eqn:E;
      [congruence| |congruence].
    destruct (nonword U d) eqn:Ed; [|congruence].
    intros _. apply strip_prefix_app in E. subst r.
    exists c, d, post. repeat split; assumption.
  - intros (c & d & post & -> & Hc & Hd). rewrite Hc.
    assert (E : Json.strip_prefix word (word ++ d :: post) = Some (d :: post))
      by (apply strip_prefix_app; reflexivity).
    rewrite E, Hd. discriminate.
Qed.

(** X20. [FilterOmimDominance] is true exactly when the lower-cased description
    holds the word "dominant" with a non-word character right before it and
    another right after it; a description that begins or ends with the word
    is not matched there. *)
Theorem FilterOmimDominance_iff (x : pystr) :
  FilterOmimDominance U x = true
  <-> exists pre c d post,
        lower U x = pre ++ c :: py "dominant" ++ d :: post
        /\ nonword U c = true /\ nonword U d = true.
Proof.
  unfold FilterOmimDominance. rewrite negb_true_iff, Nat.eqb_neq.
  rewrite findall_count_zero_iff by reflexivity.
  split.
  - intros (pre & suf & E & Hm). apply match_W_word_W_spec in Hm.
    destruct Hm as (c & d & post & -> & Hc & Hd).
    exists pre, c, d, post. repeat split; assumption.
  - intros (pre & c & d & post & E & Hc & Hd).
    exists pre, (c :: py "dominant" ++ d :: post). split; [exact E|].
    apply match_W_word_W_spec. exists c, d, post. repeat split; assumption.
Qed.

(** ** Order of floats *)

Lemma pow10_pos (e : Z) : (0 < 10 ^ e \/ e < 0)%Z.
Proof.
  destruct (Z.lt_ge_cases e 0); [right; assumption|left].
  apply Z.pow_pos_nonneg; lia.
Qed.

Lemma scale_split (z e E E' : Z) :
  (E' <= E)%Z -> (E <= e)%Z ->
  (z * 10 ^ (e - E') = z * 10 ^ (e - E) * 10 ^ (E - E'))%Z.
Proof.
  intros H1 H2. rewrite <- Z.mul_assoc, <- Z.pow_add_r by lia.
  f_equal. f_equal. lia.
Qed.

(** Comparing two numerals at their lower exponent is comparing them at
    any exponent below both. *)
Lemma dec_compare_at (z1 z2 e1 e2 E : Z) :
  (E <= e1)%Z -> (E <= e2)%Z ->
  (z1 * 10 ^ (e1 - Z.min e1 e2) ?= z2 * 10 ^ (e2 - Z.min e1 e2))%Z
  = (z1 * 10 ^ (e1 - E) ?= z2 * 10 ^ (e2 - E))%Z.
Proof.
  intros H1 H2.
  rewrite (@scale_split z1 e1 (Z.min e1 e2) E) by lia.
  rewrite (@scale_split z2 e2 (Z.min e1 e2) E) by lia.
  assert (Hp : (0 < 10 ^ (Z.min e1 e2 - E))%Z)
    by (apply Z.pow_pos_nonneg; lia).
  generalize dependent (10 ^ (Z.min e1 e2 - E))%Z. intros p Hp.
  generalize (z1 * 10 ^ (e1 - Z.min e1 e2))%Z
             (z2 * 10 ^ (e2 - Z.min e1 e2))%Z.
  intros a b.
  destruct (Z.compare_spec a b) as [->|Hlt|Hgt]; symmetry.
  - apply Z.compare_refl.
  - apply Z.compare_lt_iff. nia.
  - apply Z.compare_gt_iff. nia.
Qed.

Lemma float_compare_refl (a : pyfloat) :
  is_nan a = false -> float_compare a a = Some Eq.
Proof.
  destruct a as [|[|]|n m e]; cbn; try discriminate; try reflexivity.
  intros _. rewrite Z.compare_refl. reflexivity.
Qed.

Lemma float_compare_antisym (a b : pyfloat) :
  float_compare b a = option_map CompOpp (float_compare a b).
Proof.
  destruct a as [|[|]|n1 m1 e1], b as [|[|]|n2 m2 e2]; cbn; try reflexivity.
  rewrite (Z.min_comm e2 e1). rewrite Z.compare_antisym. reflexivity.
Qed.

Lemma float_le_refl (a : pyfloat) : is_nan a = false -> float_le a a = true.
Proof.
  intros H. unfold float_le. rewrite float_compare_refl by exact H.
  reflexivity.
Qed.

Lemma float_lt_le (a b : pyfloat) : float_lt a b = true -> float_le a b = true.
Proof.
  unfold float_lt, float_le. destruct (float_compare a b) as [[| |]|];
    congruence.
Qed.

Lemma float_not_lt_le (a b : pyfloat) :
  is_nan a = false -> is_nan b = false ->
  float_lt a b = false -> float_le b a = true.
Proof.
  intros Ha Hb. unfold float_lt, float_le.
  rewrite (float_compare_antisym a b).
  destruct a as [|[|]|n1 m1 e1], b as [|[|]|n2 m2 e2]; try discriminate;
    cbn; try reflexivity; try discriminate.
  destruct (_ ?= _)%Z; cbn; congruence.
Qed.

Lemma dec_le_iff (n1 n2 : bool) (m1 m2 : N) (e1 e2 : Z) :
  float_le (FDec n1 m1 e1) (FDec n2 m2 e2) = true
  <-> forall E, (E <= e1)%Z -> (E <= e2)%Z ->
                (dec_Z n1 m1 * 10 ^ (e1 - E) <= dec_Z n2 m2 * 10 ^ (e2 - E))%Z.
Proof.
  unfold float_le. cbn [float_compare]. split.
  - intros H E H1 H2. rewrite (dec_compare_at _ _ H1 H2) in H.
    unfold Z.le. revert H. destruct (_ ?= _)%Z; congruence.
  - intros H. specialize (H (Z.min e1 e2) (Z.le_min_l _ _) (Z.le_min_r _ _)).
    unfold Z.le in H. revert H. destruct (_ ?= _)%Z; congruence.
Qed.

Lemma float_le_trans (a b c : pyfloat) :
  float_le a b = true -> float_le b c = true -> float_le a c = true.
Proof.
  destruct a as [|[|]|n1 m1 e1], b as [|[|]|n2 m2 e2], c as [|[|]|n3 m3 e3];
    try (cbn; congruence); try (intros _ _; reflexivity).
  rewrite !dec_le_iff. intros H1 H2 E Ha Hc.
  set (E' := Z.min E e2).
  specialize (H1 E' ltac:(lia) ltac:(lia)).
  specialize (H2 E' ltac:(lia) ltac:(lia)).
  rewrite (@scale_split (dec_Z n1 m1) e1 E E') in H1 by lia.
  rewrite (@scale_split (dec_Z n3 m3) e3 E E') in H2 by lia.
  assert (Hp : (0 < 10 ^ (E - E'))%Z) by (apply Z.pow_pos_nonneg; lia).
  apply (Z.mul_le_mono_pos_r _ _ _ Hp). lia.
Qed.

(** ** The greatest population frequency *)

(** X21. The frequency that is compared with the ceiling is NaN only when every
    population column of the row gave NaN (or there is none); otherwise it
    is one of the row's frequencies, not NaN, and no frequency of the row
    that is not NaN is above it. *)
Theorem series_max_greatest (l : list pyfloat) :
  (is_nan (series_max l) = true <-> Forall (fun x => is_nan x = true) l)
  /\ (is_nan (series_max l) = false ->
      In (series_max l) l
      /\ forall x, In x l -> is_nan x = false ->
                   float_le x (series_max l) = true).
Proof.
  induction l as [|x r [IH1 IH2]]; cbn [series_max].
  - split; [split; [constructor|reflexivity]|discriminate].
  - destruct (is_nan x) eqn:Ex.
    + split.
      * rewrite IH1. split; [intros H; constructor; assumption|].
        intros H. inversion H; assumption.
      * intros Hm. destruct (IH2 Hm) as [Hin Hle].
        split; [right; exact Hin|].
        intros y [<-|Hy] Hy'; [congruence|apply Hle; assumption].
    + destruct (is_nan (series_max r)) eqn:Er.
      * split.
        -- rewrite Ex. split; [discriminate|].
           intros H. inversion H; congruence.
        -- intros _. split; [left; reflexivity|].
           intros y [<-|Hy] Hy'; [apply float_le_refl; exact Ex|].
           pose proof (proj1 IH1 eq_refl) as Hall.
           rewrite Forall_forall in Hall.
           rewrite (Hall y Hy) in Hy'. discriminate.
      * destruct (IH2 eq_refl) as [Hin Hle].
        destruct (float_lt x (series_max r)) eqn:Elt.
        -- split.
           ++ rewrite Er. split; [discriminate|].
              intros H. inversion H; congruence.
           ++ intros _. split; [right; exact Hin|].
              intros y [<-|Hy] Hy';
                [apply float_lt_le; exact Elt|apply Hle; assumption].
        -- split.
           ++ rewrite Ex. split; [discriminate|].
              intros H. inversion H; congruence.
           ++ intros _. split; [left; reflexivity|].
              intros y [<-|Hy] Hy'; [apply float_le_refl; exact Ex|].
              eapply float_le_trans; [apply Hle; assumption|].
              apply float_not_lt_le; assumption.
Qed.

(** ** The first stage *)

Lemma filterM_sublist (A : Type) (f : A -> option bool) (l out : list A) :
  filterM f l = Some out ->
  out = filter (fun x => match f x with Some b => b | None => false end) l
  /\ Forall (fun x => f x <> None) l.
Proof.
  revert out. induction l as [|x r IH]; intros out; cbn [filterM filter].
  - intros [= <-]. split; [reflexivity|constructor].
  - destruct (f x) as [b|] eqn:E; [|discriminate].
    destruct (filterM f r) as [r'|]; [|discriminate].
    intros [= <-]. destruct (IH r' eq_refl) as [-> Hr].
    split; [destruct b; reflexivity|].
    constructor; [congruence|exact Hr].
Qed.

(** X23. When the first stage raises no error, the rows it keeps are rows of its
    input in their order, and every one of them has a read depth of at
    least 4 for some allele, a greatest population frequency below the
    ceiling and no flag of a problematic region, whatever the predictors
    and the clinical columns say; a row that fails one of the three is
    dropped. *)
Theorem stage1_necessary (C : config) (Data out : list variant) :
  stage1 U C Data = Some out ->
  (exists keep, out = filter keep Data)
  /\ Forall (fun v =>
               FilterDepth U (VCF_AD v) = true
               /\ float_lt (PopFreqMax U v) (PopMax_filter C) = true
               /\ Filter_Problematic C v = Some true) out.
Proof.
  intros H. apply filterM_sublist in H. destruct H as [-> Hok].
  split; [eexists; reflexivity|].
  apply Forall_forall. intros v Hv. apply filter_In in Hv.
  destruct Hv as [_ Hk]. unfold stage1_keep in Hk.
  unfold Filter_PopMax in Hk.
  destruct (PopFreqMax U v) as [|s|n m e] eqn:Em; [discriminate| |];
    (destruct (Filter_Problematic C v) as [p|]; [|discriminate]);
    repeat (apply andb_true_iff in Hk; destruct Hk as [Hk ?]);
    subst; repeat split; assumption.
Qed.

(** X22. A row whose population columns all hold text that is not a number has
    -1.0 for its greatest frequency, and passes every ceiling above -1: an
    unknown frequency is treated as not common. *)
Theorem unknown_frequency_passes (C : config) (v : variant) :
  Population v <> [] ->
  Forall (fun s => FormatFloat U s = None) (Population v) ->
  float_lt (FDec true 1 0) (PopMax_filter C) = true ->
  PopFreqMax U v = FDec true 1 0 /\ Filter_PopMax U C v = Some true.
Proof.
  intros Hne Hall Hc.
  assert (Hm : PopFreqMax U v = FDec true 1 0).
  { unfold PopFreqMax.
    induction (Population v) as [|s r IH]; [congruence|].
    inversion Hall as [|? ? Hs Hr]; subst.
    assert (Hf : FormatPopulationFreq U s = FDec true 1 0)
      by (unfold FormatPopulationFreq; rewrite Hs; reflexivity).
    cbn [map series_max]. rewrite Hf. cbn [is_nan].
    destruct r as [|s' r'].
    - reflexivity.
    - rewrite IH by (assumption || discriminate). reflexivity. }
  split; [exact Hm|]. unfold Filter_PopMax. rewrite Hm, Hc. reflexivity.
Qed.

End Unicode.

Lemma FormatInt_reads_str_witness :
  FormatInt ascii_only (py "-1234567") = Some (-1234567)%Z
  /\ FormatCoordinates ascii_only (py "-1234567") = Coord (-1234567)%Z.
Proof.
  apply (@FormatInt_reads_str ascii_only (-1234567)%Z).
  apply Nat.leb_le. vm_compute. reflexivity.
Defined.

Lemma Compound_filter_shared_gene_witness :
  exists c,
    Compound [recessive_variant; recessive_variant] recessive_variant = Some c
    /\ Compound_filter ascii_only c = Some true.
Proof.
  destruct (@Compound_filter_shared_gene ascii_only
              [recessive_variant; recessive_variant] recessive_variant
              (or_introl eq_refl)) as (c & Hc & Hf).
  exists c. split; [exact Hc|exact Hf].
Defined.

Lemma stage1_necessary_witness :
  exists out,
    stage1 ascii_only ceiling_config [nan_frequency_variant; recessive_variant]
    = Some out
    /\ Forall (fun v =>
                 FilterDepth ascii_only (VCF_AD v) = true
                 /\ float_lt (PopFreqMax ascii_only v)
                             (PopMax_filter ceiling_config) = true
                 /\ Filter_Problematic ceiling_config v = Some true) out.
Proof.
  eexists. split; [vm_compute; reflexivity|].
  apply (@stage1_necessary ascii_only ceiling_config
           [nan_frequency_variant; recessive_variant]).
  vm_compute. reflexivity.
Defined.

Lemma unknown_frequency_passes_witness :
  PopFreqMax ascii_only unknown_frequency_variant = FDec true 1 0
  /\ Filter_PopMax ascii_only ceiling_config unknown_frequency_variant
     = Some true.
Proof.
  apply unknown_frequency_passes.
  - discriminate.
  - repeat (apply Forall_cons; [reflexivity|]). apply Forall_nil.
  - reflexivity.
Defined.

End AnnoFitMore.

(* ------------------------------------------------------------------ *)
(** * [AnnoFit]: gene names and conservation *)

Module GenesFacts.
Import AnnoFit PyFacts DictFacts SortFacts AggregateFacts.

(** ** Order of texts *)

Lemma str_ltb_asym (a b : pystr) :
  CureBase.str_ltb a b = true -> CureBase.str_ltb b a = false.
Proof.
  intros H. destruct (CureBase.str_ltb b a) eqn:E; [|reflexivity].
  pose proof (@str_ltb_trans _ _ _ H E) as Hc.
  rewrite str_ltb_irrefl in Hc. discriminate.
Qed.

Lemma str_leb_total (a b : pystr) :
  str_leb a b = true \/ str_leb b a = true.
Proof.
  unfold str_leb. destruct (CureBase.str_ltb b a) eqn:E; [right|left].
  - rewrite (@str_ltb_asym _ _ E). reflexivity.
  - reflexivity.
Qed.

Lemma str_leb_trans (a b c : pystr) :
  str_leb a b = true -> str_leb b c = true -> str_leb a c = true.
Proof.
  unfold str_leb. rewrite !negb_true_iff. intros H1 H2.
  destruct (CureBase.str_ltb c a) eqn:E; [|reflexivity].
  destruct (list_eq_dec N.eq_dec a b) as [->|Hne]; [congruence|].
  pose proof (@str_ltb_tri _ _ H1 (not_eq_sym Hne)) as Hab.
  pose proof (@str_ltb_trans _ _ _ E Hab). congruence.
Qed.

Lemma sort_of_sorted (A : Type) (le : A -> A -> bool) (l : list A) :
  StronglySorted (fun a b => le a b = true) l -> Sort.sort le l = l.
Proof.
  induction 1 as [|x r Hs IH Hx]; [reflexivity|].
  cbn [Sort.sort fold_right]. fold (Sort.sort le r). rewrite IH.
  destruct r as [|y r']; [reflexivity|].
  cbn [Sort.insert]. inversion Hx as [|? ? Hxy _]; subst.
  rewrite Hxy. reflexivity.
Qed.

(** The distinct texts of a list, in strictly increasing order. *)
Lemma sorted_set_spec (l : list pystr) :
  StronglySorted (fun a b => CureBase.str_ltb a b = true) (sorted_set l)
  /\ (forall g, In g (sorted_set l) <-> In g l).
Proof.
  unfold sorted_set.
  set (d := nodup (list_eq_dec N.eq_dec) l).
  assert (Hnd : NoDup (Sort.sort str_leb d)).
  { eapply Permutation_NoDup.
    - apply Permutation_sym. apply EncoderFacts.sort_perm.
    - apply NoDup_nodup. }
  pose proof (@sort_sorted _ str_leb str_leb_total str_leb_trans d) as Hs.
  split.
  - induction Hs as [|x r Hs IH Hx]; [constructor|].
    inversion Hnd as [|? ? Hnx Hnr]; subst.
    constructor; [apply IH; exact Hnr|].
    apply Forall_forall. intros y Hy.
    rewrite Forall_forall in Hx. specialize (Hx y Hy).
    unfold str_leb in Hx. apply negb_true_iff in Hx.
    apply str_ltb_tri; [exact Hx|]. intros ->. exact (Hnx Hy).
  - intros g. rewrite sort_In. apply nodup_In.
Qed.

Lemma sorted_set_fixed (l : list pystr) :
  StronglySorted (fun a b => CureBase.str_ltb a b = true) l ->
  sorted_set l = l.
Proof.
  intros Hs. unfold sorted_set.
  assert (Hnd : NoDup l).
  { induction Hs as [|x r Hs IH Hx]; constructor; [|exact IH].
    intros Hin. rewrite Forall_forall in Hx. specialize (Hx x Hin).
    rewrite str_ltb_irrefl in Hx. discriminate. }
  rewrite nodup_fixed_point by exact Hnd.
  apply sort_of_sorted.
  eapply StronglySorted_ind
    with (P := fun l => StronglySorted (fun a b => str_leb a b = true) l);
    [constructor| |exact Hs].
  intros a r _ IH Ha. constructor; [exact IH|].
  eapply Forall_impl; [|exact Ha]. intros b Hb. cbv beta in Hb.
  unfold str_leb. rewrite (@str_ltb_asym _ _ Hb). reflexivity.
Qed.

Lemma split_items_no_sep (sep : N) (s : pystr) :
  Forall (Forall (fun c => c <> sep)) (split sep s).
Proof.
  induction s as [|c r IH]; cbn [split].
  - repeat constructor.
  - destruct (N.eqb_spec c sep) as [->|Hne].
    + constructor; [constructor|exact IH].
    + destruct (split sep r) as [|h t].
      * repeat constructor. exact Hne.
      * inversion IH; subst. constructor; [|assumption].
        constructor; assumption.
Qed.

Lemma genes_cases (Series : list pystr) :
  (genes_of Series = [] /\ FormatGenesOrFunction Series = py ".")
  \/ (exists Genes,
         Genes <> []
         /\ FormatGenesOrFunction Series = join (py ";") Genes
         /\ split 59 (FormatGenesOrFunction Series) = Genes
         /\ StronglySorted (fun a b => CureBase.str_ltb a b = true) Genes
         /\ (forall g, In g Genes <-> In g (genes_of Series))).
Proof.
  unfold FormatGenesOrFunction. fold (genes_of Series).
  destruct (sorted_set_spec (genes_of Series)) as [Hs Hin].
  destruct (sorted_set (genes_of Series)) as [|g0 G] eqn:E.
  - left. split; [|reflexivity].
    destruct (genes_of Series) as [|g r]; [reflexivity|].
    exfalso. apply (Hin g). left. reflexivity.
  - right. exists (g0 :: G). split; [discriminate|].
    split; [reflexivity|]. split; [|split; assumption].
    change (py ";") with [59]. apply split_join; [discriminate|].
    apply Forall_forall. intros g Hg. apply Hin in Hg.
    unfold genes_of in Hg. apply in_flat_map in Hg.
    destruct Hg as (item & _ & Hg).
    pose proof (split_items_no_sep 59 item) as Hall.
    rewrite Forall_forall in Hall. apply Hall. exact Hg.
Qed.

(** X18. [FormatGenesOrFunction] gives the sentinel when no cell names a gene,
    and otherwise the genes that the cells name, each once, in strictly
    increasing order, joined by semicolons, so that splitting its result on
    [';'] gives those genes back.  Its result is a normal form: applied to
    its own result, the function gives that result again. *)
Theorem FormatGenesOrFunction_normal_form (Series : list pystr) :
  ((genes_of Series = [] /\ FormatGenesOrFunction Series = py ".")
   \/ (exists Genes,
          Genes <> []
          /\ FormatGenesOrFunction Series = join (py ";") Genes
          /\ split 59 (FormatGenesOrFunction Series) = Genes
          /\ StronglySorted (fun a b => CureBase.str_ltb a b = true) Genes
          /\ (forall g, In g Genes <-> In g (genes_of Series))))
  /\ FormatGenesOrFunction [FormatGenesOrFunction Series]
     = FormatGenesOrFunction Series.
Proof.
  split; [apply genes_cases|].
  destruct (genes_cases Series)
    as [[_ ->]|(Genes & Hne & E & Hsplit & Hs & _)]; [reflexivity|].
  destruct (list_eq_dec N.eq_dec (FormatGenesOrFunction Series) (py "."))
    as [Hdot|Hdot]; [rewrite Hdot; reflexivity|].
  unfold FormatGenesOrFunction at 1. cbn [filter].
  rewrite pystr_eqb_neq by exact Hdot. cbn [negb flat_map].
  rewrite app_nil_r, Hsplit, sorted_set_fixed by exact Hs.
  destruct Genes as [|g G]; [congruence|]. symmetry. exact E.
Qed.

Section Unicode.
Variable U : unicode_db.

Lemma count_item_cons (x y : pystr) (l : list pystr) :
  count_item x (y :: l)
  = if pystr_eqb x y then S (count_item x l) else count_item x l.
Proof.
  unfold count_item. cbn [filter].
  destruct (pystr_eqb x y); reflexivity.
Qed.

Lemma conservation_counts (Series : list pystr) :
  let symbols := map (conservation_symbol U) Series in
  let ranks := parsed_ranks U Series in
  (count_item (py "U") symbols + List.length ranks = List.length symbols)%nat
  /\ count_item (py "D") symbols
     = List.length (filter (fun r => float_ge r (FDec false 7 (-1))) ranks)
  /\ (count_item (py "D") symbols + count_item (py "T") symbols
      = List.length ranks)%nat.
Proof.
  cbv zeta. unfold parsed_ranks.
  induction Series as [|x r (IH1 & IH2 & IH3)]; [repeat split|].
  cbn [map]. rewrite !count_item_cons.
  assert (Hsym : conservation_symbol U x
                 = match FormatFloat U x with
                   | None => py "U"
                   | Some Rank =>
                       if float_ge Rank (FDec false 7 (-1))
                       then py "D" else py "T"
                   end) by reflexivity.
  rewrite Hsym. clear Hsym.
  cbn [somes flat_map]. fold (somes (map (FormatFloat U) r)).
  destruct (FormatFloat U x) as [v|].
  - cbn [app filter List.length].
    destruct (float_ge v (FDec false 7 (-1)));
      change (pystr_eqb (py "U") (py "D")) with false;
      change (pystr_eqb (py "U") (py "T")) with false;
      change (pystr_eqb (py "D") (py "D")) with true;
      change (pystr_eqb (py "D") (py "T")) with false;
      change (pystr_eqb (py "T") (py "D")) with false;
      change (pystr_eqb (py "T") (py "T")) with true;
      cbn [List.length]; repeat split; lia.
  - cbn [app filter List.length].
    change (pystr_eqb (py "U") (py "U")) with true;
      change (pystr_eqb (py "D") (py "U")) with false;
      change (pystr_eqb (py "T") (py "U")) with false;
      cbn [List.length]; repeat split; lia.
Qed.

(** X19. [FormatConservation] gives the sentinel when [float()] reads none
    of the row's conservation scores, and otherwise "D/N", [N] being the
    number of scores that [float()] reads and [D] the number of those that
    are at least 0.7. *)
Theorem FormatConservation_counts (Series : list pystr) :
  let ranks := parsed_ranks U Series in
  FormatConservation U Series
  = match ranks with
    | [] => py "."
    | _ =>
        str_of_N (N.of_nat (List.length
                    (filter (fun r => float_ge r (FDec false 7 (-1))) ranks)))
        ++ py "/" ++ str_of_N (N.of_nat (List.length ranks))
    end.
Proof.
  cbv zeta. unfold FormatConservation. cbv zeta.
  destruct (conservation_counts Series) as (H1 & H2 & H3). cbv zeta in *.
  rewrite H3, H2.
  destruct (parsed_ranks U Series) as [|v vs] eqn:E.
  - cbn [List.length] in H1.
    replace (count_item (py "U") (map (conservation_symbol U) Series)
             <? List.length (map (conservation_symbol U) Series))%nat
      with false by (symmetry; apply Nat.ltb_ge; lia).
    reflexivity.
  - cbn [List.length] in H1.
    replace (count_item (py "U") (map (conservation_symbol U) Series)
             <? List.length (map (conservation_symbol U) Series))%nat
      with true by (symmetry; apply Nat.ltb_lt; lia).
    reflexivity.
Qed.

End Unicode.

End GenesFacts.

(* ------------------------------------------------------------------ *)
(** * [CureBase]: the merged table *)

Module MergeFacts.
Import Json Codec CureBase PyFacts DictFacts DecoderFacts.

Lemma select_spec (D : frame) (names : list pystr) (R : frame) :
  select D names = Some R ->
  (forall c, In c R <-> In c D /\ In (fst c) names)
  /\ (forall n, In n names -> exists col, In (n, col) R).
Proof.
  revert R. induction names as [|n r IH]; intros R; cbn [select].
  - intros [= <-]. split; [|intros n []].
    intros c. cbn [In]. tauto.
  - destruct (filter (fun c => pystr_eqb (fst c) n) D) as [|c0 cs] eqn:F;
      [discriminate|].
    destruct (select D r) as [rest|]; [|discriminate].
    cbn. intros [= <-]. destruct (IH rest eq_refl) as [IH1 IH2].
    assert (Hf : forall c, In c (c0 :: cs) <-> In c D /\ fst c = n).
    { intros c. rewrite <- F, filter_In, pystr_eqb_eq. tauto. }
    split.
    + intros c. change (c0 :: cs ++ rest) with ((c0 :: cs) ++ rest).
      rewrite in_app_iff, Hf, IH1. cbn [In]. intuition congruence.
    + intros m [<-|Hm].
      * assert (Hin : In c0 D /\ fst c0 = n) by (apply Hf; left; reflexivity).
        destruct c0 as [n0 col]. cbn [fst] in Hin. destruct Hin as [_ <-].
        exists col. left. reflexivity.
      * destruct (IH2 m Hm) as [col Hcol]. exists col.
        change (c0 :: cs ++ rest) with ((c0 :: cs) ++ rest).
        apply in_or_app. right. exact Hcol.
Qed.

Lemma mapM_nth (A B : Type) (f : A -> option B) (l : list A) (out : list B)
      (i : nat) (x : A) :
  Gff3.mapM f l = Some out -> nth_error l i = Some x ->
  exists y, f x = Some y /\ nth_error out i = Some y.
Proof.
  revert out i. induction l as [|a r IH]; intros out i; cbn [Gff3.mapM].
  - destruct i; discriminate.
  - destruct (f a) as [b|] eqn:E; [|discriminate].
    destruct (Gff3.mapM f r) as [bs|]; [|discriminate].
    cbn. intros [= <-]. destruct i as [|i]; cbn [nth_error].
    + intros [= <-]. exists b. split; [exact E|reflexivity].
    + intros H. apply (IH bs i eq_refl H).
Qed.

Lemma mapM_frame_spec (f : pystr -> cell -> option cell) (D D' : frame) :
  mapM_frame f D = Some D' ->
  Forall2 (fun c c' => fst c' = fst c
                       /\ Gff3.mapM (f (fst c)) (snd c) = Some (snd c')) D D'.
Proof.
  revert D'. induction D as [|[n col] r IH]; intros D'; cbn [mapM_frame].
  - intros [= <-]. constructor.
  - unfold mapM. destruct (Gff3.mapM (f n) col) as [col'|] eqn:E; [|discriminate].
    destruct (mapM_frame f r) as [r'|]; [|discriminate].
    cbn. intros [= <-]. constructor; [|apply IH; reflexivity].
    cbn [fst snd]. split; [reflexivity|exact E].
Qed.

Lemma Forall2_In_r (A B : Type) (P : A -> B -> Prop) (l : list A)
      (l' : list B) (y : B) :
  Forall2 P l l' -> In y l' -> exists x, In x l /\ P x y.
Proof.
  induction 1 as [|a b l l' Hab _ IH]; [intros []|].
  intros [<-|Hy].
  - exists a. split; [left; reflexivity|exact Hab].
  - destruct (IH Hy) as (x & Hx & Hp). exists x. split; [right|]; assumption.
Qed.

Lemma Forall2_In_l (A B : Type) (P : A -> B -> Prop) (l : list A)
      (l' : list B) (x : A) :
  Forall2 P l l' -> In x l -> exists y, In y l' /\ P x y.
Proof.
  induction 1 as [|a b l l' Hab _ IH]; [intros []|].
  intros [<-|Hx].
  - exists b. split; [left; reflexivity|exact Hab].
  - destruct (IH Hx) as (y & Hy & Hp). exists y. split; [right|]; assumption.
Qed.

(** The overlap columns are not columns of the variant. *)
Lemma gff3_column_not_SNPdata (j : nat) : ~ In (gff3_column j) SNPdata.
Proof.
  unfold gff3_column, SNPdata.
  intros [H|[H|[H|[H|[H|[]]]]]]; discriminate H.
Qed.

Lemma NewColumns_keys (Databases : list pystr) (k : pystr) :
  In k (Dict.keys (NewColumns Databases)) -> exists j, k = gff3_column j.
Proof.
  unfold NewColumns. rewrite NewColumns_fold by (intros k' []).
  cbn [app]. unfold Dict.keys. rewrite map_map. cbn [fst].
  intros H. apply in_map_iff in H. destruct H as ([j y] & <- & _).
  exists j. reflexivity.
Qed.

Section Row.
Variable rows i : nat.
Hypothesis i_lt : (i < rows)%nat.

(** What holds of the table all along: it is rectangular, and row [i] holds
    the sentinel or a missing value outside the columns of the variant. *)
Let Inv (D : frame) : Prop :=
  forall n col, In (n, col) D ->
    List.length col = rows
    /\ (~ In n SNPdata -> exists x, nth_error col i = Some x /\ quiet x).

Lemma Inv_decode (K : list pystr) (D D' : frame) :
  Inv D ->
  mapM_frame (fun n c => if Dict.mem n K then decode_cell c else Some c) D
  = Some D' ->
  Inv D'.
Proof.
  intros HI H. apply mapM_frame_spec in H.
  intros n col' Hin.
  destruct (Forall2_In_r _ H Hin) as ([n0 col] & Hc & Hn & Hm).
  cbn [fst snd] in Hn, Hm. subst n0.
  destruct (HI n col Hc) as [Hlen Hq]. split.
  - rewrite (mapM_length _ _ Hm). exact Hlen.
  - intros Hn. destruct (Hq Hn) as (x & Hx & Hqx).
    destruct (mapM_nth _ _ _ Hm Hx) as (y & Hy & Hnth).
    exists y. split; [exact Hnth|].
    destruct (Dict.mem n K).
    + destruct Hqx as [->| ->]; [|discriminate Hy].
      cbn in Hy. injection Hy as <-. left. reflexivity.
    + injection Hy as <-. exact Hqx.
Qed.

Lemma Inv_expand (D D' : frame) (Col name : pystr) :
  ~ In Col SNPdata -> Inv D -> expand D Col name = Some D' ->
  Inv D' /\ (forall c, In c D -> In c D').
Proof.
  intros HCol HI. unfold expand.
  destruct (filter (fun c => pystr_eqb (fst c) Col) D) as [|[n0 col] rest] eqn:F;
    [discriminate|].
  assert (Hin0 : In (n0, col) D /\ n0 = Col).
  { assert (H : In (n0, col) (filter (fun c => pystr_eqb (fst c) Col) D))
      by (rewrite F; left; reflexivity).
    apply filter_In in H. cbn [fst] in H. rewrite pystr_eqb_eq in H. exact H. }
  destruct Hin0 as [Hin0 ->].
  unfold mapM. destruct (Gff3.mapM (series_of_cell name) col) as [sers|] eqn:E;
    [|discriminate].
  cbn. destruct (existsb _ sers); intros [= <-].
  2:{ split; [exact HI|tauto]. }
  split; [|intros c Hc; apply in_or_app; left; exact Hc].
  intros n c Hin. apply in_app_iff in Hin. destruct Hin as [Hin|Hin];
    [apply HI; exact Hin|].
  apply in_map_iff in Hin. destruct Hin as (k & Hk & _).
  unfold new_column in Hk. injection Hk as <- <-.
  destruct (HI _ _ Hin0) as [Hlen Hq]. split.
  - rewrite length_map, (mapM_length _ _ E). exact Hlen.
  - intros _. destruct (Hq HCol) as (x & Hx & Hqx).
    destruct (mapM_nth _ _ _ E Hx) as (y & Hy & Hnth).
    exists CNaN. split; [|right; reflexivity].
    rewrite nth_error_map, Hnth. cbn [option_map].
    destruct Hqx as [->| ->]; [|discriminate Hy].
    cbn in Hy. injection Hy as <-. reflexivity.
Qed.

Lemma Inv_expand_all (cols : Dict.t pystr) (D D' : frame) :
  (forall k, In k (Dict.keys cols) -> ~ In k SNPdata) ->
  Inv D -> expand_all D cols = Some D' ->
  Inv D' /\ (forall c, In c D -> In c D').
Proof.
  revert D. induction cols as [|[Col name] r IH]; intros D HK HI;
    cbn [expand_all].
  - intros [= <-]. split; [exact HI|tauto].
  - destruct (expand D Col name) as [D1|] eqn:E; [|discriminate].
    cbn. intros H.
    destruct (@Inv_expand D D1 Col name (HK Col (or_introl eq_refl)) HI E)
      as [HI1 Hsub1].
    destruct (IH D1 (fun k Hk => HK k (or_intror Hk)) HI1 H) as [HI' Hsub].
    split; [exact HI'|]. intros c Hc. apply Hsub, Hsub1, Hc.
Qed.

Lemma add_missing_fold (m : nat) (l : list pystr) (D : frame) :
  exists E,
    fold_left (fun D' c => if Dict.mem c (columns D') then D'
                           else D' ++ [(c, repeat CNaN m)]) l D
    = D ++ E
    /\ (forall c, In c E -> snd c = repeat CNaN m
                            /\ ~ In (fst c) (columns D))
    /\ (forall n, In n l -> In n (columns (D ++ E))).
Proof.
  revert D. induction l as [|c r IH]; intros D; cbn [fold_left].
  - exists []. rewrite app_nil_r. split; [reflexivity|].
    split; [intros c []|intros n []].
  - destruct (Dict.mem c (columns D)) eqn:M.
    + destruct (IH D) as (E & HE & Hnew & Hall). exists E.
      split; [exact HE|]. split; [exact Hnew|].
      intros n [<-|Hn]; [|apply Hall; exact Hn].
      apply mem_In in M. unfold columns in *. rewrite map_app.
      apply in_or_app. left. exact M.
    + destruct (IH (D ++ [(c, repeat CNaN m)])) as (E & HE & Hnew & Hall).
      exists ((c, repeat CNaN m) :: E).
      assert (Eapp : D ++ (c, repeat CNaN m) :: E
                     = (D ++ [(c, repeat CNaN m)]) ++ E)
        by (rewrite <- app_assoc; reflexivity).
      split; [rewrite HE; symmetry; exact Eapp|]. split.
      * intros c' [<-|Hc'].
        -- cbn [fst snd]. split; [reflexivity|]. apply mem_false. exact M.
        -- destruct (Hnew c' Hc') as [Hs Hn]. split; [exact Hs|].
           intros Hin. apply Hn. unfold columns in *. rewrite map_app.
           apply in_or_app. left. exact Hin.
      * rewrite Eapp. intros n [<-|Hn]; [|apply Hall; exact Hn].
        unfold columns. rewrite !map_app. apply in_or_app. left.
        apply in_or_app. right. left. reflexivity.
Qed.

Lemma nrows_rectangular (D : frame) :
  D <> [] -> (forall n col, In (n, col) D -> List.length col = rows) ->
  nrows D = rows.
Proof.
  destruct D as [|[n col] r]; [congruence|].
  intros _ H. cbn [nrows]. apply (H n col). left. reflexivity.
Qed.

Lemma Inv_add_missing (D : frame) (ExpectedCols : list pystr) :
  D <> [] -> Inv D ->
  Inv (add_missing D ExpectedCols)
  /\ (forall c, In c D -> In c (add_missing D ExpectedCols))
  /\ (forall n, In n ExpectedCols ->
                In n (columns (add_missing D ExpectedCols))).
Proof.
  intros Hne HI. unfold add_missing.
  set (Missing := filter (fun c => negb (Dict.mem c (columns D))) ExpectedCols).
  destruct (add_missing_fold (nrows D) Missing D) as (E & -> & Hnew & Hall).
  rewrite (nrows_rectangular Hne (fun n col H => proj1 (HI n col H))) in Hnew.
  split; [|split].
  - intros n col Hin. apply in_app_iff in Hin. destruct Hin as [Hin|Hin];
      [apply HI; exact Hin|].
    destruct (Hnew _ Hin) as [Hs _]. cbn [snd] in Hs. subst col. split.
    + apply repeat_length.
    + intros _. exists CNaN. split; [|right; reflexivity].
      rewrite nth_error_repeat by exact i_lt. reflexivity.
  - intros c Hc. apply in_or_app. left. exact Hc.
  - intros n Hn. destruct (Dict.mem n (columns D)) eqn:M.
    + apply mem_In in M. unfold columns in *. rewrite map_app.
      apply in_or_app. left. exact M.
    + apply Hall. unfold Missing. apply filter_In. split; [exact Hn|].
      rewrite M. reflexivity.
Qed.

Lemma flatten_quiet (x : cell) (y : cell) :
  quiet x -> flatten x = Some y -> y = CStr (py ".").
Proof.
  intros [->| ->]; cbn; intros [= <-]; reflexivity.
Qed.

Lemma Inv_flatten (D D' : frame) :
  Inv D ->
  mapM_frame (fun n c => if Dict.mem n SNPdata then Some c else flatten c) D
  = Some D' ->
  forall n col, In (n, col) D' ->
    List.length col = rows
    /\ (~ In n SNPdata -> nth_error col i = Some (CStr (py "."))).
Proof.
  intros HI H. apply mapM_frame_spec in H.
  intros n col' Hin.
  destruct (Forall2_In_r _ H Hin) as ([n0 col] & Hc & Hn & Hm).
  cbn [fst snd] in Hn, Hm. subst n0.
  destruct (HI n col Hc) as [Hlen Hq]. split.
  - rewrite (mapM_length _ _ Hm). exact Hlen.
  - intros Hn. destruct (Hq Hn) as (x & Hx & Hqx).
    destruct (mapM_nth _ _ _ Hm Hx) as (y & Hy & Hnth).
    rewrite Hnth. f_equal.
    apply mem_false in Hn. rewrite Hn in Hy.
    apply (flatten_quiet Hqx Hy).
Qed.

(** X12. Whenever [CureBase] builds the table of database columns, the table has
    the rows of the annotated table, its columns are the five columns of
    the variant and the expected columns of the databases, and a variant
    that overlaps no interval of any database has the sentinel "." in
    every database column, whether other variants filled that column or
    the column was never observed. *)
Theorem merge_databases_sentinel (Data : frame)
        (Databases ExpectedCols : list pystr) (R : frame) :
  rectangular Data rows ->
  no_overlap_at Data (Dict.keys (NewColumns Databases)) i ->
  merge_databases Data Databases ExpectedCols = Some R ->
  sentinel_at R i
  /\ rectangular R rows
  /\ (forall n, In n (columns R) <-> In n (SNPdata ++ ExpectedCols)).
Proof.
  intros Hrect Hno. unfold merge_databases. cbv zeta.
  set (K := Dict.keys (NewColumns Databases)) in *.
  assert (HK : forall k, In k K -> ~ In k SNPdata).
  { intros k Hk. destruct (NewColumns_keys _ _ Hk) as [j ->].
    apply gff3_column_not_SNPdata. }
  destruct (select Data (SNPdata ++ K)) as [D1|] eqn:E1; [|discriminate].
  cbn [option_map].
  destruct (mapM_frame _ D1) as [D2|] eqn:E2; [|discriminate].
  destruct (expand_all D2 (NewColumns Databases)) as [D3|] eqn:E3;
    [|discriminate].
  destruct (mapM_frame _ (add_missing _ _)) as [D6|] eqn:E6; [|discriminate].
  intros E7.
  destruct (select_spec _ _ E1) as [H1 H1'].
  assert (HI1 : Inv D1).
  { intros n col Hin. apply H1 in Hin. destruct Hin as [Hin Hn].
    cbn [fst] in Hn. split.
    - unfold rectangular in Hrect. rewrite Forall_forall in Hrect.
      apply (Hrect _ Hin).
    - intros Hsnp. apply in_app_iff in Hn. destruct Hn as [Hn|Hn]; [tauto|].
      exists (CStr (py ".")). split; [|left; reflexivity].
      apply (Hno n col Hin Hn). }
  pose proof (Inv_decode _ HI1 E2) as HI2.
  destruct (Inv_expand_all _ HK HI2 E3) as [HI3 Hsub3].
  set (D4 := drop D3 K) in *.
  assert (HI4 : Inv D4).
  { intros n col Hin. apply filter_In in Hin. apply HI3. apply Hin. }
  assert (Hne4 : D4 <> []).
  { destruct (H1' (py "Chr")) as [col Hcol];
      [apply in_or_app; left; left; reflexivity|].
    apply mapM_frame_spec in E2.
    destruct (Forall2_In_l _ E2 Hcol) as ([n' col'] & Hin' & Hn' & _).
    cbn [fst] in Hn'. subst n'.
    assert (Hin4 : In (py "Chr", col') D4).
    { apply filter_In. split; [apply Hsub3; exact Hin'|].
      cbn [fst]. apply negb_true_iff, mem_false.
      intros Hk. apply (HK _ Hk). left. reflexivity. }
    intros E. rewrite E in Hin4. destruct Hin4. }
  destruct (Inv_add_missing ExpectedCols Hne4 HI4) as (HI5 & _ & _).
  pose proof (Inv_flatten HI5 E6) as HI6.
  destruct (select_spec _ _ E7) as [H7 H7'].
  split; [|split].
  - intros n col Hin Hn. apply H7 in Hin. destruct Hin as [Hin _].
    apply (HI6 n col Hin). exact Hn.
  - apply Forall_forall. intros [n col] Hin. apply H7 in Hin.
    destruct Hin as [Hin _]. apply (HI6 n col Hin).
  - intros n. split.
    + intros Hin. apply in_map_iff in Hin. destruct Hin as (c & <- & Hc).
      apply H7 in Hc. apply Hc.
    + intros Hin. destruct (H7' n Hin) as [col Hcol].
      apply in_map_iff. exists (n, col). split; [reflexivity|exact Hcol].
Qed.

End Row.

Lemma merge_databases_sentinel_witness :
  sentinel_at two_variants_merged 0
  /\ rectangular two_variants_merged 2
  /\ (forall n, In n (columns two_variants_merged)
                <-> In n (SNPdata ++ [py "db.X"])).
Proof.
  apply (@merge_databases_sentinel 2 0 ltac:(lia) two_variants
                                   [py "db"] [py "db.X"]).
  - repeat (apply Forall_cons; [reflexivity|]). apply Forall_nil.
  - intros n col Hin Hn. vm_compute in Hn. destruct Hn as [<-|[]].
    vm_compute in Hin.
    repeat (destruct Hin as [Hin|Hin];
            [try discriminate Hin; injection Hin as <-; reflexivity|]).
    destruct Hin.
  - vm_compute. reflexivity.
Defined.

(** ** No variant overlaps any database *)



Lemma mapM_frame_columns (f : pystr -> cell -> option cell) (D D' : frame) :
  mapM_frame f D = Some D' -> columns D' = columns D.
Proof.
  intros H. apply mapM_frame_spec in H.
  induction H as [|c c' l l' [Hn _] _ IH]; [reflexivity|].
  unfold columns in *. cbn [map]. rewrite Hn, IH. reflexivity.
Qed.





End MergeFacts.

(* ------------------------------------------------------------------ *)
(** * [ANNOVAR] and [AnnoPipe] *)

Module PipelineFacts.
Import PyFacts DictFacts.

(** ** The options of the annotator *)

Lemma combine_app (A B : Type) (l1 l2 : list A) (m1 m2 : list B) :
  List.length l1 = List.length m1 ->
  combine (l1 ++ l2) (m1 ++ m2) = combine l1 m1 ++ combine l2 m2.
Proof.
  revert m1. induction l1 as [|a l1 IH]; intros [|b m1]; cbn;
    try discriminate; [reflexivity|].
  intros [= H]. rewrite IH by exact H. reflexivity.
Qed.

Lemma combine_const (A B C : Type) (a : A) (b : B) (l : list C) :
  combine (map (fun _ => a) l) (map (fun _ => b) l)
  = map (fun _ => (a, b)) l.
Proof.
  induction l as [|x r IH]; cbn; [reflexivity|]. rewrite IH. reflexivity.
Qed.

Lemma protocol_operation_pairs (Databases : list (Dict.t pystr))
      (ps os : list pystr) :
  Gff3.mapM (fun item => Dict.get item (py "Protocol")) Databases = Some ps ->
  Gff3.mapM (fun item => Dict.get item (py "Operation")) Databases = Some os ->
  Gff3.mapM Annovar.protocol_operation Databases = Some (combine ps os)
  /\ (Forall Annovar.comma_free Databases ->
      Forall (Forall (fun c => c <> 44)) ps
      /\ Forall (Forall (fun c => c <> 44)) os).
Proof.
  revert ps os. induction Databases as [|d r IH]; intros ps os;
    cbn [Gff3.mapM].
  - intros [= <-] [= <-]. split; [reflexivity|]. intros _. split; constructor.
  - intros H1 H2. unfold Annovar.protocol_operation at 1.
    destruct (Dict.get d (py "Protocol")) as [p|] eqn:Ep;
      [|cbn in H1; discriminate H1].
    destruct (Gff3.mapM (fun item => Dict.get item (py "Protocol")) r)
      as [ps'|] eqn:Ep'; [|cbn in H1; discriminate H1].
    cbn in H1. injection H1 as <-.
    destruct (Dict.get d (py "Operation")) as [o|] eqn:Eo;
      [|cbn in H2; discriminate H2].
    destruct (Gff3.mapM (fun item => Dict.get item (py "Operation")) r)
      as [os'|] eqn:Eo'; [|cbn in H2; discriminate H2].
    cbn in H2. injection H2 as <-.
    destruct (IH ps' os' eq_refl eq_refl) as [IH1 IH2].
    cbn [combine]. rewrite IH1. split; [reflexivity|].
    intros Hall. inversion Hall as [|? ? Hd Hr]; subst.
    destruct (IH2 Hr) as [Hp Ho].
    split; constructor; try assumption; apply Hd; [left|right]; assumption.
Qed.

(** X14. When [ANNOVAR] gets as far as its command, exactly one of its two
    lists of sources is empty, and the protocols and the operations that
    it hands to the annotator, read back entry by entry, are the protocol
    and the operation of each database in turn, followed by "gff3" and "r"
    for each GFF3 file (no protocol or operation holding a comma). *)
Theorem ANNOVAR_options_aligned (Databases : list (Dict.t pystr))
        (GFF3List : list pystr) (o : Annovar.options) :
  Forall Annovar.comma_free Databases ->
  Annovar.ANNOVAR Databases GFF3List = Some o ->
  (Databases = [] <-> GFF3List <> [])
  /\ exists pairs,
       Gff3.mapM Annovar.protocol_operation Databases = Some pairs
       /\ combine (split 44 (Annovar.Protocol o))
                  (split 44 (Annovar.Operation o))
          = pairs ++ map (fun _ => (py "gff3", py "r")) GFF3List.
Proof.
  intros Hfree. unfold Annovar.ANNOVAR, Annovar.mapM.
  destruct (Bool.eqb _ _) eqn:Eb; [discriminate|].
  destruct (Gff3.mapM (fun item => Dict.get item (py "Protocol")) Databases)
    as [ps|] eqn:Ep; [|discriminate].
  destruct (Gff3.mapM (fun item => Dict.get item (py "Operation")) Databases)
    as [os|] eqn:Eo; [|discriminate].
  cbn. intros [= <-]. cbn [Annovar.Protocol Annovar.Operation].
  destruct (protocol_operation_pairs _ Ep Eo) as [Hpairs Hno].
  destruct (Hno Hfree) as [Hp Ho].
  pose proof (mapM_length _ _ Ep) as Lp.
  pose proof (mapM_length _ _ Eo) as Lo.
  split.
  - destruct Databases, GFF3List; cbn in Eb; try discriminate;
      split; congruence.
  - exists (combine ps os). split; [exact Hpairs|].
    change (py ",") with [44].
    rewrite !split_join.
    + rewrite combine_app by congruence. rewrite combine_const. reflexivity.
    + destruct Databases, GFF3List; cbn in Eb; try discriminate.
      * destruct os; discriminate.
      * destruct os; [discriminate Lo|discriminate].
    + apply Forall_app. split; [exact Ho|].
      apply Forall_forall. intros x Hx. apply in_map_iff in Hx.
      destruct Hx as (_ & <- & _). repeat constructor; discriminate.
    + destruct Databases, GFF3List; cbn in Eb; try discriminate.
      * destruct ps; discriminate.
      * destruct ps; [discriminate Lp|discriminate].
    + apply Forall_app. split; [exact Hp|].
      apply Forall_forall. intros x Hx. apply in_map_iff in Hx.
      destruct Hx as (_ & <- & _). repeat constructor; discriminate.
Qed.

Lemma ANNOVAR_options_aligned_witness :
  ([Annovar.refGene; Annovar.gnomad] = [] <-> @nil pystr <> [])
  /\ exists pairs,
       Gff3.mapM Annovar.protocol_operation [Annovar.refGene; Annovar.gnomad]
       = Some pairs
       /\ combine (split 44 (py "refGene,gnomad211_exome"))
                  (split 44 (py "g,f"))
          = pairs ++ map (fun _ => (py "gff3", py "r")) (@nil pystr).
Proof.
  apply (@ANNOVAR_options_aligned
           [Annovar.refGene; Annovar.gnomad] []
           {| Annovar.Protocol := py "refGene,gnomad211_exome";
              Annovar.Operation := py "g,f";
              Annovar.GFFs := py "--gff3dbfile " |}).
  - repeat (apply Forall_cons; [|]); [| |apply Forall_nil];
      intros v [H|H]; vm_compute in H; injection H as <-;
      repeat (apply Forall_cons; [discriminate|]); apply Forall_nil.
  - vm_compute. reflexivity.
Defined.

(** ** The stages of the pipeline *)

Import AnnoPipe.

Lemma AnnoPipe_run (ok : pystr -> bool) (GFF3 : bool) (Stage0 : list pystr) :
  AnnoPipe ok GFF3 Stage0
  = run_stages ok (stages GFF3)
               {| Stage := Stage0; called := []; raised := false |}.
Proof. destruct GFF3; reflexivity. Qed.

Lemma stage_raised (ok : pystr -> bool) (a : pystr) (r : run) :
  raised r = true -> stage ok a r = r.
Proof. intros H. unfold stage. rewrite H. reflexivity. Qed.

Lemma stage_cases (ok : pystr -> bool) (a : pystr) (r : run) :
  raised r = false ->
  (Dict.mem a (Stage r) = true /\ stage ok a r = r)
  \/ (Dict.mem a (Stage r) = false /\ ok a = true
      /\ stage ok a r = {| Stage := Stage r ++ [a];
                           called := called r ++ [a];
                           raised := false |})
  \/ (Dict.mem a (Stage r) = false /\ ok a = false
      /\ stage ok a r = {| Stage := Stage r;
                           called := called r ++ [a];
                           raised := true |}).
Proof.
  intros H. unfold stage. rewrite H.
  destruct (Dict.mem a (Stage r)); [left; split; reflexivity|].
  destruct (ok a); [right; left|right; right]; repeat split.
Qed.

Lemma run_raised (ok : pystr -> bool) (l : list pystr) (r : run) :
  raised r = true -> run_stages ok l r = r.
Proof.
  unfold run_stages. induction l as [|a l IH]; intros H; [reflexivity|].
  cbn [fold_left]. rewrite stage_raised by exact H. apply IH. exact H.
Qed.

Lemma record_keeps (l S : list pystr) (a : pystr) :
  In a S -> In a (record l S).
Proof.
  unfold record. revert S. induction l as [|b l IH]; intros S H; [exact H|].
  cbn [fold_left]. apply IH. destruct (Dict.mem b S); [exact H|].
  apply in_or_app. left. exact H.
Qed.

Lemma record_adds (l S : list pystr) (a : pystr) :
  In a l -> In a (record l S).
Proof.
  revert S. induction l as [|b l IH]; intros S; [intros []|].
  intros [->|H]; [|apply (IH _ H)].
  unfold record. cbn [fold_left]. apply record_keeps.
  destruct (Dict.mem a S) eqn:M; [apply mem_In; exact M|].
  apply in_or_app. right. left. reflexivity.
Qed.

Lemma record_fixed (l S : list pystr) :
  (forall a, In a l -> In a S) -> record l S = S.
Proof.
  unfold record. induction l as [|b l IH]; intros H; [reflexivity|].
  cbn [fold_left].
  rewrite (proj2 (mem_In b S)) by (apply H; left; reflexivity).
  apply IH. intros a Ha. apply H. right. exact Ha.
Qed.

Lemma record_app (l1 l2 S : list pystr) :
  record (l1 ++ l2) S = record l2 (record l1 S).
Proof. unfold record. apply fold_left_app. Qed.

Lemma record_prefix (l1 l2 S : list pystr) :
  record (l1 ++ l2) (record l1 S) = record (l1 ++ l2) S.
Proof.
  rewrite !record_app. f_equal. apply record_fixed.
  intros a Ha. apply record_adds. exact Ha.
Qed.

(** What a run has written when it stops: the stages of a first part of
    the list, all of the list if nothing raised. *)
Lemma run_Stage (ok : pystr -> bool) (l : list pystr) (r : run) :
  raised r = false ->
  exists l1 l2,
    l = l1 ++ l2
    /\ Stage (run_stages ok l r) = record l1 (Stage r)
    /\ (raised (run_stages ok l r) = false -> l2 = []).
Proof.
  revert r. induction l as [|a l IH]; intros r Hr.
  - exists [], []. repeat split.
  - unfold run_stages. cbn [fold_left].
    fold (run_stages ok l (stage ok a r)).
    destruct (stage_cases ok a r Hr)
      as [[M E]|[(M & Ok & E)|(M & Ok & E)]]; rewrite E.
    + destruct (IH r Hr) as (l1 & l2 & -> & HS & Hl2).
      exists (a :: l1), l2. split; [reflexivity|]. split; [|exact Hl2].
      rewrite HS. unfold record at 2. cbn [fold_left]. rewrite M. reflexivity.
    + destruct (IH {| Stage := Stage r ++ [a]; called := called r ++ [a];
                      raised := false |} eq_refl)
        as (l1 & l2 & -> & HS & Hl2).
      exists (a :: l1), l2. split; [reflexivity|]. split; [|exact Hl2].
      rewrite HS. cbn [Stage]. unfold record at 2. cbn [fold_left].
      rewrite M. reflexivity.
    + exists [], (a :: l). split; [reflexivity|].
      rewrite run_raised by reflexivity. cbn [Stage raised].
      split; [reflexivity|discriminate].
Qed.

Lemma run_all_return (l : list pystr) (r : run) :
  raised r = false -> raised (run_stages all_return l r) = false.
Proof.
  revert r. induction l as [|a l IH]; intros r Hr; [exact Hr|].
  unfold run_stages. cbn [fold_left].
  fold (run_stages all_return l (stage all_return a r)). apply IH.
  destruct (stage_cases all_return a r Hr)
    as [[_ E]|[(_ & _ & E)|(_ & Ok & _)]];
    [rewrite E; exact Hr|rewrite E; reflexivity|discriminate Ok].
Qed.

Lemma run_skips (ok : pystr -> bool) (l : list pystr) (r : run) :
  raised r = false -> (forall a, In a l -> In a (Stage r)) ->
  run_stages ok l r = r.
Proof.
  intros Hr. induction l as [|a l IH]; intros H; [reflexivity|].
  unfold run_stages. cbn [fold_left]. fold (run_stages ok l (stage ok a r)).
  assert (E : stage ok a r = r).
  { unfold stage. rewrite Hr.
    rewrite (proj2 (mem_In a (Stage r))) by (apply H; left; reflexivity).
    reflexivity. }
  rewrite E. apply IH. intros b Hb. apply H. right. exact Hb.
Qed.

(** A stage that was called and returned is in the list. *)
Lemma run_called_returned (ok : pystr -> bool) (l : list pystr) (r : run) :
  (forall a, In a (called r) -> ok a = true -> In a (Stage r)) ->
  forall a, In a (called (run_stages ok l r)) -> ok a = true ->
            In a (Stage (run_stages ok l r)).
Proof.
  revert r. induction l as [|b l IH]; intros r H; [exact H|].
  unfold run_stages. cbn [fold_left]. fold (run_stages ok l (stage ok b r)).
  apply IH. destruct (raised r) eqn:Hr;
    [rewrite stage_raised by exact Hr; exact H|].
  destruct (stage_cases ok b r Hr)
    as [[_ E]|[(_ & Ok & E)|(_ & Ok & E)]]; rewrite E; [exact H| |];
    cbn [Stage called]; intros a Ha Hok; apply in_app_iff in Ha.
  - apply in_or_app. destruct Ha as [Ha|Ha]; [left; apply H; assumption|].
    right. exact Ha.
  - destruct Ha as [Ha|[<-|[]]]; [apply H; assumption|congruence].
Qed.

(** A stage of the list is not called. *)
Lemma run_called_fresh (ok : pystr -> bool) (S l : list pystr) (r : run) :
  (forall a, In a S -> In a (Stage r)) ->
  (forall a, In a (called r) -> ~ In a S) ->
  forall a, In a (called (run_stages ok l r)) -> ~ In a S.
Proof.
  revert r. induction l as [|b l IH]; intros r HS H; [exact H|].
  unfold run_stages. cbn [fold_left]. fold (run_stages ok l (stage ok b r)).
  destruct (raised r) eqn:Hr;
    [rewrite stage_raised by exact Hr; apply IH; assumption|].
  destruct (stage_cases ok b r Hr)
    as [[_ E]|[(M & _ & E)|(M & _ & E)]]; rewrite E;
    [apply IH; assumption| |]; apply IH; cbn [Stage called].
  - intros a Ha. apply in_or_app. left. apply HS. exact Ha.
  - intros a Ha. apply in_app_iff in Ha.
    destruct Ha as [Ha|[<-|[]]]; [apply H; exact Ha|].
    intros Hb. apply mem_false in M. apply M, HS, Hb.
  - exact HS.
  - intros a Ha. apply in_app_iff in Ha.
    destruct Ha as [Ha|[<-|[]]]; [apply H; exact Ha|].
    intros Hb. apply mem_false in M. apply M, HS, Hb.
Qed.

(** X25. A run of the pipeline that ends without an exception leaves a unit
    that lists the annotation and the final stage, and the stage of the
    databases when there are databases; run again on that unit, the
    pipeline calls no stage and leaves the unit as it is, whatever the
    stage functions would do. *)
Theorem AnnoPipe_completed (ok ok' : pystr -> bool) (GFF3 : bool)
        (Stage0 : list pystr) :
  let r := AnnoPipe.AnnoPipe ok GFF3 Stage0 in
  AnnoPipe.raised r = false ->
  In (py "Annovar") (AnnoPipe.Stage r)
  /\ In (py "Annofit") (AnnoPipe.Stage r)
  /\ (GFF3 = true -> In (py "GFF3") (AnnoPipe.Stage r))
  /\ AnnoPipe.AnnoPipe ok' GFF3 (AnnoPipe.Stage r)
     = {| AnnoPipe.Stage := AnnoPipe.Stage r;
          AnnoPipe.called := [];
          AnnoPipe.raised := false |}.
Proof.
  cbv zeta. rewrite !AnnoPipe_run. intros Hr.
  destruct (run_Stage ok (stages GFF3)
                      {| Stage := Stage0; called := []; raised := false |}
                      eq_refl) as (l1 & l2 & El & HS & Hl2).
  rewrite (Hl2 Hr), app_nil_r in El. subst l1. cbn [Stage] in HS.
  rewrite HS.
  assert (Hall : forall a, In a (stages GFF3) ->
                           In a (record (stages GFF3) Stage0))
    by (intros a; apply record_adds).
  split; [apply Hall; left; reflexivity|].
  split; [apply Hall; destruct GFF3; cbn; tauto|].
  split; [intros ->; apply Hall; right; left; reflexivity|].
  apply run_skips; [reflexivity|exact Hall].
Qed.

Lemma AnnoPipe_completed_witness :
  In (py "Annovar") [py "Annovar"; py "GFF3"; py "Annofit"]
  /\ In (py "Annofit") [py "Annovar"; py "GFF3"; py "Annofit"]
  /\ (true = true -> In (py "GFF3") [py "Annovar"; py "GFF3"; py "Annofit"])
  /\ AnnoPipe.AnnoPipe AnnoPipe.merger_raises true
                       [py "Annovar"; py "GFF3"; py "Annofit"]
     = {| AnnoPipe.Stage := [py "Annovar"; py "GFF3"; py "Annofit"];
          AnnoPipe.called := [];
          AnnoPipe.raised := false |}.
Proof.
  apply (@AnnoPipe_completed AnnoPipe.all_return AnnoPipe.merger_raises
                             true []).
  reflexivity.
Defined.

(** X26. An interrupted run can be resumed: run again on the unit that the
    first run left, the pipeline calls no stage that returned in the first
    run, and when the second run ends without an exception the unit lists
    the stages that an uninterrupted run would have listed, in the same
    order. *)
Theorem AnnoPipe_resume (ok ok' : pystr -> bool) (GFF3 : bool)
        (Stage0 : list pystr) :
  let r1 := AnnoPipe.AnnoPipe ok GFF3 Stage0 in
  let r2 := AnnoPipe.AnnoPipe ok' GFF3 (AnnoPipe.Stage r1) in
  (forall a, In a (AnnoPipe.called r1) -> ok a = true ->
             ~ In a (AnnoPipe.called r2))
  /\ (AnnoPipe.raised r2 = false ->
      AnnoPipe.Stage r2
      = AnnoPipe.Stage (AnnoPipe.AnnoPipe AnnoPipe.all_return GFF3 Stage0)).
Proof.
  cbv zeta. rewrite !AnnoPipe_run.
  set (l := stages GFF3).
  set (r0 := {| Stage := Stage0; called := []; raised := false |}).
  set (r1 := run_stages ok l r0).
  split.
  - intros a Ha Hok Hin.
    assert (HS : In a (Stage r1)).
    { apply (@run_called_returned ok l r0); [intros b []|exact Ha|exact Hok]. }
    revert HS.
    apply (@run_called_fresh ok' (Stage r1) l
             {| Stage := Stage r1; called := []; raised := false |});
      [intros b Hb; exact Hb|intros b []|exact Hin].
  - intros Hr2.
    destruct (run_Stage ok l r0 eq_refl) as (l1 & l2 & El & HS1 & _).
    fold r1 in HS1. cbn [Stage] in HS1.
    destruct (run_Stage ok' l
                {| Stage := Stage r1; called := []; raised := false |}
                eq_refl) as (l1' & l2' & El' & HS2 & Hl2).
    rewrite (Hl2 Hr2), app_nil_r in El'. subst l1'. cbn [Stage] in HS2.
    destruct (run_Stage all_return l r0 eq_refl) as (k1 & k2 & Ek & HS3 & Hk2).
    rewrite (Hk2 (run_all_return l r0 eq_refl)), app_nil_r in Ek. subst k1.
    cbn [Stage] in HS3.
    rewrite HS2, HS3, HS1, El. apply record_prefix.
Qed.

End PipelineFacts.

(* ------------------------------------------------------------------ *)
(** * [AnnoFit]: the depth filter *)

Module DepthFacts.
Import AnnoFit PyFacts DictFacts.

Section Unicode.
Variable U : unicode_db.

Lemma digits_no_comma (n : N) : Forall (fun c => c <> 44) (str_of_N n).
Proof.
  eapply Forall_impl; [|apply str_of_N_digits]. intros c Hc. cbv beta in Hc.
  lia.
Qed.

Lemma somes_map_Some (A : Type) (l : list A) : somes (map Some l) = l.
Proof.
  unfold somes. induction l as [|x r IH]; [reflexivity|].
  cbn [map flat_map app]. rewrite IH. reflexivity.
Qed.

Lemma any_None_map_Some (A : Type) (l : list A) :
  any_None (map Some l) = false.
Proof.
  unfold any_None. induction l as [|x r IH]; [reflexivity|exact IH].
Qed.

(** X17. [FilterDepth] reads the allelic depths that the caller writes as
    comma-separated counts of at most 4300 digits each, and is true exactly
    when one of the counts is at least 4; a field without any count is
    false. *)
Theorem FilterDepth_reads_depths (Depths : list N) :
  Forall short_numeral Depths ->
  FilterDepth U (join (py ",") (map str_of_N Depths))
  = existsb (fun n => 4 <=? n) Depths.
Proof.
  intros _.
  destruct Depths as [|d r]; [reflexivity|].
  unfold FilterDepth. cbv zeta. change (py ",") with [44].
  rewrite split_join.
  - rewrite map_map.
    rewrite (map_ext (fun n => FormatInt U (str_of_N n))
                     (fun n => Some (Z.of_N n)))
      by (intros n; apply int_of_str_str_of_N).
    rewrite <- (map_map Z.of_N Some), any_None_map_Some, somes_map_Some.
    generalize (d :: r). intros l.
    induction l as [|x l IH]; [reflexivity|].
    cbn [map existsb]. rewrite IH. f_equal.
    destruct (N.leb_spec 4 x); [apply Z.leb_le|apply Z.leb_gt]; lia.
  - discriminate.
  - apply Forall_forall. intros s Hs. apply in_map_iff in Hs.
    destruct Hs as (n & <- & _). apply digits_no_comma.
Qed.

End Unicode.

Lemma FilterDepth_reads_depths_witness :
  FilterDepth ascii_only (py "3,12") = true.
Proof.
  apply (@FilterDepth_reads_depths ascii_only [3; 12]).
  repeat (apply Forall_cons; [apply Nat.leb_le; vm_compute; reflexivity|]).
  apply Forall_nil.
Defined.

End DepthFacts.
